(** * ifdtool: the Intel Flash Descriptor codec and layout engine

    A shallow embedding of [util/ifdtool/ifdtool.c].  Machine integers are
    [Z] with their wrap-around written out, the flash image is a list of
    bytes, and [exit(EXIT_FAILURE)] is an explicit result.  What the tool
    prints is left out; the files it creates are kept. *)

From Stdlib Require Import ZArith Lia Bool String Ascii.
From stdpp Require Import base list.

Local Open Scope Z_scope.

(** ** Machine integers *)

Module Int.

(** [uint32_t] / [unsigned int]: reduction modulo 2^32. *)
Definition u32 (x : Z) : Z := x mod 2 ^ 32.

(** [int]: the two's-complement reading of the low 32 bits. *)
Definition s32 (x : Z) : Z := (x + 2 ^ 31) mod 2 ^ 32 - 2 ^ 31.

End Int.
Import Int.

(** ** Results of a run

    Every [exit(EXIT_FAILURE)] of the tool is an [Exit] carrying the site
    that raised it. *)

Inductive failure : Type :=
  | No_flash_descriptor            (* find_fd returned NULL *)
  | Unknown_descriptor_version (read_freq : Z)
  | Invalid_region_type
  | Region_disabled
  | Could_not_open_file
  | Could_not_stat_file
  | File_too_large                 (* "... Not injecting." *)
  | Output_too_small
  | Could_not_read_file
  | Could_not_read_layout
  | Could_not_parse_layout
  | Regions_would_overlap
  | Could_not_open_output.         (* write_image: open failed *)

(** [Undefined] is an access outside a buffer; [Diverges] a loop that never
    exits. *)
Inductive res (A : Type) : Type :=
  | Ok (a : A)
  | Exit (f : failure)
  | Undefined
  | Diverges.
Arguments Ok {A} a.
Arguments Exit {A} f.
Arguments Undefined {A}.
Arguments Diverges {A}.

#[global] Instance res_ret : MRet res := fun A a => Ok a.

#[global] Instance res_bind : MBind res := fun A B k r =>
  match r with
  | Ok a => k a
  | Exit f => Exit f
  | Undefined => Undefined
  | Diverges => Diverges
  end.

Definition is_ok {A} (r : res A) : bool :=
  match r with Ok _ => true | _ => false end.

(** ** Types of ifdtool.h *)

(** Modelled from the spec: [enum ifd_version] of ifdtool.h, which is not
    among the sources; the two descriptor versions, in increasing order. *)
Inductive ifd_version_t : Type := IFD_VERSION_1 | IFD_VERSION_2.

(** [ifd_version >= IFD_VERSION_2] *)
Definition ge_version_2 (v : ifd_version_t) : bool :=
  match v with IFD_VERSION_2 => true | IFD_VERSION_1 => false end.

(** Modelled from the spec: [MAX_REGIONS] and [MAX_REGIONS_OLD] of ifdtool.h
    (9 region slots for version 2, 5 for version 1). *)
Definition MAX_REGIONS : Z := 9.
Definition MAX_REGIONS_OLD : Z := 5.

(** The two file-scope variables [ifd_version] and [max_regions], set once
    by [check_ifd_version] and read everywhere else. *)
Record globals : Type := Globals {
  ifd_version : ifd_version_t;
  max_regions : Z
}.

(** Modelled from the spec: [region_t] of ifdtool.h; three [int] fields (the
    source tests [region.size < 0]). *)
Record region_t : Type := Region {
  base : Z;
  limit : Z;
  size : Z
}.

(** Modelled from the spec: [frba_t] of ifdtool.h, the nine packed region
    registers the source names [flreg0] to [flreg8]. *)
Record frba_t : Type := Frba {
  flreg0 : Z; flreg1 : Z; flreg2 : Z; flreg3 : Z; flreg4 : Z;
  flreg5 : Z; flreg6 : Z; flreg7 : Z; flreg8 : Z
}.

(** Modelled from the spec: [fmba_t] of ifdtool.h, the master access words
    the source names [flmstr1] to [flmstr5]. *)
Record fmba_t : Type := Fmba {
  flmstr1 : Z; flmstr2 : Z; flmstr3 : Z; flmstr4 : Z; flmstr5 : Z
}.

(** The fields are [uint32_t]. *)
Definition is_u32 (v : Z) : bool := (0 <=? v) && (v <? 2 ^ 32).

Definition frba_wf (f : frba_t) : bool :=
  forallb is_u32
    [flreg0 f; flreg1 f; flreg2 f; flreg3 f; flreg4 f;
     flreg5 f; flreg6 f; flreg7 f; flreg8 f].

(** ** Region codec *)

(** [get_region]: lines 102-157. *)
Definition get_region (g : globals) (frba : frba_t) (region_type : Z)
  : res region_t :=
  let base_mask := if ge_version_2 (ifd_version g) then 0x7fff else 0xfff in
  let limit_mask := s32 (Z.shiftl base_mask 16) in
  flreg ← match region_type with
           | 0 => Ok (flreg0 frba)
           | 1 => Ok (flreg1 frba)
           | 2 => Ok (flreg2 frba)
           | 3 => Ok (flreg3 frba)
           | 4 => Ok (flreg4 frba)
           | 5 => Ok (flreg5 frba)
           | 6 => Ok (flreg6 frba)
           | 7 => Ok (flreg7 frba)
           | 8 => Ok (flreg8 frba)
           | _ => Exit Invalid_region_type
           end;
  let rbase := s32 (u32 (Z.shiftl (Z.land flreg (u32 base_mask)) 12)) in
  let rlimit :=
    s32 (Z.lor (Z.shiftr (Z.land flreg (u32 limit_mask)) 4) 0xfff) in
  let rsize := s32 (rlimit - rbase + 1) in
  let rsize := if rsize <? 0 then 0 else rsize in
  Ok {| base := rbase; limit := rlimit; size := rsize |}.

(** The value every case of [set_region] stores. *)
Definition pack_region (region : region_t) : Z :=
  u32 (Z.lor (Z.shiftl (Z.land (Z.shiftr (limit region) 12) 0x7fff) 16)
             (Z.land (Z.shiftr (base region) 12) 0x7fff)).

(** [set_region]: lines 159-186. *)
Definition set_region (frba : frba_t) (region_type : Z) (region : region_t)
  : res frba_t :=
  let v := pack_region region in
  match frba with
  | Frba r0 r1 r2 r3 r4 r5 r6 r7 r8 =>
    match region_type with
    | 0 => Ok (Frba v r1 r2 r3 r4 r5 r6 r7 r8)
    | 1 => Ok (Frba r0 v r2 r3 r4 r5 r6 r7 r8)
    | 2 => Ok (Frba r0 r1 v r3 r4 r5 r6 r7 r8)
    | 3 => Ok (Frba r0 r1 r2 v r4 r5 r6 r7 r8)
    | 4 => Ok (Frba r0 r1 r2 r3 v r5 r6 r7 r8)
    | _ => Exit Invalid_region_type
    end
  end.

(** Register [region_type] of a region section, for stating results. *)
Definition flreg_of (frba : frba_t) (region_type : Z) : option Z :=
  if region_type <? 0 then None
  else [flreg0 frba; flreg1 frba; flreg2 frba; flreg3 frba; flreg4 frba;
        flreg5 frba; flreg6 frba; flreg7 frba; flreg8 frba]
         !! Z.to_nat region_type.

(** ** Power-of-two extent *)

(** The [while (y <= x) y = y << 1;] of [next_pow2]; [None] when the loop
    has not left after [fuel] rounds. *)
Fixpoint next_pow2_loop (fuel : nat) (x y : Z) : option Z :=
  match fuel with
  | O => None
  | S fuel' =>
    if y <=? x then next_pow2_loop fuel' x (u32 (Z.shiftl y 1)) else Some y
  end.

(** [next_pow2]: lines 933-942. *)
Definition next_pow2 (fuel : nat) (x : Z) : option Z :=
  let y := 1 in
  if x =? 0 then Some 0 else next_pow2_loop fuel x y.

(** ** Overlap check *)

(** [regions_collide]: lines 951-961. *)
Definition regions_collide (r1 r2 : region_t) : Z :=
  if (size r1 =? 0) || (size r2 =? 0) then 0
  else if ((base r1 >=? base r2) && (base r1 <=? limit r2))
       || ((limit r1 >=? base r2) && (limit r1 <=? limit r2)) then 1
  else 0.

(** ** The image buffer

    [char *image] with its [size]: a list of bytes, each in 0..255.  An
    access that leaves the buffer is [Undefined]. *)

Abbreviation image_t := (list Z).

Definition image_size (image : image_t) : Z := Z.of_nat (length image).

Definition is_byte (b : Z) : bool := (0 <=? b) && (b <? 2 ^ 8).

Definition image_wf (image : image_t) : bool := forallb is_byte image.

Definition in_bounds (image : image_t) (p n : Z) : bool :=
  (0 <=? p) && (0 <=? n) && (p + n <=? image_size image).

Definition load8 (image : image_t) (p : Z) : res Z :=
  if 0 <=? p then
    match image !! Z.to_nat p with
    | Some b => Ok b
    | None => Undefined
    end
  else Undefined.

(** The [uint32_t] load at [image + p], little endian. *)
Definition load32 (image : image_t) (p : Z) : res Z :=
  b0 ← load8 image p;
  b1 ← load8 image (p + 1);
  b2 ← load8 image (p + 2);
  b3 ← load8 image (p + 3);
  Ok (b0 + 2 ^ 8 * b1 + 2 ^ 16 * b2 + 2 ^ 24 * b3).

Definition bytes_of_u32 (v : Z) : list Z :=
  [v mod 2 ^ 8; (v / 2 ^ 8) mod 2 ^ 8; (v / 2 ^ 16) mod 2 ^ 8;
   (v / 2 ^ 24) mod 2 ^ 8].

(** Overwrite [length data] bytes of [image] from offset [p]. *)
Definition blit (image : image_t) (p : Z) (data : list Z) : res image_t :=
  if in_bounds image p (Z.of_nat (length data)) then
    Ok (take (Z.to_nat p) image ++ data
          ++ drop (Z.to_nat p + length data) image)
  else Undefined.

(** [memset(image + p, c, n)]; nothing is touched when [n] is 0. *)
Definition memset (image : image_t) (p c n : Z) : res image_t :=
  if n =? 0 then Ok image
  else if 0 <=? n then blit image p (replicate (Z.to_nat n) c)
  else Undefined.

(** [memcpy(dst + d, src + s, n)]; nothing is touched when [n] is 0. *)
Definition memcpy (dst : image_t) (d : Z) (src : image_t) (s n : Z)
  : res image_t :=
  if n =? 0 then Ok dst
  else if in_bounds src s n then
    blit dst d (take (Z.to_nat n) (drop (Z.to_nat s) src))
  else Undefined.

(** Modelled from the spec: the packed field order of [fdbar_t], [fcba_t],
    [frba_t] and [fmba_t] in ifdtool.h, which is not among the sources:
    consecutive 32-bit words, the header being signature, FLMAP0, FLMAP1,
    FLMAP2. *)
Definition fdbar_flmap0 (fdb : Z) : Z := fdb + 4.
Definition fdbar_flmap1 (fdb : Z) : Z := fdb + 8.
Definition fcba_flcomp (fcba : Z) : Z := fcba.

(** The region section at [image + frba], read through the buffer; its nine
    registers are taken to lie inside. *)
Definition load_frba (image : image_t) (frba : Z) : res frba_t :=
  r0 ← load32 image frba;
  r1 ← load32 image (frba + 4);
  r2 ← load32 image (frba + 8);
  r3 ← load32 image (frba + 12);
  r4 ← load32 image (frba + 16);
  r5 ← load32 image (frba + 20);
  r6 ← load32 image (frba + 24);
  r7 ← load32 image (frba + 28);
  r8 ← load32 image (frba + 32);
  Ok (Frba r0 r1 r2 r3 r4 r5 r6 r7 r8).

(** The stores made through the region section pointer land in the
    buffer. *)
Definition store_frba (image : image_t) (frba : Z) (f : frba_t)
  : res image_t :=
  blit image frba
    (bytes_of_u32 (flreg0 f) ++ bytes_of_u32 (flreg1 f)
     ++ bytes_of_u32 (flreg2 f) ++ bytes_of_u32 (flreg3 f)
     ++ bytes_of_u32 (flreg4 f) ++ bytes_of_u32 (flreg5 f)
     ++ bytes_of_u32 (flreg6 f) ++ bytes_of_u32 (flreg7 f)
     ++ bytes_of_u32 (flreg8 f)).

Definition load_fmba (image : image_t) (fmba : Z) : res fmba_t :=
  m1 ← load32 image fmba;
  m2 ← load32 image (fmba + 4);
  m3 ← load32 image (fmba + 8);
  m4 ← load32 image (fmba + 12);
  m5 ← load32 image (fmba + 16);
  Ok (Fmba m1 m2 m3 m4 m5).

Definition store_fmba (image : image_t) (fmba : Z) (f : fmba_t)
  : res image_t :=
  blit image fmba
    (bytes_of_u32 (flmstr1 f) ++ bytes_of_u32 (flmstr2 f)
     ++ bytes_of_u32 (flmstr3 f) ++ bytes_of_u32 (flmstr4 f)
     ++ bytes_of_u32 (flmstr5 f)).

(** ** Signature locator *)

(** The scan of [find_fd], one stride of 4 per round. *)
Fixpoint find_fd_loop (rounds : nat) (image : image_t) (size i : Z)
  : res (option Z) :=
  match rounds with
  | O => Ok None
  | S rounds' =>
    if i <? size - 4 then
      sig ← load32 image i;
      if sig =? 0x0FF0A55A then Ok (Some i)
      else find_fd_loop rounds' image size (i + 4)
    else Ok None
  end.

(** [find_fd]: lines 46-64.  [None] is the NULL return.  The scan makes at
    most [size] rounds, since [i] grows by 4 from 0. *)
Definition find_fd (image : image_t) : res (option Z) :=
  let size := image_size image in
  find_fd_loop (Z.to_nat size) image size 0.

(** ** Version detector *)

Section Version.

(** The enumerators of [enum spi_frequency] that [check_ifd_version] tests;
    ifdtool.h, which gives them their values, is not among the sources. *)
Variables SPI_FREQUENCY_20MHZ SPI_FREQUENCY_17MHZ : Z.

(** [check_ifd_version]: lines 71-100.  The result is the pair of globals
    the function assigns.  The test [!fcba] never fires: [fcba] is an
    address inside or past a buffer that exists. *)
Definition check_ifd_version (image : image_t) : res globals :=
  fdb ← find_fd image;
  match fdb with
  | None => Exit No_flash_descriptor
  | Some fdb =>
    flmap0 ← load32 image (fdbar_flmap0 fdb);
    let fcba := u32 (Z.shiftl (Z.land flmap0 0xff) 4) in
    flcomp ← load32 image (fcba_flcomp fcba);
    let read_freq := Z.land (Z.shiftr flcomp 17) 7 in
    if read_freq =? SPI_FREQUENCY_20MHZ then
      Ok {| ifd_version := IFD_VERSION_1; max_regions := MAX_REGIONS_OLD |}
    else if read_freq =? SPI_FREQUENCY_17MHZ then
      Ok {| ifd_version := IFD_VERSION_2; max_regions := MAX_REGIONS |}
    else Exit (Unknown_descriptor_version read_freq)
  end.

End Version.

(** ** Region catalog *)

(** [region_names]: lines 34-44, the pairs (pretty, terse). *)
Definition region_names : list (string * string) :=
  [ ("Flash Descriptor", "fd");
    ("BIOS", "bios");
    ("Intel ME", "me");
    ("GbE", "gbe");
    ("Platform Data", "pd");
    ("Reserved", "res1");
    ("Reserved", "res2");
    ("Reserved", "res3");
    ("EC", "ec") ]%string.

(** [region_name]: lines 188-196. *)
Definition region_name (g : globals) (region_type : Z) : res string :=
  if (region_type <? 0) || (region_type >=? max_regions g) then
    Exit Invalid_region_type
  else
    match region_names !! Z.to_nat region_type with
    | Some names => Ok (fst names)
    | None => Undefined
    end.

Definition tolower (c : ascii) : ascii :=
  let n := nat_of_ascii c in
  if (65 <=? n)%nat && (n <=? 90)%nat then ascii_of_nat (n + 32) else c.

Fixpoint lowercase (s : string) : string :=
  match s with
  | EmptyString => EmptyString
  | String c s' => String (tolower c) (lowercase s')
  end.

(** [strcasecmp(a, b) == 0] *)
Definition strcasecmp_eq (a b : string) : bool :=
  String.eqb (lowercase a) (lowercase b).

Fixpoint region_num_loop (names : list (string * string)) (i max : Z)
  (name : string) : Z :=
  match names with
  | [] => -1
  | (pretty, terse) :: names' =>
    if i <? max then
      if strcasecmp_eq name pretty then i
      else if strcasecmp_eq name terse then i
      else region_num_loop names' (i + 1) max name
    else -1
  end.

(** [region_num]: lines 208-220. *)
Definition region_num (g : globals) (name : string) : Z :=
  region_num_loop region_names 0 (max_regions g) name.

(** ** The outside world

    What the operating system answers to the calls the tool makes, and the
    files the tool has written. *)

(** One successful [fscanf] of the layout file: the two [strtok] pieces of
    the first token, each already converted by [strtol(_, NULL, 16)] ([None]
    where [strtok] returned NULL), and the region name.  A scan that does
    not yield its two tokens is skipped by the loop and has no entry. *)
Record layout_entry : Type := Layout_entry {
  tstr1 : option Z;
  tstr2 : option Z;
  layout_region_name : string
}.

Record env : Type := Env {
  region_file_open : bool;          (* open(region_fname) succeeds *)
  region_file_stat : option Z;      (* fstat: st_size *)
  region_file_data : list Z;        (* the bytes of the region file *)
  region_file_read : Z;             (* most bytes one read() hands over *)
  layout_file : option (list layout_entry);   (* fopen and the scan *)
  output_open : bool;               (* open(new_filename) succeeds *)
  output_write : Z                  (* most bytes one write() takes *)
}.

(** Files created so far, latest first. *)
Definition files : Type := list (string * list Z).

Definition M (A : Type) : Type := files -> res A * files.

#[global] Instance M_ret : MRet M := fun A a fs => (Ok a, fs).

#[global] Instance M_bind : MBind M := fun A B k m fs =>
  match m fs with
  | (Ok a, fs') => k a fs'
  | (Exit f, fs') => (Exit f, fs')
  | (Undefined, fs') => (Undefined, fs')
  | (Diverges, fs') => (Diverges, fs')
  end.

Definition lift {A} (r : res A) : M A := fun fs => (r, fs).

Definition exit {A} (f : failure) : M A := lift (Exit f).

(** [write_image]: lines 686-708, for a [filename] that leaves room for the
    suffix.  A short [write] is reported and the function returns all the
    same. *)
Definition write_image (e : env) (filename : string) (image : image_t)
  (size : Z) : M unit :=
  fun fs =>
    let new_filename := (filename ++ ".new")%string in
    if output_open e then
      let n := Z.min size (output_write e) in
      (Ok tt, (new_filename, take (Z.to_nat n) image) :: fs)
    else (Exit Could_not_open_output, fs).

(** ** Access-control codec *)

(** Modelled from the spec: the shift macros of ifdtool.h, which is not among
    the sources.  Version 2 has read bits 19:8 and write bits 31:20 (the
    comment in [unlock_descriptor]); version 1 has them at 16 and 24 (the
    words [unlock_descriptor] stores for version 1). *)
Definition FLMSTR_WR_SHIFT_V1 : Z := 24.
Definition FLMSTR_RD_SHIFT_V1 : Z := 16.
Definition FLMSTR_WR_SHIFT_V2 : Z := 20.
Definition FLMSTR_RD_SHIFT_V2 : Z := 8.

(** What [lock_descriptor] does to the master section: lines 812-841. *)
Definition lock_fmba (g : globals) (fmba : fmba_t) : fmba_t :=
  let '(wr_shift, rd_shift, m1, m2, m3) :=
    if ge_version_2 (ifd_version g) then
      (FLMSTR_WR_SHIFT_V2, FLMSTR_RD_SHIFT_V2,
       Z.land (flmstr1 fmba) 0xff,
       Z.land (flmstr2 fmba) 0xff,
       Z.land (flmstr3 fmba) 0xff)
    else
      (FLMSTR_WR_SHIFT_V1, FLMSTR_RD_SHIFT_V1, 0, 0, 0x118) in
  let m1 := Z.lor m1 (u32 (Z.shiftl 0xb rd_shift)) in
  let m1 := Z.lor m1 (u32 (Z.shiftl 0xa wr_shift)) in
  let m2 := Z.lor m2 (u32 (Z.shiftl 0xd rd_shift)) in
  let m2 := Z.lor m2 (u32 (Z.shiftl 0xc wr_shift)) in
  let m3 := Z.lor m3 (u32 (Z.shiftl 0x8 rd_shift)) in
  let m3 := Z.lor m3 (u32 (Z.shiftl 0x8 wr_shift)) in
  Fmba m1 m2 m3 (flmstr4 fmba) (flmstr5 fmba).

(** What [unlock_descriptor] does to the master section: lines 851-860. *)
Definition unlock_fmba (g : globals) (fmba : fmba_t) : fmba_t :=
  if ge_version_2 (ifd_version g) then
    Fmba (Z.lor 0xffffff00 (Z.land (flmstr1 fmba) 0xff))
         (Z.lor 0xffffff00 (Z.land (flmstr2 fmba) 0xff))
         (Z.lor 0xffffff00 (Z.land (flmstr3 fmba) 0xff))
         (flmstr4 fmba) (flmstr5 fmba)
  else
    Fmba 0xffff0000 0xffff0000 0x08080118 (flmstr4 fmba) (flmstr5 fmba).

(** The master section both functions reach without testing the result of
    [find_fd]: a NULL there is dereferenced. *)
Definition locate_fmba (image : image_t) : res Z :=
  fdb ← find_fd image;
  match fdb with
  | None => Undefined
  | Some fdb =>
    flmap1 ← load32 image (fdbar_flmap1 fdb);
    Ok (u32 (Z.shiftl (Z.land flmap1 0xff) 4))
  end.

(** [lock_descriptor]: lines 803-844. *)
Definition lock_descriptor (e : env) (g : globals) (filename : string)
  (image : image_t) : M unit :=
  image' ← lift (off ← locate_fmba image;
                 fmba ← load_fmba image off;
                 store_fmba image off (lock_fmba g fmba));
  write_image e filename image' (image_size image).

(** [unlock_descriptor]: lines 846-863. *)
Definition unlock_descriptor (e : env) (g : globals) (filename : string)
  (image : image_t) : M unit :=
  image' ← lift (off ← locate_fmba image;
                 fmba ← load_fmba image off;
                 store_fmba image off (unlock_fmba g fmba));
  write_image e filename image' (image_size image).

(** ** Region injection *)

(** The region section both [inject_region] and [new_layout] locate. *)
Definition locate_frba (image : image_t) : res Z :=
  fdb ← find_fd image;
  match fdb with
  | None => Exit No_flash_descriptor
  | Some fdb =>
    flmap0 ← load32 image (fdbar_flmap0 fdb);
    Ok (u32 (Z.shiftl (Z.land (Z.shiftr flmap0 16) 0xff) 4))
  end.

(** [read(region_fd, dst, n)]: the bytes handed over. *)
Definition read_region_file (e : env) (n : Z) : list Z :=
  take (Z.to_nat (Z.min n (region_file_read e))) (region_file_data e).

(** [inject_region]: lines 865-931.  [isize] is the parameter [size]. *)
Definition inject_region (e : env) (g : globals) (filename : string)
  (image : image_t) (region_type : Z) : M unit :=
  let isize := image_size image in
  frba ← lift (off ← locate_frba image; load_frba image off);
  region ← lift (get_region g frba region_type);
  _ ← (if size region <=? 0xfff then
         _ ← lift (region_name g region_type); exit Region_disabled
       else mret tt);
  _ ← (if region_file_open e then mret tt else exit Could_not_open_file);
  st_size ← (match region_file_stat e with
             | Some n => mret n
             | None => exit Could_not_stat_file
             end);
  let region_size := s32 st_size in
  _ ← (if (region_size >? size region)
          || (negb (region_type =? 1)
              && (region_size >? size region)) then
         _ ← lift (region_name g region_type); exit File_too_large
       else mret tt);
  '(offset, image) ←
    (if (region_type =? 1) && (region_size <? size region) then
       _ ← lift (region_name g region_type);
       let offset := s32 (size region - region_size) in
       image' ← lift (memset image (base region) 0xff offset);
       mret (offset, image')
     else mret (0, image));
  _ ← (if isize <? s32 (base region + offset + region_size) then
         exit Output_too_small
       else mret tt);
  let data := read_region_file e region_size in
  _ ← (if Z.of_nat (length data) =? region_size then mret tt
       else exit Could_not_read_file);
  image ← lift (blit image (base region + offset) data);
  _ ← lift (region_name g region_type);
  write_image e filename image isize.

(** ** Layout mutation engine *)

(** [regions[i]] for the two local arrays of [new_layout]. *)
Definition region_at (regions : list region_t) (i : Z) : res region_t :=
  if i <? 0 then Undefined
  else match regions !! Z.to_nat i with
       | Some r => Ok r
       | None => Undefined
       end.

(** Lines 983-986: one [get_region] per slot. *)
Fixpoint load_regions (g : globals) (frba : frba_t) (idxs : list Z)
  : res (list region_t) :=
  match idxs with
  | [] => Ok []
  | i :: idxs' =>
    r ← get_region g frba i;
    rs ← load_regions g frba idxs';
    Ok (r :: rs)
  end.

(** Lines 1003-1022: one scanned line of the layout file. *)
Definition apply_layout_entry (g : globals) (new_regions : list region_t)
  (le : layout_entry) : res (list region_t) :=
  let region_number := region_num g (layout_region_name le) in
  if region_number <? 0 then Ok new_regions
  else
    match tstr1 le, tstr2 le with
    | Some v1, Some v2 =>
      let rbase := s32 v1 in
      let rlimit := s32 v2 in
      let rsize := s32 (rlimit - rbase + 1) in
      let rsize := if rsize <? 0 then 0 else rsize in
      Ok (<[Z.to_nat region_number :=
              {| base := rbase; limit := rlimit; size := rsize |}]>
            new_regions)
    | _, _ => Exit Could_not_parse_layout
    end.

(** Lines 996-1023. *)
Fixpoint read_layout (g : globals) (new_regions : list region_t)
  (entries : list layout_entry) : res (list region_t) :=
  match entries with
  | [] => Ok new_regions
  | le :: entries' =>
    new_regions' ← apply_layout_entry g new_regions le;
    read_layout g new_regions' entries'
  end.

(** Lines 1038-1043: the inner loop over [j]. *)
Fixpoint collide_loop (new_regions : list region_t) (ri : region_t)
  (js : list Z) : res unit :=
  match js with
  | [] => Ok tt
  | j :: js' =>
    rj ← region_at new_regions j;
    if negb (regions_collide ri rj =? 0) then Exit Regions_would_overlap
    else collide_loop new_regions ri js'
  end.

(** Lines 1027-1048: the check of the new layout; the result is
    [new_extent]. *)
Fixpoint check_layout (g : globals) (current_regions new_regions
  : list region_t) (idxs : list Z) (new_extent : Z) : res Z :=
  match idxs with
  | [] => Ok new_extent
  | i :: idxs' =>
    new_i ← region_at new_regions i;
    current_i ← region_at current_regions i;
    if size new_i =? 0 then
      check_layout g current_regions new_regions idxs' new_extent
    else
      _ ← (if size new_i <? size current_i then
             _ ← region_name g i; Ok tt
           else Ok tt);
      _ ← collide_loop new_regions new_i
            (seqZ (i + 1) (max_regions g - (i + 1)));
      let new_extent :=
        if new_extent <? limit new_i then limit new_i else new_extent in
      check_layout g current_regions new_regions idxs' new_extent
  end.

(** Where one round of the copy loop reads and writes: destination offset,
    source offset and byte count of its [memcpy] (lines 1061-1078). *)
Definition copy_plan (current new : region_t) : Z * Z * Z :=
  let copy_size := size new in
  let offset_current := 0 in
  let offset_new := 0 in
  let '(copy_size, offset_new) :=
    if size new >? size current then
      (size current, s32 (size new - size current))
    else (copy_size, offset_new) in
  let offset_current :=
    if size new <? size current then s32 (size current - size new)
    else offset_current in
  (base new + offset_new, base current + offset_current, copy_size).

(** Lines 1060-1090: one round of the copy loop. *)
Definition copy_region (g : globals) (image : image_t) (i : Z)
  (current new : region_t) (new_image : image_t) : res image_t :=
  if size new =? 0 then Ok new_image
  else
    let '(dst, src, copy_size) := copy_plan current new in
    _ ← region_name g i;
    memcpy new_image dst image src copy_size.

Fixpoint copy_regions (g : globals) (image : image_t)
  (current_regions new_regions : list region_t) (idxs : list Z)
  (new_image : image_t) : res image_t :=
  match idxs with
  | [] => Ok new_image
  | i :: idxs' =>
    current ← region_at current_regions i;
    new ← region_at new_regions i;
    new_image' ← copy_region g image i current new new_image;
    copy_regions g image current_regions new_regions idxs' new_image'
  end.

(** Lines 1098-1100. *)
Fixpoint set_regions (frba : frba_t) (new_regions : list region_t)
  (idxs : list Z) : res frba_t :=
  match idxs with
  | [] => Ok frba
  | i :: idxs' =>
    r ← region_at new_regions i;
    frba' ← set_region frba i r;
    set_regions frba' new_regions idxs'
  end.

(** Rounds granted to the loop of [next_pow2]: [y] is a 32-bit value that
    doubles, so the loop has left or cycles on 0 well before. *)
Definition next_pow2_rounds : nat := 64.

(** Lines 1050-1059: the new extent and the fresh buffer. *)
Definition new_buffer (new_extent : Z) : res (Z * image_t) :=
  match next_pow2 next_pow2_rounds (u32 (new_extent - 1)) with
  | None => Diverges
  | Some y =>
    let new_extent := s32 y in
    if new_extent <? 0 then Undefined
    else Ok (new_extent, replicate (Z.to_nat new_extent) 0xff)
  end.

(** [new_layout]: lines 963-1104. *)
Definition new_layout (e : env) (g : globals) (filename : string)
  (image : image_t) : M unit :=
  frba ← lift (off ← locate_frba image; load_frba image off);
  let idxs := seqZ 0 (max_regions g) in
  current_regions ← lift (load_regions g frba idxs);
  new_regions ← lift (load_regions g frba idxs);
  entries ← (match layout_file e with
             | Some entries => mret entries
             | None => exit Could_not_read_layout
             end);
  new_regions ← lift (read_layout g new_regions entries);
  new_extent ← lift (check_layout g current_regions new_regions idxs 0);
  '(new_extent, new_image) ← lift (new_buffer new_extent);
  new_image ← lift (copy_regions g image current_regions new_regions idxs
                      new_image);
  new_image ← lift (off ← locate_frba new_image;
                    frba ← load_frba new_image off;
                    frba' ← set_regions frba new_regions
                              (seqZ 1 (max_regions g - 1));
                    store_frba new_image off frba');
  write_image e filename new_image new_extent.

(** ** Vocabulary of the statements *)

(** Bits 7:0 of a master word. *)
Definition low_byte (w : Z) : Z := Z.land w 0xff.

(** Read bits 19:8 and write bits 31:20 of a version 2 master word. *)
Definition access_bits_set (w : Z) : Prop :=
  forall i, 8 <= i <= 31 -> Z.testbit w i = true.

(** A step that creates no file. *)
Definition quiet {A} (m : M A) : Prop := forall fs, snd (m fs) = fs.

(** An operation that creates one file when it returns, and none when it
    stops in any other way. *)
Definition writes_only_on_success (m : M unit) : Prop :=
  forall fs,
    match m fs with
    | (Ok _, fs') => exists name data, fs' = (name, data) :: fs
    | (_, fs') => fs' = fs
    end.

(** An operation that never returns. *)
Definition never_returns {A} (m : M A) : Prop :=
  forall fs, is_ok (fst (m fs)) = false.

(** Round [j] of the copy loop stores nothing in the bytes of [target]:
    the slot is skipped, or its [memcpy] is empty or lies outside. *)
Definition copy_spares (current_regions new_regions : list region_t)
  (target : region_t) (j : Z) : bool :=
  match region_at current_regions j, region_at new_regions j with
  | Ok current, Ok new =>
    let '(dst, _, copy_size) := copy_plan current new in
    (size new =? 0) || (copy_size =? 0)
    || (dst + copy_size <=? base target)
    || (base target + size target <=? dst)
  | _, _ => true
  end.

(** Every round but round [i] spares [target]. *)
Definition others_spare (current_regions new_regions : list region_t)
  (i : Z) (target : region_t) (idxs : list Z) : bool :=
  forallb (fun j => (j =? i) || copy_spares current_regions new_regions
                                  target j) idxs.

(** ** Sample images *)

(** A descriptor block of 4 KiB: signature at 0, component section at 0x30
    holding [flcomp], region section at 0x40 holding [flregs], master
    section at 0x60. *)
Definition descriptor_block (flcomp : Z) (flregs : list Z) : image_t :=
  bytes_of_u32 0x0FF0A55A ++ bytes_of_u32 0x00040003
  ++ bytes_of_u32 0x00000006 ++ replicate 36 0xff
  ++ bytes_of_u32 flcomp ++ replicate 12 0xff
  ++ mjoin (bytes_of_u32 <$> flregs)
  ++ replicate (0x1000 - 0x40 - 4 * length flregs) 0xff.

Definition sample_bios : list Z := (fun i => i mod 251) <$> seqZ 0 0x1000.

(** Version 1: descriptor at 0..0xFFF, BIOS at 0x1000..0x1FFF, the other
    slots unused. *)
Definition sample_v1 : image_t :=
  descriptor_block 0
    [0; 0x00010001; 0x00000fff; 0x00000fff; 0x00001fff;
     0xffffffff; 0xffffffff; 0xffffffff; 0xffffffff]
  ++ sample_bios.

(** Version 2, with the same two regions. *)
Definition sample_v2 : image_t :=
  descriptor_block 0
    [0; 0x00010001; 0x00007fff; 0x00007fff; 0x00007fff;
     0x00007fff; 0x00007fff; 0x00007fff; 0x00007fff]
  ++ sample_bios.

Definition g_v1 : globals :=
  {| ifd_version := IFD_VERSION_1; max_regions := MAX_REGIONS_OLD |}.

Definition g_v2 : globals :=
  {| ifd_version := IFD_VERSION_2; max_regions := MAX_REGIONS |}.

Definition sample_regions_v1 : list region_t :=
  [ {| base := 0; limit := 0xfff; size := 0x1000 |};
    {| base := 0x1000; limit := 0x1fff; size := 0x1000 |};
    {| base := 0xfff000; limit := 0xfff; size := 0 |};
    {| base := 0xfff000; limit := 0xfff; size := 0 |};
    {| base := 0xfff000; limit := 0xfff; size := 0 |} ].

(** A region file of 3000 bytes. *)
Definition sample_content : list Z :=
  (fun i => (7 * i) mod 256) <$> seqZ 0 3000.

(** A system where every call succeeds, with the given layout file. *)
Definition sample_env (layout : list layout_entry) : env :=
  {| region_file_open := true;
     region_file_stat := Some 3000;
     region_file_data := sample_content;
     region_file_read := 0x7fffffff;
     layout_file := Some layout;
     output_open := true;
     output_write := 0x7fffffff |}.

(** The base and limit masks of [get_region] as field widths: 12 bits for
    version 1, 15 bits for version 2. *)
Definition region_field_bits (g : globals) : Z :=
  if ge_version_2 (ifd_version g) then 15 else 12.

(** Two regions share a byte. *)
Definition regions_intersect (r1 r2 : region_t) : Prop :=
  base r1 <= limit r2 /\ base r2 <= limit r1.

(** [region_name_short]: lines 198-206. *)
Definition region_name_short (g : globals) (region_type : Z) : res string :=
  if (region_type <? 0) || (region_type >=? max_regions g) then
    Exit Invalid_region_type
  else
    match region_names !! Z.to_nat region_type with
    | Some names => Ok (snd names)
    | None => Undefined
    end.

(** [region_filename]: lines 222-242. *)
Definition region_filenames : list string :=
  [ "flashregion_0_flashdescriptor.bin";
    "flashregion_1_bios.bin";
    "flashregion_2_intel_me.bin";
    "flashregion_3_gbe.bin";
    "flashregion_4_platform_data.bin";
    "flashregion_5_reserved.bin";
    "flashregion_6_reserved.bin";
    "flashregion_7_reserved.bin";
    "flashregion_8_ec.bin" ]%string.

Definition region_filename (g : globals) (region_type : Z) : res string :=
  if (region_type <? 0) || (region_type >=? max_regions g) then
    Exit Invalid_region_type
  else
    match region_filenames !! Z.to_nat region_type with
    | Some name => Ok name
    | None => Undefined
    end.

(** How the entries of the region table hang together: [int] fields, and a
    size that is [limit - base + 1] computed in [int], or 0 where that is
    negative. *)
Definition region_ok (r : region_t) : Prop :=
  - 2 ^ 31 <= base r < 2 ^ 31 /\ - 2 ^ 31 <= limit r < 2 ^ 31 /\
  size r = Z.max 0 (s32 (limit r - base r + 1)).

(** [dump_region_layout]: lines 252-257.  The result is the three values
    [snprintf] formats with ["%08x:%08x %s\n"]; the two [int] are printed as
    [unsigned]. *)
Definition dump_region_layout (g : globals) (frba : frba_t) (num : Z)
  : res (Z * Z * string) :=
  region ← get_region g frba num;
  name ← region_name_short g num;
  Ok (u32 (base region), u32 (limit region), name).

(** The loop of [dump_frba_layout], lines 298-304: the lines in the order
    they are written. *)
Fixpoint dump_layout_lines (g : globals) (frba : frba_t) (idxs : list Z)
  : res (list (Z * Z * string)) :=
  match idxs with
  | [] => Ok []
  | i :: idxs' =>
    line ← dump_region_layout g frba i;
    lines ← dump_layout_lines g frba idxs';
    Ok (line :: lines)
  end.

(** What the scan of [new_layout] makes of a line so formatted: the name has
    no blank, the first token is two runs of eight hexadecimal digits around
    one colon, and [strtol] reads each run back as the number printed. *)
Definition scan_dumped_line (line : Z * Z * string) : layout_entry :=
  let '(rbase, rlimit, name) := line in
  {| tstr1 := Some rbase; tstr2 := Some rlimit; layout_region_name := name |}.

(** ** Region extraction *)

(** What the system answers while the regions are written out: whether the
    [open] of the file of slot [i] succeeds, and how many bytes its [write]
    takes at most. *)
Record extract_env : Type := Extract_env {
  extract_open : Z -> bool;
  extract_write : Z -> Z
}.

(** The bytes [image + base .. image + base + size) handed to [write]. *)
Definition region_bytes (image : image_t) (region : region_t) : list Z :=
  take (Z.to_nat (size region)) (drop (Z.to_nat (base region)) image).

(** Lines 671-681: the file of one region, once it is known to be
    enabled. *)
Definition write_region_file (xe : extract_env) (image : image_t)
  (region : region_t) (i : Z) (name : string) : M unit :=
  fun fs =>
    if extract_open xe i then
      if in_bounds image (base region) (size region) then
        let n := Z.min (size region) (extract_write xe i) in
        (Ok tt, (name, take (Z.to_nat n) (region_bytes image region)) :: fs)
      else (Undefined, (name, []) :: fs)
    else (Exit Could_not_open_output, fs).

(** One round of the loop of [write_regions], lines 667-683; [dump_region]
    decodes the slot again and asks for its name. *)
Definition write_region (xe : extract_env) (g : globals) (image : image_t)
  (frba : frba_t) (i : Z) : M unit :=
  region ← lift (get_region g frba i);
  _ ← lift (_ ← get_region g frba i; region_name g i);
  if size region >? 0 then
    name ← lift (region_filename g i);
    write_region_file xe image region i name
  else mret tt.

Fixpoint write_regions_loop (xe : extract_env) (g : globals)
  (image : image_t) (frba : frba_t) (idxs : list Z) : M unit :=
  match idxs with
  | [] => mret tt
  | i :: idxs' =>
    _ ← write_region xe g image frba i;
    write_regions_loop xe g image frba idxs'
  end.

(** [write_regions]: lines 656-684. *)
Definition write_regions (xe : extract_env) (g : globals) (image : image_t)
  : M unit :=
  frba ← lift (off ← locate_frba image; load_frba image off);
  write_regions_loop xe g image frba (seqZ 0 (max_regions g)).

(** The file [write_regions] creates for slot [i], if any. *)
Definition extracted_file (xe : extract_env) (g : globals) (image : image_t)
  (frba : frba_t) (i : Z) : option (string * list Z) :=
  match get_region g frba i, region_filename g i with
  | Ok region, Ok name =>
    if size region >? 0 then
      Some (name,
            take (Z.to_nat (Z.min (size region) (extract_write xe i)))
              (region_bytes image region))
    else None
  | _, _ => None
  end.

(** ** Component section *)

(** The [uint32_t] store at [image + p], little endian. *)
Definition store32 (image : image_t) (p v : Z) : res image_t :=
  blit image p (bytes_of_u32 v).

(** The component section [set_spi_frequency] and [set_em100_mode] reach
    without testing the result of [find_fd]: a NULL there is
    dereferenced. *)
Definition locate_fcba (image : image_t) : res Z :=
  fdb ← find_fd image;
  match fdb with
  | None => Undefined
  | Some fdb =>
    flmap0 ← load32 image (fdbar_flmap0 fdb);
    Ok (u32 (Z.shiftl (Z.land flmap0 0xff) 4))
  end.

(** Lines 716-723 on the value of [fcba->flcomp].  [~0x3fe00000] is an
    [int], converted to [uint32_t] for the conjunction; so is each shifted
    [freq]. *)
Definition spi_flcomp (freq flcomp : Z) : Z :=
  let flcomp := Z.land flcomp (u32 (Z.lnot 0x3fe00000)) in
  let flcomp := Z.lor flcomp (u32 (Z.shiftl freq 27)) in
  let flcomp := Z.lor flcomp (u32 (Z.shiftl freq 24)) in
  Z.lor flcomp (u32 (Z.shiftl freq 21)).

(** [set_spi_frequency]: lines 710-726. *)
Definition set_spi_frequency (e : env) (filename : string)
  (image : image_t) (freq : Z) : M unit :=
  image' ← lift (off ← locate_fcba image;
                 flcomp ← load32 image (fcba_flcomp off);
                 store32 image (fcba_flcomp off) (spi_flcomp freq flcomp));
  write_image e filename image' (image_size image).

Section Em100.

Variables SPI_FREQUENCY_20MHZ SPI_FREQUENCY_17MHZ : Z.

(** [set_em100_mode]: lines 728-748.  [set_spi_frequency] looks the
    component section up again, in the image as it then is. *)
Definition set_em100_mode (e : env) (g : globals) (filename : string)
  (image : image_t) : M unit :=
  let freq := match ifd_version g with
              | IFD_VERSION_1 => SPI_FREQUENCY_20MHZ
              | IFD_VERSION_2 => SPI_FREQUENCY_17MHZ
              end in
  image' ← lift (off ← locate_fcba image;
                 flcomp ← load32 image (fcba_flcomp off);
                 store32 image (fcba_flcomp off)
                   (Z.land flcomp (u32 (Z.lnot (Z.shiftl 1 30)))));
  set_spi_frequency e filename image' freq.

End Em100.

(** A version 1 image with BIOS at 0x1000..0x1FFF and ME at 0x2000..0x2FFF,
    both enabled. *)
Definition sample_me : list Z := (fun i => i mod 7 + 1) <$> seqZ 0 0x1000.

Definition sample_bios_me : image_t :=
  descriptor_block 0
    [0; 0x00010001; 0x00020002; 0x00000fff; 0x00000fff;
     0xffffffff; 0xffffffff; 0xffffffff; 0xffffffff]
  ++ sample_bios ++ sample_me.

(** * Properties *)

(** ** Machine integers *)

Section IntFacts.

Lemma u32_small x : 0 <= x < 2 ^ 32 -> u32 x = x.
Proof. intros H. unfold u32. now apply Z.mod_small. Qed.

Lemma s32_small x : - 2 ^ 31 <= x < 2 ^ 31 -> s32 x = x.
Proof. intros H. unfold s32. rewrite Z.mod_small; lia. Qed.

Lemma u32_range x : 0 <= u32 x < 2 ^ 32.
Proof. unfold u32. apply Z.mod_pos_bound. lia. Qed.

Lemma s32_range x : - 2 ^ 31 <= s32 x < 2 ^ 31.
Proof.
  unfold s32. pose proof (Z.mod_pos_bound (x + 2 ^ 31) (2 ^ 32)). lia.
Qed.

Lemma land_mask_range x m n :
  0 <= n -> 0 <= m < 2 ^ n -> 0 <= Z.land x m < 2 ^ n.
Proof.
  intros Hn Hm.
  assert (Hnn : 0 <= Z.land x m) by (apply Z.land_nonneg; lia).
  split; [exact Hnn|].
  destruct (Z.eq_dec (Z.land x m) 0) as [->|Hne]; [lia|].
  apply Z.log2_lt_pow2; [lia|].
  destruct (Z_lt_le_dec (Z.log2 (Z.land x m)) n) as [|Hge];
    [assumption|exfalso].
  pose proof (Z.bit_log2 (Z.land x m) ltac:(lia)) as Hbit.
  rewrite Z.land_spec in Hbit.
  apply andb_prop in Hbit as [_ Hbit].
  assert (Z.log2 m < n).
  { destruct (Z.eq_dec m 0) as [->|]; [now rewrite Z.land_0_r in Hne|].
    apply Z.log2_lt_pow2; lia. }
  rewrite Z.bits_above_log2 in Hbit; [discriminate | lia | lia].
Qed.

Lemma lor_range a b n :
  0 <= n -> 0 <= a < 2 ^ n -> 0 <= b < 2 ^ n -> 0 <= Z.lor a b < 2 ^ n.
Proof.
  intros Hn Ha Hb.
  assert (Hnn : 0 <= Z.lor a b) by (apply Z.lor_nonneg; lia).
  split; [exact Hnn|].
  destruct (Z.eq_dec (Z.lor a b) 0) as [->|Hne]; [lia|].
  apply Z.log2_lt_pow2; [lia|].
  rewrite Z.log2_lor by lia.
  apply Z.max_lub_lt.
  - destruct (Z.eq_dec a 0) as [->|]; [|apply Z.log2_lt_pow2; lia].
    simpl. destruct (Z.eq_dec n 0) as [->|]; [|lia].
    exfalso. apply Hne. replace b with 0 by lia. reflexivity.
  - destruct (Z.eq_dec b 0) as [->|]; [|apply Z.log2_lt_pow2; lia].
    simpl. destruct (Z.eq_dec n 0) as [->|]; [|lia].
    exfalso. apply Hne. replace a with 0 by lia. reflexivity.
Qed.

Lemma shiftl_range a k n :
  0 <= k -> 0 <= n -> 0 <= a < 2 ^ n -> 0 <= Z.shiftl a k < 2 ^ (n + k).
Proof.
  intros Hk Hn Ha. rewrite Z.shiftl_mul_pow2 by lia.
  rewrite Z.pow_add_r by lia.
  assert (0 < 2 ^ k) by (apply Z.pow_pos_nonneg; lia). nia.
Qed.

Lemma shiftr_range a k n :
  0 <= k <= n -> 0 <= a < 2 ^ n -> 0 <= Z.shiftr a k < 2 ^ (n - k).
Proof.
  intros Hk Ha. rewrite Z.shiftr_div_pow2 by lia.
  assert (0 < 2 ^ k) by (apply Z.pow_pos_nonneg; lia).
  split; [apply Z.div_pos; lia|].
  apply Z.div_lt_upper_bound; [lia|].
  rewrite <- Z.pow_add_r by lia. replace (k + (n - k)) with n by lia. lia.
Qed.

End IntFacts.

(** Bitwise equalities: compare bit by bit, splitting on the position. *)
Ltac bit_step :=
  rewrite ?Z.lor_spec, ?Z.land_spec;
  rewrite ?Z.shiftr_spec by lia;
  rewrite ?Z.shiftl_spec by lia;
  rewrite ?Z.testbit_ones by lia;
  rewrite ?Z.testbit_neg_r by lia;
  repeat match goal with
         | |- context [?a <? ?b] => destruct (Z.ltb_spec a b); try lia
         | |- context [?a <=? ?b] => destruct (Z.leb_spec a b); try lia
         end;
  rewrite ?andb_true_r, ?andb_false_r, ?orb_false_r, ?orb_true_r,
    ?andb_true_l, ?andb_false_l, ?orb_false_l, ?orb_true_l.

Ltac bit_blast :=
  apply Z.bits_inj'; intros ? ?;
  repeat (progress bit_step);
  try reflexivity; try (f_equal; lia).


(** ** The locator and the loads *)

Section Loads.

(** More rounds than [find_fd] grants change nothing: the scan has left. *)
Lemma find_fd_loop_stable rounds : forall image size i,
  0 <= i -> (Z.to_nat (size - i) <= rounds)%nat ->
  find_fd_loop (S rounds) image size i = find_fd_loop rounds image size i.
Proof.
  induction rounds as [|rounds IH]; intros image size i Hi Hr.
  - cbn [find_fd_loop]. destruct (Z.ltb_spec i (size - 4)); [lia|].
    reflexivity.
  - change (find_fd_loop (S (S rounds)) image size i)
      with (if i <? size - 4 then
              sig ← load32 image i;
              if sig =? 0x0FF0A55A then Ok (Some i)
              else find_fd_loop (S rounds) image size (i + 4)
            else Ok None).
    cbn [find_fd_loop].
    destruct (Z.ltb_spec i (size - 4)); [|reflexivity].
    destruct (load32 image i) as [sig| | |]; try reflexivity.
    cbn [mbind res_bind].
    destruct (sig =? 0x0FF0A55A); [reflexivity|].
    apply IH; lia.
Qed.

Lemma find_fd_rounds_enough image (extra : nat) :
  find_fd_loop (Z.to_nat (image_size image) + extra) image
    (image_size image) 0 = find_fd image.
Proof.
  unfold find_fd. induction extra as [|extra IH].
  - now rewrite Nat.add_0_r.
  - rewrite Nat.add_succ_r, find_fd_loop_stable by lia. exact IH.
Qed.

Lemma load8_range image p b :
  image_wf image = true -> load8 image p = Ok b -> 0 <= b < 2 ^ 8.
Proof.
  unfold image_wf, load8. intros Hwf H.
  destruct (0 <=? p); [|discriminate].
  destruct (image !! Z.to_nat p) as [b'|] eqn:Hb; [|discriminate].
  injection H as <-.
  rewrite forallb_forall in Hwf.
  apply list_elem_of_lookup_2, list_elem_of_In, Hwf in Hb.
  unfold is_byte in Hb. lia.
Qed.

Lemma load32_range image p v :
  image_wf image = true -> load32 image p = Ok v -> is_u32 v = true.
Proof.
  unfold load32. intros Hwf H.
  destruct (load8 image p) as [b0| | |] eqn:H0; try discriminate.
  destruct (load8 image (p + 1)) as [b1| | |] eqn:H1; try discriminate.
  destruct (load8 image (p + 2)) as [b2| | |] eqn:H2; try discriminate.
  destruct (load8 image (p + 3)) as [b3| | |] eqn:H3; try discriminate.
  cbn [mbind res_bind] in H. injection H as <-.
  pose proof (load8_range _ _ _ Hwf H0).
  pose proof (load8_range _ _ _ Hwf H1).
  pose proof (load8_range _ _ _ Hwf H2).
  pose proof (load8_range _ _ _ Hwf H3).
  unfold is_u32. lia.
Qed.

(** The region section of an image of bytes has 32-bit registers. *)
Lemma load_frba_wf image off frba :
  image_wf image = true -> load_frba image off = Ok frba ->
  frba_wf frba = true.
Proof.
  unfold load_frba. intros Hwf H.
  repeat match type of H with
         | mbind _ (load32 image ?p) = _ =>
           let Hp := fresh "Hp" in
           destruct (load32 image p) eqn:Hp; try discriminate;
           apply (load32_range _ _ _ Hwf) in Hp;
           cbn [mbind res_bind] in H
         end.
  injection H as <-. unfold frba_wf.
  cbn [forallb flreg0 flreg1 flreg2 flreg3 flreg4 flreg5 flreg6 flreg7
       flreg8].
  repeat (apply andb_true_intro; split; [assumption|]). reflexivity.
Qed.

End Loads.

(** ** C1: the overlap check *)

Section Collide.

Lemma regions_collide_zero_size r1 r2 :
  size r1 = 0 \/ size r2 = 0 -> regions_collide r1 r2 = 0.
Proof.
  intros [H | H]; unfold regions_collide; rewrite H; simpl.
  - reflexivity.
  - now rewrite orb_true_r.
Qed.

Lemma regions_collide_flag r1 r2 :
  regions_collide r1 r2 = 0 \/ regions_collide r1 r2 = 1.
Proof.
  unfold regions_collide.
  repeat match goal with |- context [if ?b then _ else _] => destruct b end;
    auto.
Qed.

(** C1.  [regions_collide] is not symmetric: a region that strictly contains
    the other one is reported as separate when it comes first and as
    overlapping when it comes second.  Here the first region is
    0x1000..0x4FFF and the second 0x2000..0x2FFF. *)
Theorem regions_collide_misses_containment :
  let outer := {| base := 0x1000; limit := 0x4fff; size := 0x4000 |} in
  let inner := {| base := 0x2000; limit := 0x2fff; size := 0x1000 |} in
  regions_collide outer inner = 0 /\ regions_collide inner outer = 1.
Proof. split; reflexivity. Qed.

End Collide.

(** ** C3: the power-of-two extent *)

Section NextPow2.

Lemma shiftl_1_pow2 k : 0 <= k -> Z.shiftl (2 ^ k) 1 = 2 ^ (k + 1).
Proof.
  intros Hk. rewrite Z.shiftl_mul_pow2 by lia.
  rewrite Z.pow_add_r by lia. reflexivity.
Qed.

Lemma pow2_lt_32 k : 0 <= k <= 31 -> 0 < 2 ^ k < 2 ^ 32.
Proof.
  intros Hk. split.
  - apply Z.pow_pos_nonneg; lia.
  - apply Z.pow_lt_mono_r; lia.
Qed.

(** From [y = 2^k], with [2^m <= x < 2^(m+1)], the loop leaves with
    [2^(m+1)] after [m + 1 - k] doublings. *)
Lemma next_pow2_loop_climbs (n : nat) : forall fuel x m k,
  0 <= k -> k + Z.of_nat n = m + 1 -> m <= 30 ->
  2 ^ m <= x < 2 ^ (m + 1) ->
  (n < fuel)%nat ->
  next_pow2_loop fuel x (2 ^ k) = Some (2 ^ (m + 1)).
Proof.
  induction n as [|n IH]; intros fuel x m k Hk Hkn Hm Hx Hfuel.
  - destruct fuel as [|fuel]; [lia|]. simpl.
    replace k with (m + 1) by lia.
    destruct (Z.leb_spec (2 ^ (m + 1)) x); [lia | reflexivity].
  - destruct fuel as [|fuel]; [lia|]. simpl.
    assert (2 ^ k <= 2 ^ m) by (apply Z.pow_le_mono_r; lia).
    destruct (Z.leb_spec (2 ^ k) x); [|lia].
    rewrite shiftl_1_pow2 by lia.
    rewrite u32_small by (pose proof (pow2_lt_32 (k + 1)); lia).
    apply IH; lia.
Qed.

Lemma next_pow2_loop_zero fuel x : 0 <= x -> next_pow2_loop fuel x 0 = None.
Proof.
  intros Hx. induction fuel as [|fuel IH]; [reflexivity|]. simpl.
  destruct (Z.leb_spec 0 x); [|lia]. exact IH.
Qed.

(** At or above [2^31] the doubling wraps to 0 before it passes [x]. *)
Lemma next_pow2_loop_wraps fuel : forall x k,
  0 <= k <= 31 -> 2 ^ 31 <= x ->
  next_pow2_loop fuel x (2 ^ k) = None.
Proof.
  induction fuel as [|fuel IH]; intros x k Hk Hx; [reflexivity|]. simpl.
  assert (2 ^ k <= 2 ^ 31) by (apply Z.pow_le_mono_r; lia).
  destruct (Z.leb_spec (2 ^ k) x); [|lia].
  rewrite shiftl_1_pow2 by lia.
  destruct (Z.eq_dec k 31) as [-> | Hne].
  - change (u32 (2 ^ (31 + 1))) with 0. apply next_pow2_loop_zero. lia.
  - rewrite u32_small by (pose proof (pow2_lt_32 (k + 1)); lia).
    apply IH; lia.
Qed.

Lemma next_pow2_small fuel x :
  (32 <= fuel)%nat -> 0 < x < 2 ^ 31 ->
  next_pow2 fuel x = Some (2 ^ (Z.log2 x + 1)).
Proof.
  intros Hfuel Hx. unfold next_pow2.
  destruct (Z.eqb_spec x 0); [lia|].
  pose proof (Z.log2_spec x ltac:(lia)) as Hlog.
  pose proof (Z.log2_nonneg x) as Hnn.
  assert (Z.log2 x <= 30).
  { enough (Z.log2 x < 31) by lia. apply Z.log2_lt_pow2; lia. }
  change 1 with (2 ^ 0) at 1.
  apply (next_pow2_loop_climbs (Z.to_nat (Z.log2 x + 1))); lia.
Qed.

Lemma next_pow2_large fuel x : 2 ^ 31 <= x -> next_pow2 fuel x = None.
Proof.
  intros Hx. unfold next_pow2.
  destruct (Z.eqb_spec x 0); [lia|].
  change 1 with (2 ^ 0). apply next_pow2_loop_wraps; lia.
Qed.

(** When the rounds of [new_buffer] run out, no number of rounds would do. *)
Lemma next_pow2_rounds_enough x :
  0 <= x ->
  next_pow2 next_pow2_rounds x = None -> forall fuel, next_pow2 fuel x = None.
Proof.
  intros Hx Hnone fuel.
  destruct (Z.eq_dec x 0) as [-> | Hne]; [discriminate Hnone|].
  destruct (Z_lt_le_dec x (2 ^ 31)) as [Hlt | Hge].
  - rewrite next_pow2_small in Hnone;
      [discriminate | unfold next_pow2_rounds; lia | lia].
  - now apply next_pow2_large.
Qed.

(** C3, as the code has it.  For [0 < x < 2^31], [next_pow2 x] returns a
    power of two that is strictly greater than [x] and is the least such;
    [next_pow2 0] returns 0.  32 rounds of the loop are enough. *)
Theorem next_pow2_least_power_above (fuel : nat) (x : Z)
  (Hfuel : (32 <= fuel)%nat) (Hx : 0 <= x < 2 ^ 31) :
  (x = 0 -> next_pow2 fuel x = Some 0) /\
  (0 < x ->
   exists k, 0 <= k /\ next_pow2 fuel x = Some (2 ^ k) /\ x < 2 ^ k /\
             forall j, 0 <= j -> x < 2 ^ j -> 2 ^ k <= 2 ^ j).
Proof.
  split.
  - intros ->. reflexivity.
  - intros Hpos. exists (Z.log2 x + 1).
    pose proof (Z.log2_spec x Hpos) as Hlog.
    pose proof (Z.log2_nonneg x) as Hnn.
    replace (Z.succ (Z.log2 x)) with (Z.log2 x + 1) in Hlog by lia.
    repeat split; [lia | apply next_pow2_small; lia | lia |].
    intros j Hj Hxj. apply Z.pow_le_mono_r; [lia|].
    enough (Z.log2 x < j) by lia.
    apply (Z.pow_lt_mono_r_iff 2); lia.
Qed.

(** The example of the specification: [next_pow2(0x00FFFFFF) = 0x01000000]. *)
Lemma next_pow2_least_power_above_witness :
  next_pow2 32 0x00FFFFFF = Some 0x01000000 /\
  exists k, 0 <= k /\ next_pow2 32 0x00FFFFFF = Some (2 ^ k) /\
            0x00FFFFFF < 2 ^ k /\
            forall j, 0 <= j -> 0x00FFFFFF < 2 ^ j -> 2 ^ k <= 2 ^ j.
Proof.
  split; [reflexivity|].
  apply (next_pow2_least_power_above 32 0x00FFFFFF); lia.
Defined.

(** C3 as stated fails at [x = 0x80000000], an [unsigned int] above 0: the
    loop never leaves, whatever the number of rounds. *)
Lemma next_pow2_never_returns_at_2_31 :
  0 < 0x80000000 < 2 ^ 32 /\
  ~ (exists fuel y, next_pow2 fuel 0x80000000 = Some y).
Proof.
  split; [lia|]. intros (fuel & y & H).
  rewrite next_pow2_large in H; [discriminate | lia].
Qed.

End NextPow2.

(** ** C7 and C2: the region codec *)

Section RegionCodec.

Lemma get_region_outside g frba i :
  ~ (0 <= i <= 8) -> get_region g frba i = Exit Invalid_region_type.
Proof.
  intros Hi. unfold get_region.
  destruct i as [|p|p]; [lia | | reflexivity].
  do 4 (try destruct p as [p|p|]); try reflexivity; lia.
Qed.

Lemma get_region_inside g frba i :
  0 <= i <= 8 -> exists r, get_region g frba i = Ok r.
Proof.
  intros Hi.
  assert (i = 0 \/ i = 1 \/ i = 2 \/ i = 3 \/ i = 4 \/ i = 5 \/ i = 6
          \/ i = 7 \/ i = 8) as Hcases by lia.
  decompose [or] Hcases; subst i; eexists; reflexivity.
Qed.

(** C7, as the code has it.  [get_region] ends in the invalid-region exit
    exactly when the index is outside 0..8, whatever the version; for every
    index in 0..8 it returns a region. *)
Theorem get_region_invalid_iff_outside_0_8 (g : globals) (frba : frba_t)
  (region_type : Z) :
  match get_region g frba region_type with
  | Ok _ => 0 <= region_type <= 8
  | Exit f => f = Invalid_region_type /\ ~ (0 <= region_type <= 8)
  | Undefined | Diverges => False
  end.
Proof.
  destruct (Z_le_dec 0 region_type) as [H0|H0];
    [destruct (Z_le_dec region_type 8) as [H8|H8]|].
  - destruct (get_region_inside g frba region_type) as [r ->]; lia.
  - rewrite get_region_outside by lia. split; [reflexivity | lia].
  - rewrite get_region_outside by lia. split; [reflexivity | lia].
Qed.

(** C7 as stated fails on a version 1 image at index 5, which is not below
    the region count 5: [get_region] returns the region of [flreg5]. *)
Lemma get_region_v1_index_5_returns :
  let g := {| ifd_version := IFD_VERSION_1; max_regions := MAX_REGIONS_OLD |} in
  (5 >=? max_regions g) = true /\
  get_region g (Frba 0 0 0 0 0 0x00020001 0 0 0) 5
  = Ok {| base := 0x1000; limit := 0x2fff; size := 0x2000 |}.
Proof. split; reflexivity. Qed.

(** What [get_region] reads for version 1 and [set_region] packs again: the
    register with its bits 15:12 and 31:28 cleared. *)
Lemma pack_get_region_v1 v sz :
  0 <= v < 2 ^ 32 ->
  pack_region
    {| base := s32 (u32 (Z.shiftl (Z.land v (u32 0xfff)) 12));
       limit := s32 (Z.lor (Z.shiftr
                  (Z.land v (u32 (s32 (Z.shiftl 0xfff 16)))) 4) 0xfff);
       size := sz |}
  = Z.land v 0x0fff0fff.
Proof.
  intros Hv. unfold pack_region. cbn [base limit].
  change (u32 0xfff) with 0xfff.
  change (u32 (s32 (Z.shiftl 0xfff 16))) with 0x0fff0000.
  pose proof (land_mask_range v 0xfff 12 ltac:(lia) ltac:(lia)) as Hlo.
  pose proof (land_mask_range v 0x0fff0000 28 ltac:(lia) ltac:(lia)) as Hhi.
  pose proof (shiftl_range _ 12 12 ltac:(lia) ltac:(lia) Hlo) as Hb.
  pose proof (shiftr_range _ 4 28 ltac:(lia) Hhi) as Hl.
  pose proof (lor_range _ 0xfff 24 ltac:(lia) Hl ltac:(lia)) as Hl'.
  simpl Z.add in Hb. simpl Z.sub in Hl, Hl'.
  rewrite (u32_small (Z.shiftl _ 12)) by lia.
  rewrite !s32_small by lia.
  set (hi := Z.land (Z.shiftr _ 12) 0x7fff).
  set (lo := Z.land (Z.shiftr _ 12) 0x7fff).
  pose proof (land_mask_range (Z.shiftr (Z.lor (Z.shiftr
    (Z.land v 0x0fff0000) 4) 0xfff) 12) 0x7fff 15 ltac:(lia) ltac:(lia)) as Hh.
  pose proof (land_mask_range (Z.shiftr (Z.shiftl (Z.land v 0xfff) 12) 12)
    0x7fff 15 ltac:(lia) ltac:(lia)) as Hlo'.
  fold hi in Hh. fold lo in Hlo'.
  pose proof (shiftl_range hi 16 15 ltac:(lia) ltac:(lia) Hh) as Hh'.
  simpl Z.add in Hh'.
  pose proof (lor_range (Z.shiftl hi 16) lo 31 ltac:(lia) Hh' ltac:(lia)).
  rewrite u32_small by lia.
  subst hi lo.
  change 0x0fff0000 with (Z.shiftl (Z.ones 12) 16).
  change 0xfff with (Z.ones 12).
  change 0x7fff with (Z.ones 15).
  change 0x0fff0fff with (Z.lor (Z.shiftl (Z.ones 12) 16) (Z.ones 12)).
  bit_blast.
Qed.

Lemma land_reserved_clear v :
  Z.land v 0xf000f000 = 0 -> 0 <= v < 2 ^ 32 -> Z.land v 0x0fff0fff = v.
Proof.
  intros Hres Hv.
  rewrite <- (Z.lor_0_r (Z.land v 0x0fff0fff)), <- Hres.
  rewrite <- Z.land_lor_distr_r.
  change (Z.lor 0x0fff0fff 0xf000f000) with (Z.ones 32).
  rewrite Z.land_ones by lia. apply Z.mod_small. lia.
Qed.

Lemma frba_wf_regs f :
  frba_wf f = true ->
  forall i v, flreg_of f i = Some v -> 0 <= v < 2 ^ 32.
Proof.
  unfold frba_wf, flreg_of. intros Hwf i v Hv.
  rewrite forallb_forall in Hwf.
  destruct (i <? 0); [discriminate|].
  apply list_elem_of_lookup_2, list_elem_of_In, Hwf in Hv.
  unfold is_u32 in Hv. lia.
Qed.

(** C2, as the code has it.  On a version 1 image and for an index 0 to 4,
    [get_region] followed by [set_region] writes back the register with its
    bits 15:12 and 31:28 cleared and leaves the other registers alone; the
    register is reproduced bit for bit when those four-bit fields were 0. *)
Theorem get_set_region_v1_masks_reserved_bits (g : globals) (frba : frba_t)
  (region_type : Z)
  (Hv1 : ifd_version g = IFD_VERSION_1)
  (Hwf : frba_wf frba = true)
  (Hi : 0 <= region_type <= 4) :
  exists v region frba',
    flreg_of frba region_type = Some v /\
    get_region g frba region_type = Ok region /\
    set_region frba region_type region = Ok frba' /\
    flreg_of frba' region_type = Some (Z.land v 0x0fff0fff) /\
    (forall j, j <> region_type -> flreg_of frba' j = flreg_of frba j) /\
    (Z.land v 0xf000f000 = 0 -> frba' = frba).
Proof.
  pose proof (frba_wf_regs frba Hwf) as Hregs.
  assert (region_type = 0 \/ region_type = 1 \/ region_type = 2
          \/ region_type = 3 \/ region_type = 4) as Hcases by lia.
  destruct frba as [r0 r1 r2 r3 r4 r5 r6 r7 r8].
  unfold get_region. rewrite Hv1. cbn [ge_version_2].
  decompose [or] Hcases; subst region_type;
    match goal with
    | |- context [flreg_of _ ?i = Some _] =>
      eexists _, _, _; split; [reflexivity|]; split; [reflexivity|];
      cbn [set_region];
      match goal with
      | |- context [pack_region ?r] =>
        match r with
        | context [Z.land ?v (u32 0xfff)] =>
          assert (Hp : pack_region r = Z.land v 0x0fff0fff)
            by (apply pack_get_region_v1; apply (Hregs i); reflexivity);
          assert (Hid : Z.land v 0xf000f000 = 0 -> Z.land v 0x0fff0fff = v)
            by (intros Hz; apply land_reserved_clear;
                [exact Hz | apply (Hregs i); reflexivity])
        end
      end;
      rewrite Hp;
      split; [reflexivity|]; split; [reflexivity|]; split;
      [ intros j Hj; unfold flreg_of; destruct (Z.ltb_spec j 0);
        [reflexivity|];
        destruct (Z.to_nat j) as [|[|[|[|[|n]]]]] eqn:Hn;
        try reflexivity; lia
      | intros Hz; rewrite (Hid Hz); reflexivity ]
    end.
Qed.

Lemma get_set_region_v1_masks_reserved_bits_witness :
  let g := {| ifd_version := IFD_VERSION_1; max_regions := MAX_REGIONS_OLD |} in
  let frba := Frba 0 0x00010001 0x00000fff 0x00000fff 0x00001fff 0 0 0 0 in
  exists v region frba',
    flreg_of frba 1 = Some v /\
    get_region g frba 1 = Ok region /\
    set_region frba 1 region = Ok frba' /\
    flreg_of frba' 1 = Some (Z.land v 0x0fff0fff) /\
    (forall j, j <> 1 -> flreg_of frba' j = flreg_of frba j) /\
    (Z.land v 0xf000f000 = 0 -> frba' = frba).
Proof.
  intros g frba.
  apply (get_set_region_v1_masks_reserved_bits g frba 1);
    [reflexivity | reflexivity | lia].
Defined.

(** C2 as stated fails on a version 1 region section whose register 4 is
    0x00001FFF (bit 12 set, as images mark an unused slot): the register
    written back is 0x00000FFF. *)
Lemma get_set_region_v1_changes_register :
  let g := {| ifd_version := IFD_VERSION_1; max_regions := MAX_REGIONS_OLD |} in
  let frba := Frba 0 0x00010001 0x00000fff 0x00000fff 0x00001fff 0 0 0 0 in
  let frba' := Frba 0 0x00010001 0x00000fff 0x00000fff 0x00000fff 0 0 0 0 in
  frba_wf frba = true /\
  (region ← get_region g frba 4; set_region frba 4 region) = Ok frba' /\
  frba' <> frba.
Proof.
  intros g frba frba'. split; [reflexivity|].
  split; [reflexivity | discriminate].
Qed.

End RegionCodec.

(** ** C6: version detection *)

Section VersionDetection.

Variables SPI_FREQUENCY_20MHZ SPI_FREQUENCY_17MHZ : Z.

(** The two enumerators label two cases of one [switch]. *)
Hypothesis enumerators_differ : SPI_FREQUENCY_20MHZ <> SPI_FREQUENCY_17MHZ.

(** C6.  [check_ifd_version] reads bits 19:17 of FLCOMP, found through the
    low byte of FLMAP0; the 20 MHz value gives version 1 with 5 regions, the
    17 MHz value version 2 with 9 regions, and any other value the
    unknown-version exit. *)
Theorem check_ifd_version_by_read_freq (image : image_t)
  (fdb flmap0 flcomp : Z)
  (Hfd : find_fd image = Ok (Some fdb))
  (Hmap : load32 image (fdbar_flmap0 fdb) = Ok flmap0)
  (Hcomp : load32 image (fcba_flcomp (u32 (Z.shiftl (Z.land flmap0 0xff) 4)))
           = Ok flcomp) :
  let read_freq := Z.land (Z.shiftr flcomp 17) 7 in
  let check := check_ifd_version SPI_FREQUENCY_20MHZ SPI_FREQUENCY_17MHZ
                 image in
  (forall k, 0 <= k ->
     Z.testbit read_freq k = Z.testbit flcomp (17 + k) && (k <? 3)) /\
  (read_freq = SPI_FREQUENCY_20MHZ ->
     check = Ok {| ifd_version := IFD_VERSION_1; max_regions := 5 |}) /\
  (read_freq = SPI_FREQUENCY_17MHZ ->
     check = Ok {| ifd_version := IFD_VERSION_2; max_regions := 9 |}) /\
  (read_freq <> SPI_FREQUENCY_20MHZ -> read_freq <> SPI_FREQUENCY_17MHZ ->
     check = Exit (Unknown_descriptor_version read_freq)).
Proof.
  intros read_freq check. subst check. unfold check_ifd_version.
  rewrite Hfd. cbn [mbind res_bind]. rewrite Hmap. cbn [mbind res_bind].
  rewrite Hcomp. cbn [mbind res_bind]. fold read_freq.
  split; [|split; [|split]].
  - intros k Hk. subst read_freq. change 7 with (Z.ones 3).
    rewrite Z.land_spec, Z.shiftr_spec, Z.testbit_ones by lia.
    rewrite (Z.add_comm k 17).
    destruct (Z.leb_spec 0 k); [reflexivity | lia].
  - intros ->. rewrite Z.eqb_refl. reflexivity.
  - intros ->. destruct (Z.eqb_spec SPI_FREQUENCY_17MHZ SPI_FREQUENCY_20MHZ);
      [congruence|].
    rewrite Z.eqb_refl. reflexivity.
  - intros H20 H17.
    destruct (Z.eqb_spec read_freq SPI_FREQUENCY_20MHZ); [contradiction|].
    destruct (Z.eqb_spec read_freq SPI_FREQUENCY_17MHZ); [contradiction|].
    reflexivity.
Qed.

End VersionDetection.

(** With 0 and 6 for the two enumerators: bits 19:17 of 0x000C0000 are 6, the
    image is version 2; of 0x00040000 they are 2, the version is unknown. *)
Lemma check_ifd_version_by_read_freq_witness :
  check_ifd_version 0 6 (descriptor_block 0x000C0000 [])
  = Ok {| ifd_version := IFD_VERSION_2; max_regions := 9 |} /\
  check_ifd_version 0 6 (descriptor_block 0x00040000 [])
  = Exit (Unknown_descriptor_version 2).
Proof.
  split.
  - apply (check_ifd_version_by_read_freq 0 6 ltac:(lia)
             (descriptor_block 0x000C0000 []) 0 0x00040003 0x000C0000);
      reflexivity.
  - apply (check_ifd_version_by_read_freq 0 6 ltac:(lia)
             (descriptor_block 0x00040000 []) 0 0x00040003 0x00040000);
      [reflexivity | reflexivity | reflexivity | vm_compute; lia
      | vm_compute; lia].
Defined.

(** ** C9: lock then unlock *)

Section LockUnlock.

Lemma unlocked_word_access_bits w :
  access_bits_set (Z.lor 0xffffff00 (Z.land w 0xff)).
Proof.
  intros i Hi. rewrite Z.lor_spec.
  change 0xffffff00 with (Z.shiftl (Z.ones 24) 8).
  rewrite Z.shiftl_spec, Z.testbit_ones by lia.
  destruct (Z.leb_spec 0 (i - 8)); [|lia].
  destruct (Z.ltb_spec (i - 8) 24); [reflexivity | lia].
Qed.

Lemma unlocked_word_low_byte w :
  low_byte (Z.lor 0xffffff00 (Z.land w 0xff)) = low_byte w.
Proof.
  unfold low_byte. rewrite Z.land_lor_distr_l, <- Z.land_assoc.
  reflexivity.
Qed.

(** The permission bits [lock_descriptor] sets for version 2 lie above the
    low byte. *)
Lemma locked_word_low_byte w rd wr :
  low_byte rd = 0 -> low_byte wr = 0 ->
  low_byte (Z.lor (Z.lor (Z.land w 0xff) rd) wr) = low_byte w.
Proof.
  unfold low_byte. intros Hrd Hwr.
  rewrite !Z.land_lor_distr_l, Hrd, Hwr, !Z.lor_0_r, <- Z.land_assoc.
  reflexivity.
Qed.

Lemma lock_unlock_v2_words g fmba :
  ifd_version g = IFD_VERSION_2 ->
  let after := unlock_fmba g (lock_fmba g fmba) in
  (access_bits_set (flmstr1 after) /\
   low_byte (flmstr1 after) = low_byte (flmstr1 fmba)) /\
  (access_bits_set (flmstr2 after) /\
   low_byte (flmstr2 after) = low_byte (flmstr2 fmba)) /\
  (access_bits_set (flmstr3 after) /\
   low_byte (flmstr3 after) = low_byte (flmstr3 fmba)) /\
  flmstr4 after = flmstr4 fmba /\ flmstr5 after = flmstr5 fmba.
Proof.
  intros Hv2 after. subst after. unfold unlock_fmba, lock_fmba.
  rewrite Hv2. cbn [ge_version_2 flmstr1 flmstr2 flmstr3 flmstr4 flmstr5].
  repeat split; try apply unlocked_word_access_bits;
    rewrite unlocked_word_low_byte; apply locked_word_low_byte; reflexivity.
Qed.

(** C9, as the code has it.  On a version 2 image, lock then unlock leaves
    the three master words both functions write (host CPU/BIOS, ME, GbE)
    with all read bits 19:8 and write bits 31:20 set, and with the low byte
    they had before the lock. *)
Theorem lock_unlock_v2_enables_and_keeps_low_byte (g : globals)
  (fmba : fmba_t) (Hv2 : ifd_version g = IFD_VERSION_2) :
  let after := unlock_fmba g (lock_fmba g fmba) in
  Forall (fun ws => access_bits_set (fst ws) /\
                    low_byte (fst ws) = low_byte (snd ws))
    [ (flmstr1 after, flmstr1 fmba);
      (flmstr2 after, flmstr2 fmba);
      (flmstr3 after, flmstr3 fmba) ].
Proof.
  intros after.
  destruct (lock_unlock_v2_words g fmba Hv2) as (H1 & H2 & H3 & _).
  repeat constructor; cbn [fst snd]; first [apply H1 | apply H2 | apply H3].
Qed.

Lemma lock_unlock_v2_enables_and_keeps_low_byte_witness :
  let g := {| ifd_version := IFD_VERSION_2; max_regions := MAX_REGIONS |} in
  let fmba := Fmba 0x00a00b5a 0x00c00d00 0x00800817 0 0x00000000 in
  let after := unlock_fmba g (lock_fmba g fmba) in
  after = Fmba 0xffffff5a 0xffffff00 0xffffff17 0 0 /\
  Forall (fun ws => access_bits_set (fst ws) /\
                    low_byte (fst ws) = low_byte (snd ws))
    [ (flmstr1 after, flmstr1 fmba);
      (flmstr2 after, flmstr2 fmba);
      (flmstr3 after, flmstr3 fmba) ].
Proof.
  intros g fmba after. split; [reflexivity|].
  apply (lock_unlock_v2_enables_and_keeps_low_byte g fmba).
  reflexivity.
Defined.

(** C9 as stated fails twice.  The EC master word [flmstr5], which a version
    2 image has, is written by neither function: from 0 it stays 0, with no
    access bit set.  And no starting state loses its low byte: in each of
    the five words it is the same after lock then unlock. *)
Lemma lock_unlock_v2_skips_ec_and_keeps_low_byte :
  let g := {| ifd_version := IFD_VERSION_2; max_regions := MAX_REGIONS |} in
  flmstr5 (unlock_fmba g (lock_fmba g (Fmba 0 0 0 0 0))) = 0 /\
  Z.testbit 0 8 = false /\
  ~ (exists fmba,
       let after := unlock_fmba g (lock_fmba g fmba) in
       low_byte (flmstr1 after) <> low_byte (flmstr1 fmba) \/
       low_byte (flmstr2 after) <> low_byte (flmstr2 fmba) \/
       low_byte (flmstr3 after) <> low_byte (flmstr3 fmba) \/
       low_byte (flmstr4 after) <> low_byte (flmstr4 fmba) \/
       low_byte (flmstr5 after) <> low_byte (flmstr5 fmba)).
Proof.
  intros g. split; [reflexivity|]. split; [reflexivity|].
  intros [fmba H].
  destruct (lock_unlock_v2_words g fmba eq_refl)
    as ((_ & H1) & (_ & H2) & (_ & H3) & H4 & H5).
  cbv zeta in H. rewrite H4, H5 in H.
  decompose [or] H; congruence.
Qed.

End LockUnlock.

(** ** C10 and C5: what reaches [write_image] *)

Section Persistence.

Lemma quiet_lift {A} (r : res A) : quiet (lift r).
Proof. intros fs. reflexivity. Qed.

Lemma quiet_exit {A} f : quiet (exit (A := A) f).
Proof. intros fs. reflexivity. Qed.

Lemma quiet_ret {A} (a : A) : quiet (mret a).
Proof. intros fs. reflexivity. Qed.

Lemma quiet_bind {A B} (m : M A) (k : A -> M B) :
  quiet m -> (forall a, quiet (k a)) -> quiet (m ≫= k).
Proof.
  intros Hm Hk fs. unfold mbind, M_bind.
  specialize (Hm fs). destruct (m fs) as [[a | f | | ] fs']; simpl in *;
    subst; auto. apply Hk.
Qed.

Lemma writes_only_on_success_bind {A} (m : M A) (k : A -> M unit) :
  quiet m -> (forall a, writes_only_on_success (k a)) ->
  writes_only_on_success (m ≫= k).
Proof.
  intros Hm Hk fs. unfold mbind, M_bind.
  specialize (Hm fs). destruct (m fs) as [[a | f | | ] fs']; simpl in *;
    subst; auto. apply Hk.
Qed.

Lemma write_image_only_on_success e filename image size :
  writes_only_on_success (write_image e filename image size).
Proof.
  intros fs. unfold write_image. destruct (output_open e); eauto.
Qed.

Ltac quiet_step :=
  first [ apply quiet_lift | apply quiet_exit | apply quiet_ret
        | apply quiet_bind; [|intros ?]
        | match goal with
          | |- quiet (if ?c then _ else _) => destruct c
          | |- quiet (match ?x with _ => _ end) => destruct x
          end ].

Ltac persist_step :=
  first [ apply write_image_only_on_success
        | apply writes_only_on_success_bind; [repeat quiet_step | intros ?]
        | match goal with
          | |- writes_only_on_success (let '(_, _) := ?x in _) => destruct x
          end ].

Lemma new_layout_only_on_success e g filename image :
  writes_only_on_success (new_layout e g filename image).
Proof. unfold new_layout. repeat persist_step. Qed.

Lemma inject_region_only_on_success e g filename image region_type :
  writes_only_on_success (inject_region e g filename image region_type).
Proof. unfold inject_region. repeat persist_step. Qed.

(** C10.  [new_layout] and [inject_region] create the output file only when
    they run to their end: after a run that stops in [exit(EXIT_FAILURE)],
    or in any other way short of returning, the files are as before, and
    after a run that returns exactly one file has been created. *)
Theorem fatal_error_writes_no_image (e : env) (g : globals)
  (filename : string) (image : image_t) (region_type : Z) (fs : files) :
  match new_layout e g filename image fs with
  | (Ok _, fs') => exists name data, fs' = (name, data) :: fs
  | (_, fs') => fs' = fs
  end /\
  match inject_region e g filename image region_type fs with
  | (Ok _, fs') => exists name data, fs' = (name, data) :: fs
  | (_, fs') => fs' = fs
  end.
Proof.
  split.
  - apply new_layout_only_on_success.
  - apply inject_region_only_on_success.
Qed.

Lemma never_returns_bind_l {A B} (m : M A) (k : A -> M B) :
  never_returns m -> never_returns (m ≫= k).
Proof.
  intros Hm fs. unfold mbind, M_bind. specialize (Hm fs).
  destruct (m fs) as [[a | f | | ] fs']; simpl in *; congruence.
Qed.

Lemma never_returns_bind_r {A B} (m : M A) (k : A -> M B) :
  (forall a, never_returns (k a)) -> never_returns (m ≫= k).
Proof.
  intros Hk fs. unfold mbind, M_bind.
  destruct (m fs) as [[a | f | | ] fs']; simpl; try reflexivity. apply Hk.
Qed.

Lemma never_returns_lift {A} (r : res A) :
  is_ok r = false -> never_returns (lift r).
Proof. intros Hr fs. exact Hr. Qed.

Lemma res_bind_not_ok_l {A B} (r : res A) (k : A -> res B) :
  is_ok r = false -> is_ok (r ≫= k) = false.
Proof. destruct r; simpl; congruence. Qed.

Lemma res_bind_not_ok_r {A B} (r : res A) (k : A -> res B) :
  (forall a, is_ok (k a) = false) -> is_ok (r ≫= k) = false.
Proof. intros Hk. destruct r; simpl; auto. Qed.

(** [set_region] has no case for the slots 5 to 8. *)
Lemma set_region_5 frba region :
  set_region frba 5 region = Exit Invalid_region_type.
Proof. destruct frba. reflexivity. Qed.

(** The re-encode loop of a version 2 image stops at slot 5. *)
Lemma set_regions_v2 frba new_regions :
  match set_regions frba new_regions (seqZ 1 (MAX_REGIONS - 1)) with
  | Exit f => f = Invalid_region_type
  | Undefined => (length new_regions <= 5)%nat
  | Ok _ | Diverges => False
  end.
Proof.
  change (seqZ 1 (MAX_REGIONS - 1)) with [1; 2; 3; 4; 5; 6; 7; 8].
  destruct new_regions as [|n0 [|n1 [|n2 [|n3 [|n4 [|n5 rest]]]]]];
    destruct frba; vm_compute; try lia; reflexivity.
Qed.

Lemma set_regions_v2_not_ok frba new_regions :
  is_ok (set_regions frba new_regions (seqZ 1 (MAX_REGIONS - 1))) = false.
Proof.
  pose proof (set_regions_v2 frba new_regions) as H.
  destruct (set_regions _ _ _); [contradiction | | | ]; reflexivity.
Qed.

Lemma new_layout_v2_never_returns e filename image :
  never_returns
    (new_layout e {| ifd_version := IFD_VERSION_2; max_regions := MAX_REGIONS |}
       filename image).
Proof.
  unfold new_layout. cbn [max_regions].
  do 7 (apply never_returns_bind_r; intros ?).
  match goal with
  | |- never_returns (let '(_, _) := ?x in _) => destruct x
  end.
  apply never_returns_bind_r; intros ?.
  apply never_returns_bind_l, never_returns_lift.
  do 2 (apply res_bind_not_ok_r; intros ?).
  apply res_bind_not_ok_l, set_regions_v2_not_ok.
Qed.

(** C5.  On a version 2 image (9 regions) [new_layout] never returns and
    creates no file: whatever the image, the layout file and the answers of
    the system, the run stops before [write_image].  A run that gets as far
    as the re-encode loop over the slots 1 to 8 stops there, in the
    invalid-region exit that [set_region] takes for slot 5. *)
Theorem new_layout_v2_never_completes (e : env) (filename : string)
  (image : image_t) (fs : files) :
  let g := {| ifd_version := IFD_VERSION_2; max_regions := MAX_REGIONS |} in
  is_ok (fst (new_layout e g filename image fs)) = false /\
  snd (new_layout e g filename image fs) = fs /\
  (forall frba region, set_region frba 5 region = Exit Invalid_region_type) /\
  (forall frba new_regions,
     match set_regions frba new_regions (seqZ 1 (max_regions g - 1)) with
     | Exit f => f = Invalid_region_type
     | Undefined => (length new_regions <= 5)%nat
     | Ok _ | Diverges => False
     end).
Proof.
  intros g.
  pose proof (new_layout_v2_never_returns e filename image fs) as Hnever.
  pose proof (new_layout_only_on_success e g filename image fs) as Hfiles.
  fold g in Hnever.
  destruct (new_layout e g filename image fs) as [[[] | f | | ] fs'];
    simpl in *; try discriminate;
    (split; [reflexivity|]; split; [exact Hfiles|]; split;
     [apply set_region_5 | apply set_regions_v2]).
Qed.

End Persistence.

(** ** The buffer primitives *)

Section Blit.

Lemma in_bounds_spec image p n :
  in_bounds image p n = true <-> 0 <= p /\ 0 <= n /\ p + n <= image_size image.
Proof. unfold in_bounds. rewrite !andb_true_iff, !Z.leb_le. tauto. Qed.

Lemma blit_ok image p data :
  0 <= p -> p + Z.of_nat (length data) <= image_size image ->
  blit image p data
  = Ok (take (Z.to_nat p) image ++ data
          ++ drop (Z.to_nat p + length data) image).
Proof.
  intros Hp Hfit. unfold blit.
  destruct (in_bounds image p _) eqn:Hb; [reflexivity|].
  apply not_true_iff_false in Hb. exfalso. apply Hb.
  apply in_bounds_spec. lia.
Qed.

Lemma blit_inv image p data image' :
  blit image p data = Ok image' ->
  0 <= p /\ p + Z.of_nat (length data) <= image_size image /\
  image' = take (Z.to_nat p) image ++ data
             ++ drop (Z.to_nat p + length data) image.
Proof.
  unfold blit. destruct (in_bounds image p _) eqn:Hb; [|discriminate].
  apply in_bounds_spec in Hb. intros [= <-]. repeat split; lia.
Qed.

Lemma blit_length image p data image' :
  blit image p data = Ok image' -> length image' = length image.
Proof.
  intros H. apply blit_inv in H as (Hp & Hfit & ->).
  unfold image_size in Hfit.
  rewrite !length_app, length_take, length_drop. lia.
Qed.

Lemma blit_lookup_inside image p data image' (k : nat) :
  blit image p data = Ok image' -> (k < length data)%nat ->
  image' !! (Z.to_nat p + k)%nat = data !! k.
Proof.
  intros H Hk. apply blit_inv in H as (Hp & Hfit & ->).
  unfold image_size in Hfit.
  rewrite lookup_app_r by (rewrite length_take; lia).
  rewrite length_take.
  replace (Z.to_nat p + k - Z.to_nat p `min` length image)%nat with k by lia.
  apply lookup_app_l. exact Hk.
Qed.

Lemma blit_lookup_outside image p data image' (q : nat) :
  blit image p data = Ok image' ->
  (q < Z.to_nat p \/ Z.to_nat p + length data <= q)%nat ->
  image' !! q = image !! q.
Proof.
  intros H Hq. apply blit_inv in H as (Hp & Hfit & ->).
  unfold image_size in Hfit.
  destruct Hq as [Hq | Hq].
  - rewrite lookup_app_l by (rewrite length_take; lia).
    apply lookup_take_lt. exact Hq.
  - rewrite lookup_app_r by (rewrite length_take; lia).
    rewrite length_take.
    rewrite lookup_app_r by lia.
    rewrite lookup_drop. f_equal. lia.
Qed.

End Blit.

(** ** C8: injection with front padding *)

Section Injection.

(** What every decoded region looks like. *)
Lemma get_region_shape g frba i r :
  get_region g frba i = Ok r ->
  0 <= base r < 2 ^ 27 /\ 0 <= limit r < 2 ^ 27 /\
  0 <= size r < 2 ^ 27 + 1 /\
  (0 < size r -> size r = limit r - base r + 1).
Proof.
  unfold get_region. intros H.
  match type of H with
  | mbind _ ?sel = _ => destruct sel as [v | | | ]; try discriminate
  end.
  cbn [mbind res_bind] in H.
  set (base_mask := if ge_version_2 (ifd_version g) then 32767 else 4095) in H.
  assert (Hmask : base_mask = 0x7fff \/ base_mask = 0xfff)
    by (subst base_mask; destruct (ge_version_2 _); auto).
  assert (Hb : 0 <= s32 (u32 (Z.shiftl (Z.land v (u32 base_mask)) 12))
               < 2 ^ 27).
  { assert (0 <= Z.land v (u32 base_mask) < 2 ^ 15) as Hl
      by (apply land_mask_range; [lia|];
          destruct Hmask as [-> | ->]; vm_compute; split; congruence).
    pose proof (shiftl_range _ 12 15 ltac:(lia) ltac:(lia) Hl) as Hs.
    simpl Z.add in Hs. rewrite u32_small, s32_small; lia. }
  assert (Hl : 0 <= s32 (Z.lor (Z.shiftr
                 (Z.land v (u32 (s32 (Z.shiftl base_mask 16)))) 4) 0xfff)
               < 2 ^ 27).
  { assert (0 <= Z.land v (u32 (s32 (Z.shiftl base_mask 16))) < 2 ^ 31) as H1
      by (apply land_mask_range; [lia|];
          destruct Hmask as [-> | ->]; vm_compute; split; congruence).
    pose proof (shiftr_range _ 4 31 ltac:(lia) H1) as H2.
    simpl Z.sub in H2.
    pose proof (lor_range _ 0xfff 27 ltac:(lia) H2 ltac:(lia)) as H3.
    rewrite s32_small; lia. }
  injection H as <-. cbn [base limit size].
  set (b := s32 (u32 _)) in *. set (l := s32 (Z.lor _ _)) in *.
  rewrite (s32_small (l - b + 1)) by lia.
  destruct (Z.ltb_spec (l - b + 1) 0); repeat split; lia.
Qed.

Lemma bind_lift_ok {A B} (a : A) (k : A -> M B) fs :
  (lift (Ok a) ≫= k) fs = k a fs.
Proof. reflexivity. Qed.

Lemma bind_ret {A B} (a : A) (k : A -> M B) fs :
  (mret a ≫= k) fs = k a fs.
Proof. reflexivity. Qed.

Lemma region_name_bios g :
  1 < max_regions g -> region_name g 1 = Ok "BIOS"%string.
Proof.
  intros H. unfold region_name.
  destruct (Z.ltb_spec 1 0); [lia|].
  destruct (Z.geb_spec 1 (max_regions g)); [lia|]. reflexivity.
Qed.

(** C8.  Injecting into the BIOS region (index 1) a file strictly smaller
    than the region, when the region is enabled, lies inside the image and
    the system calls succeed: the image written has [region.size -
    content.size] bytes of 0xFF from [region.base], then the content, which
    so ends on [region.limit]; the bytes outside the region are those of the
    old image. *)
Theorem inject_smaller_bios_pads_front (e : env) (g : globals)
  (filename : string) (image : image_t) (fs : files)
  (frba : frba_t) (region : region_t) (content : list Z)
  (Hfrba : (off ← locate_frba image; load_frba image off) = Ok frba)
  (Hregion : get_region g frba 1 = Ok region)
  (Hbios : 1 < max_regions g)
  (Henabled : 0xfff < size region)
  (Hopen : region_file_open e = true)
  (Hstat : region_file_stat e = Some (Z.of_nat (length content)))
  (Hdata : region_file_data e = content)
  (Hread : Z.of_nat (length content) <= region_file_read e)
  (Hsmaller : Z.of_nat (length content) < size region)
  (Hfits : limit region < image_size image)
  (Hout : output_open e = true) :
  let offset := size region - Z.of_nat (length content) in
  let image' :=
    take (Z.to_nat (base region)) image
    ++ replicate (Z.to_nat offset) 0xff
    ++ content
    ++ drop (Z.to_nat (limit region + 1)) image in
  inject_region e g filename image 1 fs
  = (Ok tt,
     ((filename ++ ".new")%string,
      take (Z.to_nat (Z.min (image_size image) (output_write e))) image')
       :: fs) /\
  length image' = length image /\
  base region + offset + Z.of_nat (length content) - 1 = limit region.
Proof.
  intros offset image'.
  destruct (get_region_shape _ _ _ _ Hregion) as (Hb & Hl & Hs & Hsize).
  specialize (Hsize ltac:(lia)).
  assert (Hlen : length image' = length image).
  { subst image'. unfold image_size in Hfits.
    rewrite !length_app, length_take, length_replicate, length_drop. lia. }
  split; [|split; [exact Hlen | lia]].
  unfold inject_region.
  rewrite Hfrba, bind_lift_ok, Hregion, bind_lift_ok.
  destruct (Z.leb_spec (size region) 0xfff); [lia|]. rewrite bind_ret.
  rewrite Hopen, bind_ret, Hstat, bind_ret.
  rewrite (s32_small (Z.of_nat (length content))) by lia.
  destruct (Z.gtb_spec (Z.of_nat (length content)) (size region)); [lia|].
  cbn [orb andb negb Z.eqb Pos.eqb]. rewrite bind_ret.
  destruct (Z.ltb_spec (Z.of_nat (length content)) (size region)); [|lia].
  rewrite region_name_bios by exact Hbios.
  fold offset. rewrite (s32_small offset) by lia.
  unfold memset.
  destruct (Z.eqb_spec offset 0); [lia|].
  destruct (Z.leb_spec 0 offset); [|lia].
  rewrite blit_ok by (rewrite ?length_replicate; lia).
  rewrite length_replicate.
  cbv beta iota delta [mbind M_bind lift mret M_ret].
  rewrite (s32_small (base region + offset + _)) by lia.
  destruct (Z.ltb_spec (image_size image)
              (base region + offset + Z.of_nat (length content))); [lia|].
  assert (Hfile : read_region_file e (Z.of_nat (length content)) = content).
  { unfold read_region_file. rewrite Hdata, Z.min_l by lia.
    apply take_ge. lia. }
  rewrite Hfile, Z.eqb_refl.
  unfold image_size in Hfits.
  rewrite blit_ok.
  2: lia.
  2: { unfold image_size.
       rewrite !length_app, length_take, length_replicate, length_drop. lia. }
  unfold write_image. rewrite Hout.
  do 3 f_equal.
  subst image'.
  set (A := take (Z.to_nat (base region)) image).
  set (B := replicate (Z.to_nat offset) 255).
  assert (HAB : length (A ++ B) = Z.to_nat (base region + offset)).
  { subst A B. rewrite length_app, length_take, length_replicate. lia. }
  rewrite (app_assoc A B (drop _ image)).
  rewrite (take_app_length' (A ++ B)) by (symmetry; exact HAB).
  rewrite (drop_app_add' (A ++ B)) by (symmetry; exact HAB).
  rewrite drop_drop, <- app_assoc.
  replace (Z.to_nat (limit region + 1))
    with (Z.to_nat (base region) + Z.to_nat offset + length content)%nat
    by lia.
  reflexivity.
Qed.

End Injection.

(** ** The copy loop of [new_layout] *)

Section Growth.

Lemma memcpy_inv dst d src s n dst' :
  memcpy dst d src s n = Ok dst' ->
  (n = 0 /\ dst' = dst) \/
  (0 < n /\ 0 <= s /\ s + n <= image_size src /\
   blit dst d (take (Z.to_nat n) (drop (Z.to_nat s) src)) = Ok dst').
Proof.
  unfold memcpy. destruct (Z.eqb_spec n 0) as [-> | Hn].
  - intros [= <-]. now left.
  - destruct (in_bounds src s n) eqn:Hb; [|discriminate].
    apply in_bounds_spec in Hb. intros H. right. repeat split; try lia.
    exact H.
Qed.

Lemma length_take_drop (src : image_t) s n :
  0 <= s -> 0 <= n -> s + n <= image_size src ->
  length (take (Z.to_nat n) (drop (Z.to_nat s) src)) = Z.to_nat n.
Proof.
  unfold image_size. intros Hs Hn Hfit.
  rewrite length_take, length_drop. lia.
Qed.

Lemma memcpy_outside dst d src s n dst' (q : Z) :
  memcpy dst d src s n = Ok dst' ->
  0 <= q -> n = 0 \/ q < d \/ d + n <= q ->
  dst' !! Z.to_nat q = dst !! Z.to_nat q.
Proof.
  intros H Hq Hout.
  apply memcpy_inv in H as [[-> ->] | (Hn & Hs & Hfit & H)]; [reflexivity|].
  pose proof (blit_inv _ _ _ _ H) as (Hd & _ & _).
  apply (blit_lookup_outside _ _ _ _ _ H).
  rewrite length_take_drop by lia. lia.
Qed.

Lemma memcpy_inside dst d src s n dst' (k : Z) :
  memcpy dst d src s n = Ok dst' ->
  0 <= k < n ->
  dst' !! Z.to_nat (d + k) = src !! Z.to_nat (s + k).
Proof.
  intros H Hk.
  apply memcpy_inv in H as [[-> ->] | (Hn & Hs & Hfit & H)]; [lia|].
  pose proof (blit_inv _ _ _ _ H) as (Hd & _ & _).
  replace (Z.to_nat (d + k)) with (Z.to_nat d + Z.to_nat k)%nat by lia.
  rewrite (blit_lookup_inside _ _ _ _ _ H)
    by (rewrite length_take_drop by lia; lia).
  rewrite lookup_take_lt by lia.
  rewrite lookup_drop. f_equal. lia.
Qed.

(** The bytes one round leaves alone. *)
Lemma copy_region_outside g image j current new buf buf' (q : Z) :
  copy_region g image j current new buf = Ok buf' ->
  0 <= q ->
  (let '(dst, _, copy_size) := copy_plan current new in
   size new = 0 \/ copy_size = 0 \/ q < dst \/ dst + copy_size <= q) ->
  buf' !! Z.to_nat q = buf !! Z.to_nat q.
Proof.
  unfold copy_region. intros H Hq Hout.
  destruct (Z.eqb_spec (size new) 0) as [Hz | Hnz].
  - now injection H as <-.
  - destruct (copy_plan current new) as [[dst src] copy_size].
    destruct (region_name g j); try discriminate.
    cbn [mbind res_bind] in H.
    apply (memcpy_outside _ _ _ _ _ _ q H Hq). tauto.
Qed.

Lemma copy_spares_sound current_regions new_regions target j c nw (q : Z) :
  copy_spares current_regions new_regions target j = true ->
  region_at current_regions j = Ok c ->
  region_at new_regions j = Ok nw ->
  base target <= q < base target + size target ->
  let '(dst, _, copy_size) := copy_plan c nw in
  size nw = 0 \/ copy_size = 0 \/ q < dst \/ dst + copy_size <= q.
Proof.
  unfold copy_spares. intros H Hc Hn Hq. rewrite Hc, Hn in H.
  destruct (copy_plan c nw) as [[dst src] copy_size].
  rewrite !orb_true_iff, !Z.eqb_eq, !Z.leb_le in H. lia.
Qed.

(** Rounds that all spare [target] leave its bytes as they were. *)
Lemma copy_regions_frame g image current_regions new_regions target i :
  forall idxs buf buf' (q : Z),
  copy_regions g image current_regions new_regions idxs buf = Ok buf' ->
  others_spare current_regions new_regions i target idxs = true ->
  i ∉ idxs ->
  base target <= q < base target + size target -> 0 <= q ->
  buf' !! Z.to_nat q = buf !! Z.to_nat q.
Proof.
  induction idxs as [|j idxs IH]; intros buf buf' q H Hsp Hni Hq Hq0.
  - now injection H as <-.
  - cbn [copy_regions] in H.
    destruct (region_at current_regions j) as [c| | |] eqn:Hc;
      try discriminate.
    destruct (region_at new_regions j) as [nw| | |] eqn:Hn;
      try discriminate.
    cbn [mbind res_bind] in H.
    destruct (copy_region g image j c nw buf) as [buf1| | |] eqn:Hstep;
      try discriminate.
    cbn [mbind res_bind] in H.
    cbn [others_spare forallb] in Hsp. apply andb_prop in Hsp as [Hj Hrest].
    apply not_elem_of_cons in Hni as [Hne Hni].
    destruct (Z.eqb_spec j i) as [-> | _]; [contradiction|].
    cbn [orb] in Hj.
    rewrite (IH buf1 buf' q H Hrest Hni Hq Hq0).
    apply (copy_region_outside _ _ _ _ _ _ _ _ Hstep Hq0).
    exact (copy_spares_sound _ _ _ _ _ _ _ Hj Hc Hn Hq).
Qed.

(** What the round of a growing region stores, and what it leaves. *)
Lemma copy_region_grow g image i current new buf buf' :
  copy_region g image i current new buf = Ok buf' ->
  0 <= size current < size new -> size new < 2 ^ 31 ->
  let pad := size new - size current in
  (forall k, 0 <= k < size current ->
     buf' !! Z.to_nat (base new + pad + k)
     = image !! Z.to_nat (base current + k)) /\
  (forall q, 0 <= q -> q < base new + pad ->
     buf' !! Z.to_nat q = buf !! Z.to_nat q).
Proof.
  intros H Hsz Hint pad. unfold copy_region, copy_plan in H.
  destruct (Z.eqb_spec (size new) 0); [lia|].
  destruct (Z.gtb_spec (size new) (size current)); [|lia].
  destruct (Z.ltb_spec (size new) (size current)); [lia|].
  destruct (region_name g i); try discriminate.
  cbn [mbind res_bind] in H.
  rewrite s32_small in H by lia. fold pad in H.
  split.
  - intros k Hk.
    rewrite (memcpy_inside _ _ _ _ _ _ k H Hk). f_equal. lia.
  - intros q Hq0 Hq.
    apply (memcpy_outside _ _ _ _ _ _ q H Hq0). lia.
Qed.

End Growth.

(** ** The scenarios of the specification, run on the sample images *)

Section Scenarios.

Lemma sample_v1_regions :
  (off ← locate_frba sample_v1; frba ← load_frba sample_v1 off;
   load_regions g_v1 frba (seqZ 0 (max_regions g_v1)))
  = Ok sample_regions_v1.
Proof. vm_compute. reflexivity. Qed.

(** The BIOS region of the sample grows from 0x1000..0x1FFF to
    0x2000..0x3FFF.  The whole of [new_layout] on it: the file written is the
    descriptor with the BIOS register 0x00030002, then 0x2000 bytes of 0xFF
    (the old place of the BIOS and the front of the new one), then the old
    BIOS bytes. *)
Example new_layout_grows_bios :
  new_layout
    (sample_env [Layout_entry (Some 0x2000) (Some 0x3fff) "bios"])
    g_v1 "rom" sample_v1 []
  = (Ok tt,
     [("rom.new"%string,
       descriptor_block 0
         [0; 0x00030002; 0x00000fff; 0x00000fff; 0x00000fff;
          0xffffffff; 0xffffffff; 0xffffffff; 0xffffffff]
       ++ replicate (Z.to_nat 0x2000) 0xff ++ sample_bios)]).
Proof. vm_compute. reflexivity. Qed.

(** A layout whose BIOS region 0x1000..0x4FFF contains its ME region
    0x2000..0x2FFF passes the overlap check and is written out; with the two
    slots exchanged the same pair of ranges is refused. *)
Example new_layout_accepts_contained_region :
  fst (new_layout
         (sample_env [Layout_entry (Some 0x1000) (Some 0x4fff) "bios";
                      Layout_entry (Some 0x2000) (Some 0x2fff) "me"])
         g_v1 "rom" sample_v1 []) = Ok tt /\
  fst (new_layout
         (sample_env [Layout_entry (Some 0x2000) (Some 0x2fff) "bios";
                      Layout_entry (Some 0x1000) (Some 0x4fff) "me"])
         g_v1 "rom" sample_v1 []) = Exit Regions_would_overlap.
Proof. split; vm_compute; reflexivity. Qed.

(** On the version 2 sample, with an empty layout file, [new_layout] gets
    through the check and the copy and stops in the re-encode loop. *)
Example new_layout_v2_stops_at_slot_5 :
  new_layout (sample_env []) g_v2 "rom" sample_v2 []
  = (Exit Invalid_region_type, []).
Proof. vm_compute. reflexivity. Qed.

(** A file of 3000 bytes goes into the BIOS region of 4096 bytes of the
    sample: 1096 bytes of 0xFF from 0x1000, then the file, up to 0x1FFF. *)
Lemma inject_smaller_bios_pads_front_witness :
  let region := {| base := 0x1000; limit := 0x1fff; size := 0x1000 |} in
  let offset := size region - Z.of_nat (length sample_content) in
  let image' :=
    take (Z.to_nat (base region)) sample_v1
    ++ replicate (Z.to_nat offset) 0xff
    ++ sample_content
    ++ drop (Z.to_nat (limit region + 1)) sample_v1 in
  offset = 1096 /\
  image' = take (Z.to_nat 0x1000) sample_v1
           ++ replicate (Z.to_nat 1096) 0xff ++ sample_content /\
  (inject_region (sample_env []) g_v1 "rom" sample_v1 1 []
   = (Ok tt,
      [((String.append "rom" ".new"),
        take (Z.to_nat (Z.min (image_size sample_v1)
                          (output_write (sample_env [])))) image')]) /\
   length image' = length sample_v1 /\
   base region + offset + Z.of_nat (length sample_content) - 1
   = limit region).
Proof.
  intros region offset image'.
  split; [reflexivity|]. split; [vm_compute; reflexivity|].
  apply (inject_smaller_bios_pads_front (sample_env []) g_v1 "rom"
           sample_v1 []
           (Frba 0 0x00010001 0x00000fff 0x00000fff 0x00001fff
              0xffffffff 0xffffffff 0xffffffff 0xffffffff)
           region sample_content);
    [vm_compute; reflexivity | reflexivity | reflexivity | reflexivity
    | reflexivity | reflexivity | reflexivity
    | unfold sample_env; simpl; vm_compute; discriminate
    | reflexivity | reflexivity | reflexivity].
Defined.

End Scenarios.

(** ** The signature scan *)

Section Locator.

Lemma load8_in_bounds image p :
  0 <= p < image_size image -> exists b, load8 image p = Ok b.
Proof.
  unfold load8, image_size. intros Hp.
  destruct (Z.leb_spec 0 p); [|lia].
  destruct (image !! Z.to_nat p) as [b|] eqn:Hb; [eauto|].
  apply lookup_ge_None in Hb. lia.
Qed.

Lemma load32_in_bounds image p :
  0 <= p -> p + 4 <= image_size image -> exists v, load32 image p = Ok v.
Proof.
  intros Hp Hfit. unfold load32.
  destruct (load8_in_bounds image p ltac:(lia)) as [b0 ->].
  destruct (load8_in_bounds image (p + 1) ltac:(lia)) as [b1 ->].
  destruct (load8_in_bounds image (p + 2) ltac:(lia)) as [b2 ->].
  destruct (load8_in_bounds image (p + 3) ltac:(lia)) as [b3 ->].
  eexists. reflexivity.
Qed.

(** What the scan from [i] has established when it stops. *)
Lemma find_fd_loop_spec rounds : forall image i,
  0 <= i -> (Z.to_nat (image_size image - i) <= rounds)%nat ->
  match find_fd_loop rounds image (image_size image) i with
  | Ok (Some k) =>
    i <= k /\ (k - i) mod 4 = 0 /\ k + 4 < image_size image /\
    load32 image k = Ok 0x0FF0A55A /\
    forall j, i <= j < k -> (j - i) mod 4 = 0 ->
              load32 image j <> Ok 0x0FF0A55A
  | Ok None =>
    forall j, i <= j -> (j - i) mod 4 = 0 -> j + 4 < image_size image ->
              load32 image j <> Ok 0x0FF0A55A
  | Exit _ | Undefined | Diverges => False
  end.
Proof.
  induction rounds as [|rounds IH]; intros image i Hi Hr.
  - cbn [find_fd_loop]. intros j Hj _ Hfit. lia.
  - cbn [find_fd_loop].
    destruct (Z.ltb_spec i (image_size image - 4)) as [Hlt | Hge].
    + destruct (load32_in_bounds image i Hi ltac:(lia)) as [sig Hsig].
      rewrite Hsig. cbn [mbind res_bind].
      destruct (Z.eqb_spec sig 0x0FF0A55A) as [-> | Hne].
      * repeat split; try lia.
        -- replace (i - i) with 0 by lia. reflexivity.
        -- exact Hsig.
      * specialize (IH image (i + 4) ltac:(lia) ltac:(lia)).
        assert (Hstep : forall j, i <= j -> (j - i) mod 4 = 0 ->
                          j = i \/ (i + 4 <= j /\ (j - (i + 4)) mod 4 = 0)).
        { intros j Hj Hmod.
          destruct (Z.eq_dec j i) as [|Hji]; [now left|right].
          assert (j - (i + 4) = (j - i) + (-1) * 4) as -> by lia.
          rewrite Z.mod_add by lia.
          split; [|exact Hmod].
          apply Z.mod_divide in Hmod; [|lia].
          destruct Hmod as [q Hq]. lia. }
        destruct (find_fd_loop rounds image (image_size image) (i + 4))
          as [[k|]| | |]; try contradiction.
        -- destruct IH as (Hk & Hmod & Hfit & Hload & Hfirst).
           repeat split; try lia; try assumption.
           ++ replace (k - i) with ((k - (i + 4)) + 1 * 4) by lia.
              rewrite Z.mod_add by lia. exact Hmod.
           ++ intros j Hj Hjmod.
              destruct (Hstep j ltac:(lia) Hjmod) as [-> | [Hj4 Hm4]].
              ** rewrite Hsig. congruence.
              ** apply Hfirst; [lia | exact Hm4].
        -- intros j Hj Hjmod Hfit.
           destruct (Hstep j Hj Hjmod) as [-> | [Hj4 Hm4]].
           ++ rewrite Hsig. congruence.
           ++ apply IH; assumption.
    + intros j Hj _ Hfit. lia.
Qed.

Lemma find_fd_found_range image k :
  find_fd image = Ok (Some k) -> 0 <= k /\ k + 4 < image_size image.
Proof.
  unfold find_fd. intros H.
  pose proof (find_fd_loop_spec (Z.to_nat (image_size image)) image 0
                ltac:(lia) ltac:(lia)) as Hspec.
  rewrite H in Hspec. lia.
Qed.

(** X1.  [find_fd] never reads outside the buffer. It returns the least offset
    that is a multiple of 4, has more than 4 bytes of the buffer from it on,
    and holds the signature 0x0FF0A55A; it returns NULL when there is no such
    offset. *)
Theorem find_fd_least_aligned_signature (image : image_t) :
  match find_fd image with
  | Ok (Some k) =>
    0 <= k /\ k mod 4 = 0 /\ k + 4 < image_size image /\
    load32 image k = Ok 0x0FF0A55A /\
    forall j, 0 <= j < k -> j mod 4 = 0 -> load32 image j <> Ok 0x0FF0A55A
  | Ok None =>
    forall j, 0 <= j -> j mod 4 = 0 -> j + 4 < image_size image ->
              load32 image j <> Ok 0x0FF0A55A
  | Exit _ | Undefined | Diverges => False
  end.
Proof.
  unfold find_fd.
  pose proof (find_fd_loop_spec (Z.to_nat (image_size image)) image 0
                ltac:(lia) ltac:(lia)) as H.
  destruct (find_fd_loop _ image (image_size image) 0) as [[k|]| | |];
    try contradiction.
  - destruct H as (Hk & Hmod & Hfit & Hload & Hfirst).
    rewrite Z.sub_0_r in Hmod.
    repeat split; try assumption.
    intros j Hj Hjmod. apply Hfirst; [lia|]. now rewrite Z.sub_0_r.
  - intros j Hj Hjmod. apply H; [lia|]. now rewrite Z.sub_0_r.
Qed.

End Locator.

(** ** A header cut short by the end of the buffer *)

Section ShortHeader.

Lemma load8_out_of_bounds image p :
  image_size image <= p -> load8 image p = Undefined.
Proof.
  unfold load8, image_size. intros Hp.
  destruct (0 <=? p); [|reflexivity].
  rewrite (proj2 (lookup_ge_None image (Z.to_nat p))) by lia. reflexivity.
Qed.

Lemma load32_out_of_bounds image p :
  0 <= p -> image_size image < p + 4 -> load32 image p = Undefined.
Proof.
  intros Hp Hshort. unfold load32.
  destruct (Z_lt_le_dec p (image_size image)) as [H0|H0];
    [|rewrite (load8_out_of_bounds image p) by lia; reflexivity].
  destruct (load8_in_bounds image p ltac:(lia)) as [b0 ->].
  cbn [mbind res_bind].
  destruct (Z_lt_le_dec (p + 1) (image_size image)) as [H1|H1];
    [|rewrite (load8_out_of_bounds image (p + 1)) by lia; reflexivity].
  destruct (load8_in_bounds image (p + 1) ltac:(lia)) as [b1 ->].
  cbn [mbind res_bind].
  destruct (Z_lt_le_dec (p + 2) (image_size image)) as [H2|H2];
    [|rewrite (load8_out_of_bounds image (p + 2)) by lia; reflexivity].
  destruct (load8_in_bounds image (p + 2) ltac:(lia)) as [b2 ->].
  cbn [mbind res_bind].
  rewrite load8_out_of_bounds by lia. reflexivity.
Qed.

(** X2.  When the signature found has fewer than 8 bytes of the buffer from it
    on, the read of FLMAP0 that follows [find_fd] in [check_ifd_version],
    [inject_region] and [new_layout] leaves the buffer. *)
Theorem header_cut_short_is_read_past_the_end
  (SPI_FREQUENCY_20MHZ SPI_FREQUENCY_17MHZ : Z) (image : image_t) (fdb : Z)
  (Hfd : find_fd image = Ok (Some fdb))
  (Hshort : image_size image < fdb + 8) :
  check_ifd_version SPI_FREQUENCY_20MHZ SPI_FREQUENCY_17MHZ image = Undefined
  /\ locate_frba image = Undefined.
Proof.
  destruct (find_fd_found_range image fdb Hfd) as (Hk & _).
  unfold check_ifd_version, locate_frba, fdbar_flmap0.
  rewrite Hfd. cbn [mbind res_bind].
  rewrite load32_out_of_bounds by lia. split; reflexivity.
Qed.

Lemma header_cut_short_is_read_past_the_end_witness :
  let image := bytes_of_u32 0x0FF0A55A ++ [0; 0; 0] in
  find_fd image = Ok (Some 0) /\
  check_ifd_version 0 6 image = Undefined /\
  locate_frba image = Undefined.
Proof.
  intros image. split; [reflexivity|].
  apply (header_cut_short_is_read_past_the_end 0 6 image 0);
    [reflexivity | vm_compute; reflexivity].
Defined.

End ShortHeader.

(** ** More on the region codec *)

Section RegionCodecMore.

Lemma get_region_of_register g frba i r :
  get_region g frba i = Ok r ->
  exists v,
    flreg_of frba i = Some v /\
    let n := region_field_bits g in
    base r = Z.shiftl (Z.land v (Z.ones n)) 12 /\
    limit r = Z.lor (Z.shiftr (Z.land v (Z.shiftl (Z.ones n) 16)) 4)
                (Z.ones 12) /\
    size r = (if limit r - base r + 1 <? 0 then 0
              else limit r - base r + 1) /\
    0 <= base r < 2 ^ 27 /\ 0 <= limit r < 2 ^ 27.
Proof.
  intros H.
  destruct (Z_le_dec 0 i) as [H0|H0];
    [destruct (Z_le_dec i 8) as [H8|H8]|];
    try (rewrite get_region_outside in H by lia; discriminate).
  assert (exists v, flreg_of frba i = Some v /\
            get_region g frba i
            = (let base_mask :=
                 if ge_version_2 (ifd_version g) then 0x7fff else 0xfff in
               let limit_mask := s32 (Z.shiftl base_mask 16) in
               let rbase :=
                 s32 (u32 (Z.shiftl (Z.land v (u32 base_mask)) 12)) in
               let rlimit :=
                 s32 (Z.lor (Z.shiftr (Z.land v (u32 limit_mask)) 4) 0xfff) in
               let rsize := s32 (rlimit - rbase + 1) in
               let rsize := if rsize <? 0 then 0 else rsize in
               Ok {| base := rbase; limit := rlimit; size := rsize |}))
    as (v & Hv & Hget).
  { assert (i = 0 \/ i = 1 \/ i = 2 \/ i = 3 \/ i = 4 \/ i = 5 \/ i = 6
            \/ i = 7 \/ i = 8) as Hcases by lia.
    decompose [or] Hcases; subst i; eexists; split; reflexivity. }
  exists v. split; [exact Hv|].
  rewrite Hget in H. clear Hget. cbv zeta in H.
  unfold region_field_bits.
  assert (Hm : exists n, (n = 15 \/ n = 12) /\
             (if ge_version_2 (ifd_version g) then 15 else 12) = n /\
             (if ge_version_2 (ifd_version g) then 0x7fff else 0xfff)
             = Z.ones n).
  { destruct (ge_version_2 _); eexists; (split; [|split]);
      try reflexivity; auto. }
  destruct Hm as (n & Hn & -> & Hmask). rewrite Hmask in H.
  assert (Hu : u32 (Z.ones n) = Z.ones n)
    by (destruct Hn as [-> | ->]; reflexivity).
  assert (Hlm : u32 (s32 (Z.shiftl (Z.ones n) 16)) = Z.shiftl (Z.ones n) 16)
    by (destruct Hn as [-> | ->]; reflexivity).
  rewrite Hu, Hlm in H.
  assert (Hlo : 0 <= Z.land v (Z.ones n) < 2 ^ 15).
  { apply land_mask_range; [lia|].
    destruct Hn as [-> | ->]; vm_compute; split; congruence. }
  assert (Hhi : 0 <= Z.land v (Z.shiftl (Z.ones n) 16) < 2 ^ 31).
  { apply land_mask_range; [lia|].
    destruct Hn as [-> | ->]; vm_compute; split; congruence. }
  pose proof (shiftl_range _ 12 15 ltac:(lia) ltac:(lia) Hlo) as Hb.
  pose proof (shiftr_range _ 4 31 ltac:(lia) Hhi) as Hl.
  simpl Z.add in Hb. simpl Z.sub in Hl.
  pose proof (lor_range _ 0xfff 27 ltac:(lia) Hl ltac:(lia)) as Hl'.
  rewrite (u32_small (Z.shiftl _ 12)) in H by lia.
  rewrite (s32_small (Z.shiftl _ 12)) in H by lia.
  rewrite (s32_small (Z.lor _ _)) in H by lia.
  rewrite (s32_small (_ - _ + 1)) in H by lia.
  injection H as <-. cbn [base limit size].
  change (Z.ones 12) with 4095.
  repeat split; lia.
Qed.

(** X3.  Every region [get_region] returns: the base is a multiple of 4 KiB,
    the limit is the last byte of a 4 KiB block, both lie below 2^(12 + field
    width); the size is 0 exactly when the limit is below the base, and is
    [limit - base + 1], a multiple of 4 KiB, otherwise. *)
Theorem get_region_aligned_and_sized (g : globals) (frba : frba_t)
  (region_type : Z) (region : region_t)
  (Hget : get_region g frba region_type = Ok region) :
  base region mod 4096 = 0 /\ limit region mod 4096 = 4095 /\
  0 <= base region < 2 ^ (12 + region_field_bits g) /\
  0 <= limit region < 2 ^ (12 + region_field_bits g) /\
  (size region = 0 <-> limit region < base region) /\
  (base region <= limit region ->
   size region = limit region - base region + 1) /\
  size region mod 4096 = 0.
Proof.
  destruct (get_region_of_register _ _ _ _ Hget)
    as (v & _ & Hb & Hl & Hs & Hbr & Hlr).
  cbv zeta in Hb, Hl.
  set (n := region_field_bits g) in *.
  assert (Hn : n = 15 \/ n = 12)
    by (subst n; unfold region_field_bits; destruct (ge_version_2 _); auto).
  assert (Hlo : 0 <= Z.land v (Z.ones n) < 2 ^ n).
  { rewrite Z.land_ones by lia. apply Z.mod_pos_bound.
    apply Z.pow_pos_nonneg; lia. }
  assert (Hbmod : base region mod 4096 = 0).
  { rewrite Hb, Z.shiftl_mul_pow2 by lia. apply Z.mod_mul. lia. }
  assert (Hlmod : limit region mod 4096 = 4095).
  { change 4096 with (2 ^ 12). rewrite <- Z.land_ones by lia. rewrite Hl.
    change 4095 with (Z.ones 12). bit_blast. }
  assert (Hbhi : base region < 2 ^ (12 + n)).
  { rewrite Hb, Z.shiftl_mul_pow2, Z.pow_add_r by lia.
    change (2 ^ 12) with 4096. lia. }
  assert (Hlhi : limit region < 2 ^ (12 + n)).
  { rewrite Hl.
    assert (0 <= Z.land v (Z.shiftl (Z.ones n) 16) < 2 ^ (n + 16)) as Hh.
    { apply land_mask_range; [lia|].
      destruct Hn as [-> | ->]; vm_compute; split; congruence. }
    pose proof (shiftr_range _ 4 (n + 16) ltac:(lia) Hh) as Hs4.
    replace (n + 16 - 4) with (12 + n) in Hs4 by lia.
    apply lor_range; [lia | exact Hs4 |].
    split; [vm_compute; congruence|].
    change (Z.ones 12) with (2 ^ 12 - 1).
    assert (2 ^ 12 <= 2 ^ (12 + n)) by (apply Z.pow_le_mono_r; lia). lia. }
  assert (Hsmod : size region mod 4096 = 0).
  { rewrite Hs.
    destruct (Z.ltb_spec (limit region - base region + 1) 0);
      [reflexivity|].
    pose proof (Z.div_mod (base region) 4096 ltac:(lia)).
    pose proof (Z.div_mod (limit region) 4096 ltac:(lia)).
    replace (limit region - base region + 1)
      with ((limit region / 4096 - base region / 4096 + 1) * 4096) by lia.
    apply Z.mod_mul. lia. }
  repeat split; try assumption; try lia.
  - intros Hz. rewrite Hs in Hz.
    destruct (Z.ltb_spec (limit region - base region + 1) 0); lia.
  - intros Hlt. rewrite Hs.
    destruct (Z.ltb_spec (limit region - base region + 1) 0); [reflexivity|].
    pose proof (Z.div_mod (base region) 4096 ltac:(lia)).
    pose proof (Z.div_mod (limit region) 4096 ltac:(lia)). lia.
  - intros Hle. rewrite Hs.
    destruct (Z.ltb_spec (limit region - base region + 1) 0); lia.
Qed.

Lemma get_region_aligned_and_sized_witness :
  let region := {| base := 0x7fff000; limit := 0xfff; size := 0 |} in
  get_region g_v2 (Frba 0 0 0 0 0 0 0 0 0x00007fff) 8 = Ok region /\
  base region mod 4096 = 0 /\ limit region mod 4096 = 4095 /\
  0 <= base region < 2 ^ (12 + region_field_bits g_v2) /\
  0 <= limit region < 2 ^ (12 + region_field_bits g_v2) /\
  (size region = 0 <-> limit region < base region) /\
  (base region <= limit region ->
   size region = limit region - base region + 1) /\
  size region mod 4096 = 0.
Proof.
  intros region. split; [reflexivity|].
  apply (get_region_aligned_and_sized g_v2
           (Frba 0 0 0 0 0 0 0 0 0x00007fff) 8 region).
  reflexivity.
Defined.

End RegionCodecMore.

Section RegionEncode.

Lemma flreg_of_other r0 r1 r2 r3 r4 r5 r6 r7 r8 i j v :
  0 <= i <= 4 -> j <> i ->
  flreg_of
    (match i with
     | 0 => Frba v r1 r2 r3 r4 r5 r6 r7 r8
     | 1 => Frba r0 v r2 r3 r4 r5 r6 r7 r8
     | 2 => Frba r0 r1 v r3 r4 r5 r6 r7 r8
     | 3 => Frba r0 r1 r2 v r4 r5 r6 r7 r8
     | _ => Frba r0 r1 r2 r3 v r5 r6 r7 r8
     end) j
  = flreg_of (Frba r0 r1 r2 r3 r4 r5 r6 r7 r8) j.
Proof.
  intros Hi Hj.
  assert (i = 0 \/ i = 1 \/ i = 2 \/ i = 3 \/ i = 4) as Hcases by lia.
  unfold flreg_of. destruct (Z.ltb_spec j 0); [reflexivity|].
  decompose [or] Hcases; subst i;
    destruct (Z.to_nat j) as [|[|[|[|[|n]]]]] eqn:Hn;
    try reflexivity; lia.
Qed.

Lemma set_region_inside frba i region :
  0 <= i <= 4 ->
  exists frba',
    set_region frba i region = Ok frba' /\
    flreg_of frba' i = Some (pack_region region) /\
    forall j, j <> i -> flreg_of frba' j = flreg_of frba j.
Proof.
  intros Hi. destruct frba as [r0 r1 r2 r3 r4 r5 r6 r7 r8].
  assert (i = 0 \/ i = 1 \/ i = 2 \/ i = 3 \/ i = 4) as Hcases by lia.
  decompose [or] Hcases; subst i; eexists;
    (split; [reflexivity|]; split; [reflexivity|]);
    intros j Hj;
    [ apply (flreg_of_other r0 r1 r2 r3 r4 r5 r6 r7 r8 0 j)
    | apply (flreg_of_other r0 r1 r2 r3 r4 r5 r6 r7 r8 1 j)
    | apply (flreg_of_other r0 r1 r2 r3 r4 r5 r6 r7 r8 2 j)
    | apply (flreg_of_other r0 r1 r2 r3 r4 r5 r6 r7 r8 3 j)
    | apply (flreg_of_other r0 r1 r2 r3 r4 r5 r6 r7 r8 4 j) ];
    first [lia | exact Hj].
Qed.

Lemma set_region_outside frba i region :
  ~ (0 <= i <= 4) -> set_region frba i region = Exit Invalid_region_type.
Proof.
  intros Hi. destruct frba. unfold set_region.
  destruct i as [|p|p]; [lia | | reflexivity].
  do 3 (try destruct p as [p|p|]); try reflexivity; lia.
Qed.

(** X4.  [set_region] stores in the registers 0 to 4 only: for an index
    outside 0..4, so for the slots 5 to 8 of a version 2 image too, it stops
    in the invalid-region exit; for an index 0..4 it replaces that register by
    the packed region and leaves the eight others as they were. *)
Theorem set_region_writes_one_of_five (frba : frba_t) (region_type : Z)
  (region : region_t) :
  match set_region frba region_type region with
  | Ok frba' =>
    0 <= region_type <= 4 /\
    flreg_of frba' region_type = Some (pack_region region) /\
    forall j, j <> region_type -> flreg_of frba' j = flreg_of frba j
  | Exit f => f = Invalid_region_type /\ ~ (0 <= region_type <= 4)
  | Undefined | Diverges => False
  end.
Proof.
  destruct (Z_le_dec 0 region_type) as [H0|H0];
    [destruct (Z_le_dec region_type 4) as [H4|H4]|];
    try (rewrite set_region_outside by lia; split; [reflexivity | lia]).
  destruct (set_region_inside frba region_type region ltac:(lia))
    as (frba' & -> & Hreg & Hother).
  split; [lia|]. split; assumption.
Qed.

(** The register [pack_region] builds from an aligned region. *)
Lemma pack_region_aligned region n :
  (n = 12 \/ n = 15) ->
  base region mod 4096 = 0 -> limit region mod 4096 = 4095 ->
  0 <= base region < 2 ^ (12 + n) -> 0 <= limit region < 2 ^ (12 + n) ->
  let v := pack_region region in
  0 <= v < 2 ^ 32 /\
  Z.shiftl (Z.land v (Z.ones n)) 12 = base region /\
  Z.lor (Z.shiftr (Z.land v (Z.shiftl (Z.ones n) 16)) 4) (Z.ones 12)
  = limit region.
Proof.
  intros Hn Hbm Hlm Hb Hl v. subst v. unfold pack_region.
  pose proof (Z.div_mod (base region) 4096 ltac:(lia)) as Hbd.
  pose proof (Z.div_mod (limit region) 4096 ltac:(lia)) as Hld.
  set (B := base region / 4096) in *. set (L := limit region / 4096) in *.
  assert (H2n : 2 ^ (12 + n) = 4096 * 2 ^ n)
    by (rewrite Z.pow_add_r by lia; reflexivity).
  assert (Hn15 : 2 ^ n <= 2 ^ 15) by (apply Z.pow_le_mono_r; lia).
  assert (HB : 0 <= B < 2 ^ n) by lia.
  assert (HL : 0 <= L < 2 ^ n) by lia.
  assert (Hbase : base region = Z.shiftl (Z.land B (Z.ones n)) 12).
  { rewrite Z.land_ones, Z.mod_small, Z.shiftl_mul_pow2 by lia.
    change (2 ^ 12) with 4096. lia. }
  assert (Hlimit : limit region
                   = Z.lor (Z.shiftl (Z.land L (Z.ones n)) 12) (Z.ones 12)).
  { rewrite Z.land_ones, Z.mod_small by lia.
    rewrite <- Z.add_nocarry_lor.
    - rewrite Z.shiftl_mul_pow2 by lia.
      change (2 ^ 12) with 4096. change (Z.ones 12) with 4095. lia.
    - apply Z.bits_inj'. intros i Hi.
      rewrite Z.bits_0, Z.land_spec, Z.shiftl_spec, Z.testbit_ones by lia.
      destruct (Z.ltb_spec i 12).
      + rewrite Z.testbit_neg_r by lia. reflexivity.
      + now rewrite andb_false_r, andb_false_r. }
  assert (Hrange : 0 <= Z.lor (Z.shiftl (Z.land (Z.shiftr (limit region) 12)
                                           0x7fff) 16)
                              (Z.land (Z.shiftr (base region) 12) 0x7fff)
                   < 2 ^ 32).
  { pose proof (land_mask_range (Z.shiftr (limit region) 12) 0x7fff 15
                  ltac:(lia) ltac:(lia)) as H1.
    pose proof (land_mask_range (Z.shiftr (base region) 12) 0x7fff 15
                  ltac:(lia) ltac:(lia)) as H2.
    pose proof (shiftl_range _ 16 15 ltac:(lia) ltac:(lia) H1) as H3.
    simpl Z.add in H3.
    assert (0 <= Z.land (Z.shiftr (base region) 12) 0x7fff < 2 ^ 31) as H4
      by lia.
    pose proof (lor_range _ _ 31 ltac:(lia) H3 H4). lia. }
  rewrite u32_small by exact Hrange.
  split; [exact Hrange|].
  rewrite Hbase, Hlimit.
  change 0x7fff with (Z.ones 15).
  destruct Hn as [-> | ->]; split; bit_blast.
Qed.

(** X5.  Encoding then decoding. For an index 0..4 and a region whose base is
    a multiple of 4 KiB, whose limit ends a 4 KiB block and which both fit the
    field width of the version, [get_region] after [set_region] returns the
    same base and limit, with the size that goes with them. *)
Theorem set_then_get_region (g : globals) (frba : frba_t) (region_type : Z)
  (region : region_t)
  (Hi : 0 <= region_type <= 4)
  (Hbase : base region mod 4096 = 0)
  (Hlimit : limit region mod 4096 = 4095)
  (Hb : 0 <= base region < 2 ^ (12 + region_field_bits g))
  (Hl : 0 <= limit region < 2 ^ (12 + region_field_bits g)) :
  exists frba',
    set_region frba region_type region = Ok frba' /\
    get_region g frba' region_type
    = Ok {| base := base region;
            limit := limit region;
            size := Z.max 0 (limit region - base region + 1) |}.
Proof.
  destruct (set_region_inside frba region_type region Hi)
    as (frba' & Hset & Hreg & _).
  exists frba'. split; [exact Hset|].
  destruct (get_region_inside g frba' region_type ltac:(lia)) as [r Hr].
  rewrite Hr. f_equal.
  destruct (get_region_of_register _ _ _ _ Hr)
    as (v & Hv & Hrb & Hrl & Hrs & _).
  rewrite Hreg in Hv. injection Hv as <-.
  cbv zeta in Hrb, Hrl.
  assert (Hn : region_field_bits g = 12 \/ region_field_bits g = 15)
    by (unfold region_field_bits; destruct (ge_version_2 _); auto).
  destruct (pack_region_aligned region (region_field_bits g) Hn Hbase Hlimit
              Hb Hl) as (_ & Hpb & Hpl).
  rewrite Hpb in Hrb. rewrite Hpl in Hrl.
  destruct r as [rb rl rs]. cbn [base limit size] in *. subst rb rl.
  f_equal. rewrite Hrs.
  destruct (Z.ltb_spec (limit region - base region + 1) 0); lia.
Qed.

Lemma set_then_get_region_witness :
  let region := {| base := 0x200000; limit := 0x7fffff; size := 0 |} in
  exists frba',
    set_region (Frba 0 0 0 0 0 0 0 0 0) 1 region = Ok frba' /\
    get_region g_v1 frba' 1
    = Ok {| base := 0x200000; limit := 0x7fffff;
            size := Z.max 0 (0x7fffff - 0x200000 + 1) |}.
Proof.
  intros region.
  apply (set_then_get_region g_v1 (Frba 0 0 0 0 0 0 0 0 0) 1 region);
    [lia | reflexivity | reflexivity | vm_compute; split; congruence
    | vm_compute; split; congruence].
Defined.

Lemma pack_get_region_v2 g frba i r v :
  ifd_version g = IFD_VERSION_2 ->
  get_region g frba i = Ok r -> flreg_of frba i = Some v ->
  0 <= v < 2 ^ 32 ->
  pack_region r = Z.land v 0x7fff7fff.
Proof.
  intros Hv2 Hr Hv Hrange.
  destruct (get_region_of_register _ _ _ _ Hr)
    as (v' & Hv' & Hrb & Hrl & _ & Hbr & Hlr).
  rewrite Hv in Hv'. injection Hv' as <-.
  unfold region_field_bits in Hrb, Hrl. rewrite Hv2 in Hrb, Hrl.
  cbn [ge_version_2] in Hrb, Hrl. cbv zeta in Hrb, Hrl.
  unfold pack_region.
  pose proof (land_mask_range (Z.shiftr (limit r) 12) 0x7fff 15
                ltac:(lia) ltac:(lia)) as H1.
  pose proof (land_mask_range (Z.shiftr (base r) 12) 0x7fff 15
                ltac:(lia) ltac:(lia)) as H2.
  pose proof (shiftl_range _ 16 15 ltac:(lia) ltac:(lia) H1) as H3.
  simpl Z.add in H3.
  assert (0 <= Z.land (Z.shiftr (base r) 12) 0x7fff < 2 ^ 31) as H4 by lia.
  pose proof (lor_range _ _ 31 ltac:(lia) H3 H4).
  rewrite u32_small by lia.
  rewrite Hrb, Hrl.
  change 0x7fff with (Z.ones 15).
  change 0x7fff7fff with (Z.lor (Z.shiftl (Z.ones 15) 16) (Z.ones 15)).
  bit_blast.
Qed.

(** X6.  Decoding then encoding on a version 2 image, for an index 0..4: what
    [set_region] writes back is the register with its bits 15 and 31 cleared,
    the other registers staying as they were. *)
Theorem get_set_region_v2_clears_bits_15_31 (g : globals) (frba : frba_t)
  (region_type : Z)
  (Hv2 : ifd_version g = IFD_VERSION_2)
  (Hwf : frba_wf frba = true)
  (Hi : 0 <= region_type <= 4) :
  exists v region frba',
    flreg_of frba region_type = Some v /\
    get_region g frba region_type = Ok region /\
    set_region frba region_type region = Ok frba' /\
    flreg_of frba' region_type = Some (Z.land v 0x7fff7fff) /\
    (forall j, j <> region_type -> flreg_of frba' j = flreg_of frba j).
Proof.
  destruct (get_region_inside g frba region_type ltac:(lia)) as [r Hr].
  destruct (get_region_of_register _ _ _ _ Hr) as (v & Hv & _).
  destruct (set_region_inside frba region_type r Hi)
    as (frba' & Hset & Hreg & Hother).
  exists v, r, frba'. repeat split; try assumption.
  rewrite Hreg. f_equal.
  apply (pack_get_region_v2 g frba region_type r v Hv2 Hr Hv).
  exact (frba_wf_regs frba Hwf region_type v Hv).
Qed.

Lemma get_set_region_v2_clears_bits_15_31_witness :
  let frba := Frba 0 0x8fff8001 0 0 0 0 0 0 0 in
  exists v region frba',
    flreg_of frba 1 = Some v /\
    get_region g_v2 frba 1 = Ok region /\
    set_region frba 1 region = Ok frba' /\
    flreg_of frba' 1 = Some (Z.land v 0x7fff7fff) /\
    (forall j, j <> 1 -> flreg_of frba' j = flreg_of frba j).
Proof.
  intros frba.
  apply (get_set_region_v2_clears_bits_15_31 g_v2 frba 1);
    [reflexivity | reflexivity | lia].
Defined.

End RegionEncode.

(** ** What the overlap check sees *)

Section CollideMore.

(** X7.  For two regions of nonzero size with [base <= limit]:
    [regions_collide] never reports two regions that share no byte; asked in
    both orders it reports every pair that shares one; and the pairs it misses
    in one order are those where the first region begins before and ends after
    the second. *)
Theorem regions_collide_sound_and_what_it_misses (r1 r2 : region_t)
  (Hs1 : size r1 <> 0) (Hs2 : size r2 <> 0)
  (Hr1 : base r1 <= limit r1) (Hr2 : base r2 <= limit r2) :
  (regions_collide r1 r2 = 1 -> regions_intersect r1 r2) /\
  (regions_intersect r1 r2 <->
   regions_collide r1 r2 = 1 \/ regions_collide r2 r1 = 1) /\
  (regions_intersect r1 r2 /\ regions_collide r1 r2 = 0 <->
   base r1 < base r2 /\ limit r2 < limit r1).
Proof.
  unfold regions_collide, regions_intersect.
  destruct (Z.eqb_spec (size r1) 0); [contradiction|].
  destruct (Z.eqb_spec (size r2) 0); [contradiction|].
  cbn [orb].
  destruct (Z.geb_spec (base r1) (base r2)),
           (Z.leb_spec (base r1) (limit r2)),
           (Z.geb_spec (limit r1) (base r2)),
           (Z.leb_spec (limit r1) (limit r2)),
           (Z.geb_spec (base r2) (base r1)),
           (Z.leb_spec (base r2) (limit r1)),
           (Z.geb_spec (limit r2) (base r1)),
           (Z.leb_spec (limit r2) (limit r1));
    cbn [andb orb]; try lia;
    (split; [|split]); try lia; split; try lia; intros; try lia; auto.
Qed.

Lemma regions_collide_sound_and_what_it_misses_witness :
  let r1 := {| base := 0x1000; limit := 0x4fff; size := 0x4000 |} in
  let r2 := {| base := 0x2000; limit := 0x2fff; size := 0x1000 |} in
  (regions_collide r1 r2 = 1 -> regions_intersect r1 r2) /\
  (regions_intersect r1 r2 <->
   regions_collide r1 r2 = 1 \/ regions_collide r2 r1 = 1) /\
  (regions_intersect r1 r2 /\ regions_collide r1 r2 = 0 <->
   base r1 < base r2 /\ limit r2 < limit r1).
Proof.
  intros r1 r2.
  apply (regions_collide_sound_and_what_it_misses r1 r2);
    unfold r1, r2; simpl; lia.
Defined.

End CollideMore.

(** ** The check of a new layout *)

Section CheckLayout.

Lemma collide_loop_ok new_regions ri : forall js,
  collide_loop new_regions ri js = Ok tt ->
  forall j rj, j ∈ js -> region_at new_regions j = Ok rj ->
               regions_collide ri rj = 0.
Proof.
  induction js as [|j0 js IH]; intros H j rj Hj Hrj.
  - now apply elem_of_nil in Hj.
  - cbn [collide_loop] in H.
    destruct (region_at new_regions j0) as [r0| | |] eqn:H0;
      try discriminate.
    cbn [mbind res_bind] in H.
    destruct (Z.eqb_spec (regions_collide ri r0) 0) as [Hz|Hnz];
      cbn [negb] in H; [|discriminate].
    apply elem_of_cons in Hj as [-> | Hj].
    + rewrite H0 in Hrj. injection Hrj as <-. exact Hz.
    + now apply (IH H j rj).
Qed.

Lemma check_layout_inv g current_regions new_regions : forall idxs e0 e,
  check_layout g current_regions new_regions idxs e0 = Ok e ->
  e0 <= e /\
  (e = e0 \/
   exists i ri, i ∈ idxs /\ region_at new_regions i = Ok ri /\
                size ri <> 0 /\ limit ri = e) /\
  forall i ri, i ∈ idxs -> region_at new_regions i = Ok ri ->
    size ri <> 0 ->
    limit ri <= e /\
    forall j rj, j ∈ seqZ (i + 1) (max_regions g - (i + 1)) ->
                 region_at new_regions j = Ok rj ->
                 regions_collide ri rj = 0.
Proof.
  induction idxs as [|i0 idxs IH]; intros e0 e H.
  - injection H as <-. split; [lia|]. split; [now left|].
    intros i ri Hi. now apply elem_of_nil in Hi.
  - cbn [check_layout] in H.
    destruct (region_at new_regions i0) as [n0| | |] eqn:Hn0;
      try discriminate.
    cbn [mbind res_bind] in H.
    destruct (region_at current_regions i0) as [c0| | |] eqn:Hc0;
      try discriminate.
    cbn [mbind res_bind] in H.
    destruct (Z.eqb_spec (size n0) 0) as [Hz | Hnz].
    + destruct (IH e0 e H) as (Hle & Hmax & Hall).
      split; [exact Hle|]. split.
      * destruct Hmax as [-> | (i & ri & Hi & Hr & Hs & Hl)]; [now left|].
        right. exists i, ri. rewrite elem_of_cons. auto.
      * intros i ri Hi Hri Hsz.
        apply elem_of_cons in Hi as [-> | Hi]; [|now apply Hall].
        rewrite Hn0 in Hri. injection Hri as <-. contradiction.
    + match type of H with
      | mbind _ ?warn = _ => destruct warn as [[]| | |]; try discriminate
      end.
      cbn [mbind res_bind] in H.
      destruct (collide_loop new_regions n0 _) as [[]| | |] eqn:Hloop;
        try discriminate.
      cbn [mbind res_bind] in H.
      destruct (IH _ e H) as (Hle & Hmax & Hall).
      split; [destruct (e0 <? limit n0) eqn:Hlt; lia|]. split.
      * destruct Hmax as [-> | (i & ri & Hi & Hr & Hs & Hl)].
        -- destruct (Z.ltb_spec e0 (limit n0)); [|now left].
           right. exists i0, n0. rewrite elem_of_cons. auto.
        -- right. exists i, ri. rewrite elem_of_cons. auto.
      * intros i ri Hi Hri Hsz.
        apply elem_of_cons in Hi as [-> | Hi]; [|now apply Hall].
        rewrite Hn0 in Hri. injection Hri as <-.
        split; [destruct (Z.ltb_spec e0 (limit n0)); lia|].
        intros j rj Hj Hrj.
        exact (collide_loop_ok _ _ _ Hloop j rj Hj Hrj).
Qed.

(** X8.  When the check of [new_layout] lets a layout through: no slot of
    nonzero size collides, in the sense of [regions_collide] and in this
    order, with a later slot; and the extent returned is the greatest of 0
    and the limits of the slots of nonzero size: it is not negative, no such
    limit is above it, and it is 0 or one of these limits. *)
Theorem check_layout_passes_means (g : globals)
  (current_regions new_regions : list region_t) (new_extent : Z)
  (Hcheck : check_layout g current_regions new_regions
              (seqZ 0 (max_regions g)) 0 = Ok new_extent) :
  (forall i j ri rj,
     0 <= i < j -> j < max_regions g ->
     region_at new_regions i = Ok ri -> region_at new_regions j = Ok rj ->
     size ri <> 0 -> regions_collide ri rj = 0) /\
  (forall i ri,
     0 <= i < max_regions g -> region_at new_regions i = Ok ri ->
     size ri <> 0 -> limit ri <= new_extent) /\
  0 <= new_extent /\
  (new_extent = 0 \/
   exists i ri, 0 <= i < max_regions g /\ region_at new_regions i = Ok ri /\
                size ri <> 0 /\ limit ri = new_extent).
Proof.
  destruct (check_layout_inv _ _ _ _ _ _ Hcheck) as (Hle & Hmax & Hall).
  split; [|split; [|split; [exact Hle|]]].
  - intros i j ri rj Hij Hj Hri Hrj Hsz.
    destruct (Hall i ri) as [_ Hcol]; [apply elem_of_seqZ; lia | | |];
      try assumption.
    apply (Hcol j rj); [apply elem_of_seqZ; lia | exact Hrj].
  - intros i ri Hi Hri Hsz.
    destruct (Hall i ri) as [Hlim _]; [apply elem_of_seqZ; lia | | |];
      assumption.
  - destruct Hmax as [-> | (i & ri & Hi & Hr & Hs & Hl)]; [now left|].
    right. exists i, ri. apply elem_of_seqZ in Hi. repeat split; auto; lia.
Qed.

Lemma check_layout_passes_means_witness :
  let new_regions :=
    <[1%nat := {| base := 0x2000; limit := 0x3fff; size := 0x2000 |}]>
      sample_regions_v1 in
  check_layout g_v1 sample_regions_v1 new_regions
    (seqZ 0 (max_regions g_v1)) 0 = Ok 0x3fff /\
  (forall i j ri rj,
     0 <= i < j -> j < max_regions g_v1 ->
     region_at new_regions i = Ok ri -> region_at new_regions j = Ok rj ->
     size ri <> 0 -> regions_collide ri rj = 0) /\
  (forall i ri,
     0 <= i < max_regions g_v1 -> region_at new_regions i = Ok ri ->
     size ri <> 0 -> limit ri <= 0x3fff) /\
  0 <= 0x3fff /\
  (0x3fff = 0 \/
   exists i ri, 0 <= i < max_regions g_v1 /\
                region_at new_regions i = Ok ri /\
                size ri <> 0 /\ limit ri = 0x3fff).
Proof.
  intros new_regions. split; [reflexivity|].
  apply (check_layout_passes_means g_v1 sample_regions_v1 new_regions 0x3fff).
  reflexivity.
Defined.

End CheckLayout.

(** ** The size of the new image *)

Section NewBuffer.

(** X9.  The buffer [new_layout] allocates for a greatest limit [new_extent]:
    for 2 <= new_extent <= 2^30 its size is the power of two with [size / 2 <
    new_extent <= size], all bytes 0xFF; and when [new_extent] ends a 4 KiB
    block, as every limit [get_region] decodes does, the byte at [new_extent]
    itself lies inside. *)
Theorem new_buffer_power_of_two (new_extent : Z)
  (Hrange : 2 <= new_extent <= 2 ^ 30) :
  exists k,
    0 <= k /\
    new_buffer new_extent
    = Ok (2 ^ k, replicate (Z.to_nat (2 ^ k)) 0xff) /\
    new_extent <= 2 ^ k < 2 * new_extent /\
    (new_extent mod 4096 = 4095 -> new_extent < 2 ^ k).
Proof.
  unfold new_buffer.
  rewrite u32_small by lia.
  rewrite next_pow2_small by (unfold next_pow2_rounds; lia).
  pose proof (Z.log2_spec (new_extent - 1) ltac:(lia)) as Hlog.
  pose proof (Z.log2_nonneg (new_extent - 1)) as Hnn.
  replace (Z.succ (Z.log2 (new_extent - 1)))
    with (Z.log2 (new_extent - 1) + 1) in Hlog by lia.
  set (k := Z.log2 (new_extent - 1) + 1) in *.
  assert (Hk30 : Z.log2 (new_extent - 1) < 30).
  { apply Z.log2_lt_pow2; lia. }
  assert (Hpow : 2 ^ k = 2 * 2 ^ Z.log2 (new_extent - 1)).
  { subst k. rewrite Z.pow_add_r by lia. lia. }
  assert (Hk : 2 ^ k <= 2 ^ 30) by (apply Z.pow_le_mono_r; lia).
  exists k. split; [lia|].
  rewrite s32_small by lia.
  destruct (Z.ltb_spec (2 ^ k) 0); [lia|].
  split; [reflexivity|]. split; [lia|].
  intros Hmod.
  destruct (Z.eq_dec new_extent (2 ^ k)) as [Heq | Hne]; [exfalso | lia].
  assert (12 <= k).
  { destruct (Z_lt_le_dec k 12) as [Hlt|]; [exfalso | assumption].
    assert (2 ^ k <= 2 ^ 11) by (apply Z.pow_le_mono_r; lia).
    rewrite Z.mod_small in Hmod by lia. lia. }
  rewrite Heq in Hmod.
  replace k with ((k - 12) + 12) in Hmod by lia.
  rewrite Z.pow_add_r in Hmod by lia.
  change (2 ^ 12) with 4096 in Hmod.
  rewrite Z.mod_mul in Hmod by lia. discriminate.
Qed.

Lemma new_buffer_power_of_two_witness :
  exists k,
    0 <= k /\
    new_buffer 0x3fff = Ok (2 ^ k, replicate (Z.to_nat (2 ^ k)) 0xff) /\
    0x3fff <= 2 ^ k < 2 * 0x3fff /\
    (0x3fff mod 4096 = 4095 -> 0x3fff < 2 ^ k).
Proof. apply (new_buffer_power_of_two 0x3fff). lia. Defined.

(** X10.  At the edges of the extent: with no limit above 0 the argument of
    [next_pow2] wraps to a value from 2^31 on and the loop never leaves; with
    a limit of exactly 1 the buffer is empty; and above 2^30 the size 2^31
    does not fit the [int] handed to [malloc]. *)
Theorem new_buffer_edges (new_extent : Z)
  (Hint : - 2 ^ 31 < new_extent < 2 ^ 31) :
  (new_extent <= 0 -> new_buffer new_extent = Diverges) /\
  (new_extent = 1 -> new_buffer new_extent = Ok (0, [])) /\
  (2 ^ 30 < new_extent -> new_buffer new_extent = Undefined).
Proof.
  unfold new_buffer. split; [|split].
  - intros Hle.
    assert (u32 (new_extent - 1) = new_extent - 1 + 2 ^ 32) as ->.
    { unfold u32. symmetry. apply (Z.mod_unique _ _ (-1)); lia. }
    rewrite next_pow2_large by lia. reflexivity.
  - intros ->. reflexivity.
  - intros Hgt. rewrite u32_small by lia.
    rewrite next_pow2_small by (unfold next_pow2_rounds; lia).
    assert (Z.log2 (new_extent - 1) = 30) as ->.
    { apply Z.log2_unique; lia. }
    reflexivity.
Qed.

Lemma new_buffer_edges_witness :
  (0 <= 0 -> new_buffer 0 = Diverges) /\
  (0 = 1 -> new_buffer 0 = Ok (0, [])) /\
  (2 ^ 30 < 0 -> new_buffer 0 = Undefined).
Proof. apply (new_buffer_edges 0). lia. Defined.

End NewBuffer.

(** ** Names and slots *)

Section Catalog.

Lemma region_num_loop_spec name max : forall names i,
  0 <= i ->
  let n := region_num_loop names i max name in
  (n = -1 /\
   forall k names_k, i <= k < max -> names !! Z.to_nat (k - i) = Some names_k ->
     strcasecmp_eq name (fst names_k) = false /\
     strcasecmp_eq name (snd names_k) = false) \/
  (i <= n < max /\
   exists names_n, names !! Z.to_nat (n - i) = Some names_n /\
     (strcasecmp_eq name (fst names_n) = true \/
      strcasecmp_eq name (snd names_n) = true) /\
   forall k names_k, i <= k < n -> names !! Z.to_nat (k - i) = Some names_k ->
     strcasecmp_eq name (fst names_k) = false /\
     strcasecmp_eq name (snd names_k) = false).
Proof.
  induction names as [|[pretty terse] names IH]; intros i Hi n; subst n.
  - left. split; [reflexivity|]. intros k names_k _ Hk.
    rewrite lookup_nil in Hk. discriminate.
  - cbn [region_num_loop].
    destruct (Z.ltb_spec i max) as [Hlt | Hge].
    + destruct (strcasecmp_eq name pretty) eqn:Hp;
        [|destruct (strcasecmp_eq name terse) eqn:Ht].
      * right. split; [lia|]. exists (pretty, terse).
        replace (Z.to_nat (i - i)) with 0%nat by lia.
        split; [reflexivity|]. split; [now left|]. intros; lia.
      * right. split; [lia|]. exists (pretty, terse).
        replace (Z.to_nat (i - i)) with 0%nat by lia.
        split; [reflexivity|]. split; [now right|]. intros; lia.
      * assert (Hhead : forall k names_k, i <= k ->
                  ((pretty, terse) :: names) !! Z.to_nat (k - i)
                  = Some names_k ->
                  k = i /\ names_k = (pretty, terse) \/
                  i + 1 <= k /\
                  names !! Z.to_nat (k - (i + 1)) = Some names_k).
        { intros k names_k Hk Hlook.
          destruct (Z.eq_dec k i) as [-> | Hne].
          - replace (Z.to_nat (i - i)) with 0%nat in Hlook by lia.
            injection Hlook as <-. now left.
          - right. split; [lia|].
            replace (Z.to_nat (k - i)) with (S (Z.to_nat (k - (i + 1))))
              in Hlook by lia.
            exact Hlook. }
        destruct (IH (i + 1) ltac:(lia)) as [[Hn Hnone] | (Hn & Hfound)].
        -- left. split; [exact Hn|]. intros k names_k Hk Hlook.
           destruct (Hhead k names_k ltac:(lia) Hlook)
             as [[-> ->] | [Hk1 Hl1]]; [now split|].
           apply (Hnone k names_k); [lia | exact Hl1].
        -- right. split; [lia|].
           destruct Hfound as (names_n & Hlook & Hmatch & Hfirst).
           exists names_n.
           replace (Z.to_nat (region_num_loop names (i + 1) max name - i))
             with (S (Z.to_nat (region_num_loop names (i + 1) max name
                                - (i + 1)))) by lia.
           split; [exact Hlook|]. split; [exact Hmatch|].
           intros k names_k Hk Hlk.
           destruct (Hhead k names_k ltac:(lia) Hlk)
             as [[-> ->] | [Hk1 Hl1]]; [now split|].
           apply (Hfirst k names_k); [lia | exact Hl1].
    + left. split; [reflexivity|]. intros; lia.
Qed.

Lemma region_num_spec (g : globals) (name : string) :
  let n := region_num g name in
  (n = -1 /\
   forall k names_k, 0 <= k < max_regions g ->
     region_names !! Z.to_nat k = Some names_k ->
     strcasecmp_eq name (fst names_k) = false /\
     strcasecmp_eq name (snd names_k) = false) \/
  (0 <= n < max_regions g /\
   exists names_n, region_names !! Z.to_nat n = Some names_n /\
     (strcasecmp_eq name (fst names_n) = true \/
      strcasecmp_eq name (snd names_n) = true) /\
   forall k names_k, 0 <= k < n ->
     region_names !! Z.to_nat k = Some names_k ->
     strcasecmp_eq name (fst names_k) = false /\
     strcasecmp_eq name (snd names_k) = false).
Proof.
  intros n. subst n. unfold region_num.
  destruct (region_num_loop_spec name (max_regions g) region_names 0
              ltac:(lia)) as [[Hn Hnone] | (Hn & names_n & Hl & Hm & Hf)].
  - left. split; [exact Hn|]. intros k names_k Hk Hlook.
    apply (Hnone k names_k Hk). now rewrite Z.sub_0_r.
  - right. rewrite Z.sub_0_r in Hl. split; [exact Hn|].
    exists names_n. split; [exact Hl|]. split; [exact Hm|].
    intros k names_k Hk Hlook.
    apply (Hf k names_k Hk). now rewrite Z.sub_0_r.
Qed.

(** X11.  [region_num] returns -1 when no catalog entry below [max_regions]
    bears the name, and otherwise the first slot below [max_regions] whose
    long or short name is the given one up to the case of letters. *)
Theorem region_num_first_match (g : globals) (name : string) :
  let n := region_num g name in
  (n = -1 /\
   forall k names_k, 0 <= k < max_regions g ->
     region_names !! Z.to_nat k = Some names_k ->
     strcasecmp_eq name (fst names_k) = false /\
     strcasecmp_eq name (snd names_k) = false) \/
  (0 <= n < max_regions g /\ n < 9 /\
   exists names_n, region_names !! Z.to_nat n = Some names_n /\
     (strcasecmp_eq name (fst names_n) = true \/
      strcasecmp_eq name (snd names_n) = true) /\
   forall k names_k, 0 <= k < n ->
     region_names !! Z.to_nat k = Some names_k ->
     strcasecmp_eq name (fst names_k) = false /\
     strcasecmp_eq name (snd names_k) = false).
Proof.
  intros n.
  destruct (region_num_spec g name)
    as [Hnone | (Hn & names_n & Hl & Hm & Hf)]; [now left|].
  right. split; [exact Hn|]. split.
  - apply lookup_lt_Some in Hl. cbn [length region_names] in Hl.
    fold n in Hl. lia.
  - exists names_n. auto.
Qed.

Lemma region_name_short_inv g i s :
  region_name_short g i = Ok s ->
  0 <= i < max_regions g /\
  exists pretty, region_names !! Z.to_nat i = Some (pretty, s).
Proof.
  unfold region_name_short.
  destruct (Z.ltb_spec i 0); [discriminate|].
  destruct (Z.geb_spec i (max_regions g)); [discriminate|].
  cbn [orb].
  destruct (region_names !! Z.to_nat i) as [[pretty terse]|] eqn:Hl;
    [|discriminate].
  intros [= <-]. split; [lia|]. eauto.
Qed.

(** The first slot that bears a name is what [region_num] returns. *)
Lemma region_num_unique g name f names_f :
  0 <= f < max_regions g ->
  region_names !! Z.to_nat f = Some names_f ->
  strcasecmp_eq name (fst names_f) || strcasecmp_eq name (snd names_f)
  = true ->
  forallb (fun names_k => negb (strcasecmp_eq name (fst names_k)
                                || strcasecmp_eq name (snd names_k)))
    (take (Z.to_nat f) region_names) = true ->
  region_num g name = f.
Proof.
  intros Hf Hlook Hmatch Hbefore.
  rewrite forallb_forall in Hbefore.
  destruct (region_num_spec g name)
    as [[_ Hnone] | (Hn & names_n & Hln & Hm & Hfirst)].
  - exfalso. destruct (Hnone f names_f Hf Hlook) as [H1 H2].
    rewrite H1, H2 in Hmatch. discriminate.
  - destruct (Z_lt_le_dec (region_num g name) f) as [Hlt | Hge].
    + exfalso.
      assert (take (Z.to_nat f) region_names !! Z.to_nat (region_num g name)
              = Some names_n) as Hin
        by (rewrite lookup_take_lt by lia; exact Hln).
      apply list_elem_of_lookup_2, list_elem_of_In, Hbefore in Hin.
      destruct Hm as [Hm | Hm]; rewrite Hm in Hin;
        rewrite ?orb_true_r in Hin; discriminate.
    + destruct (Z.eq_dec (region_num g name) f) as [|Hne]; [assumption|].
      exfalso. destruct (Hfirst f names_f ltac:(lia) Hlook) as [H1 H2].
      rewrite H1, H2 in Hmatch. discriminate.
Qed.

(** X12.  From a slot to its names and back. For every slot below
    [max_regions] (at most 9), [region_num] of its short name is the slot;
    [region_num] of its long name is the slot too, except for the slots 6 and
    7, whose long name "Reserved" is found at slot 5 first. *)
Theorem region_names_back_to_slot (g : globals) (region_type : Z)
  (Hi : 0 <= region_type < max_regions g)
  (Hmax : max_regions g <= 9) :
  exists pretty terse,
    region_name g region_type = Ok pretty /\
    region_name_short g region_type = Ok terse /\
    region_num g terse = region_type /\
    region_num g pretty
    = (if (region_type =? 6) || (region_type =? 7) then 5 else region_type).
Proof.
  unfold region_name, region_name_short.
  destruct (Z.ltb_spec region_type 0); [lia|].
  destruct (Z.geb_spec region_type (max_regions g)); [lia|].
  cbn [orb].
  assert (region_type = 0 \/ region_type = 1 \/ region_type = 2
          \/ region_type = 3 \/ region_type = 4 \/ region_type = 5
          \/ region_type = 6 \/ region_type = 7 \/ region_type = 8)
    as Hcases by lia.
  decompose [or] Hcases; subst region_type;
    (eexists _, _; split; [reflexivity|]; split; [reflexivity|];
     split;
     [ eapply region_num_unique; [lia | reflexivity | reflexivity
                                 | reflexivity]
     | cbn [Z.eqb Pos.eqb orb];
       eapply region_num_unique; [lia | reflexivity | reflexivity
                                 | reflexivity] ]).
Qed.

Lemma region_names_back_to_slot_witness :
  exists pretty terse,
    region_name g_v2 7 = Ok pretty /\
    region_name_short g_v2 7 = Ok terse /\
    region_num g_v2 terse = 7 /\
    region_num g_v2 pretty = (if (7 =? 6) || (7 =? 7) then 5 else 7).
Proof.
  apply (region_names_back_to_slot g_v2 7);
    unfold g_v2, MAX_REGIONS; simpl; lia.
Defined.

Lemma region_num_short g i s :
  max_regions g <= 9 ->
  region_name_short g i = Ok s -> region_num g s = i.
Proof.
  intros Hmax Hs.
  assert (0 <= i < max_regions g) as Hi.
  { unfold region_name_short in Hs.
    destruct (Z.ltb_spec i 0); [discriminate|].
    destruct (Z.geb_spec i (max_regions g)); [discriminate|]. lia. }
  unfold region_name_short in Hs.
  destruct (Z.ltb_spec i 0); [lia|].
  destruct (Z.geb_spec i (max_regions g)); [lia|].
  cbn [orb] in Hs.
  assert (i = 0 \/ i = 1 \/ i = 2 \/ i = 3 \/ i = 4 \/ i = 5 \/ i = 6
          \/ i = 7 \/ i = 8) as Hcases by lia.
  decompose [or] Hcases; subst i; injection Hs as <-;
    eapply region_num_unique;
    first [lia | reflexivity].
Qed.

End Catalog.

(** ** The region table of [new_layout] *)

Section RegionTable.

Lemma get_region_ok g frba i r : get_region g frba i = Ok r -> region_ok r.
Proof.
  intros H.
  destruct (get_region_of_register _ _ _ _ H)
    as (v & _ & _ & _ & Hs & Hb & Hl).
  unfold region_ok. repeat split; try lia.
  rewrite Hs, s32_small by lia.
  destruct (Z.ltb_spec (limit r - base r + 1) 0); lia.
Qed.

Lemma load_regions_spec g frba : forall idxs regions,
  load_regions g frba idxs = Ok regions ->
  length regions = length idxs /\
  forall (k : nat) i, idxs !! k = Some i ->
    exists r, get_region g frba i = Ok r /\ regions !! k = Some r.
Proof.
  induction idxs as [|i0 idxs IH]; intros regions H.
  - injection H as <-. split; [reflexivity|]. intros k i Hk.
    rewrite lookup_nil in Hk. discriminate.
  - cbn [load_regions] in H.
    destruct (get_region g frba i0) as [r0| | |] eqn:H0; try discriminate.
    cbn [mbind res_bind] in H.
    destruct (load_regions g frba idxs) as [rs| | |] eqn:Hrs;
      try discriminate.
    cbn [mbind res_bind] in H. injection H as <-.
    destruct (IH rs eq_refl) as [Hlen Hall].
    split; [cbn [length]; lia|].
    intros [|k] i Hk.
    + injection Hk as <-. eauto.
    + apply (Hall k i Hk).
Qed.

Lemma load_regions_ok g frba idxs regions :
  load_regions g frba idxs = Ok regions -> Forall region_ok regions.
Proof.
  intros H. destruct (load_regions_spec _ _ _ _ H) as [Hlen Hall].
  apply Forall_lookup_2. intros k r Hr.
  assert (is_Some (idxs !! k)) as [i Hi].
  { apply lookup_lt_is_Some. apply lookup_lt_Some in Hr. lia. }
  destruct (Hall k i Hi) as (r' & Hget & Hr').
  rewrite Hr in Hr'. injection Hr' as <-.
  exact (get_region_ok _ _ _ _ Hget).
Qed.

Lemma apply_layout_entry_keeps g regions le regions' :
  apply_layout_entry g regions le = Ok regions' ->
  length regions' = length regions /\
  (Forall region_ok regions -> Forall region_ok regions').
Proof.
  unfold apply_layout_entry.
  destruct (region_num g (layout_region_name le) <? 0).
  - intros [= <-]. auto.
  - destruct (tstr1 le) as [v1|]; [|discriminate].
    destruct (tstr2 le) as [v2|]; [|discriminate].
    intros [= <-]. split; [apply length_insert|].
    intros Hok.
    destruct (decide (Z.to_nat (region_num g (layout_region_name le))
                      < length regions)%nat) as [Hlt | Hge].
    + apply Forall_insert; [exact Hok|].
      unfold region_ok. cbn [base limit size].
      pose proof (s32_range v1). pose proof (s32_range v2).
      repeat split; try lia.
      destruct (Z.ltb_spec (s32 (s32 v2 - s32 v1 + 1)) 0); lia.
    + rewrite list_insert_ge by lia. exact Hok.
Qed.

Lemma read_layout_keeps g : forall entries regions regions',
  read_layout g regions entries = Ok regions' ->
  length regions' = length regions /\
  (Forall region_ok regions -> Forall region_ok regions').
Proof.
  induction entries as [|le entries IH]; intros regions regions' H.
  - injection H as <-. auto.
  - cbn [read_layout] in H.
    destruct (apply_layout_entry g regions le) as [regions1| | |] eqn:H1;
      try discriminate.
    cbn [mbind res_bind] in H.
    destruct (apply_layout_entry_keeps _ _ _ _ H1) as [Hlen1 Hok1].
    destruct (IH _ _ H) as [Hlen Hok].
    split; [lia | auto].
Qed.

(** X13.  The table [new_layout] checks and copies from. Loaded from the
    region section and overridden by any layout file, it has one entry per
    slot, and in every entry the size is [limit - base + 1] as an [int], or 0
    where that is negative: a region is never given a negative size. *)
Theorem region_table_keeps_its_shape (g : globals) (frba : frba_t)
  (entries : list layout_entry) (current_regions new_regions : list region_t)
  (Hload : load_regions g frba (seqZ 0 (max_regions g)) = Ok current_regions)
  (Hread : read_layout g current_regions entries = Ok new_regions) :
  length new_regions = Z.to_nat (max_regions g) /\
  Forall region_ok new_regions /\
  Forall (fun r => 0 <= size r < 2 ^ 31) new_regions.
Proof.
  destruct (load_regions_spec _ _ _ _ Hload) as [Hlen _].
  rewrite length_seqZ in Hlen.
  destruct (read_layout_keeps _ _ _ _ Hread) as [Hlen' Hok].
  specialize (Hok (load_regions_ok _ _ _ _ Hload)).
  split; [lia|]. split; [exact Hok|].
  eapply Forall_impl; [exact Hok|].
  intros r (_ & _ & Hs). pose proof (s32_range (limit r - base r + 1)). lia.
Qed.

Lemma region_table_keeps_its_shape_witness :
  let frba := Frba 0 0x00010001 0xfff 0xfff 0x1fff 0 0 0 0 in
  let entries := [Layout_entry (Some 0x3000) (Some 0x1fff) "bios"] in
  let new_regions :=
    <[1%nat := {| base := 0x3000; limit := 0x1fff; size := 0 |}]>
      sample_regions_v1 in
  length new_regions = Z.to_nat (max_regions g_v1) /\
  Forall region_ok new_regions /\
  Forall (fun r => 0 <= size r < 2 ^ 31) new_regions.
Proof.
  intros frba entries new_regions.
  apply (region_table_keeps_its_shape g_v1 frba entries sample_regions_v1
           new_regions); reflexivity.
Defined.

Lemma region_at_in_range (regions : list region_t) i :
  0 <= i < Z.of_nat (length regions) ->
  exists r, region_at regions i = Ok r /\ regions !! Z.to_nat i = Some r.
Proof.
  intros Hi. unfold region_at.
  destruct (Z.ltb_spec i 0); [lia|].
  destruct (regions !! Z.to_nat i) as [r|] eqn:Hr; [eauto|].
  apply lookup_ge_None in Hr. lia.
Qed.

Lemma check_layout_all_disabled g current_regions new_regions :
  Forall (fun r => size r = 0) new_regions ->
  forall idxs e0,
  Forall (fun i => 0 <= i < Z.of_nat (length new_regions)
                   /\ i < Z.of_nat (length current_regions)) idxs ->
  check_layout g current_regions new_regions idxs e0 = Ok e0.
Proof.
  intros Hzero. induction idxs as [|i idxs IH]; intros e0 Hidx.
  - reflexivity.
  - apply Forall_cons in Hidx as [[Hi Hic] Hidx].
    cbn [check_layout].
    destruct (region_at_in_range new_regions i Hi) as (rn & -> & Hn).
    destruct (region_at_in_range current_regions i ltac:(lia))
      as (rc & -> & _).
    cbn [mbind res_bind].
    rewrite Forall_lookup in Hzero. rewrite (Hzero _ _ Hn).
    cbn [Z.eqb]. apply IH. exact Hidx.
Qed.

(** X14.  A layout that leaves every slot with size 0 makes [new_layout] loop
    for ever: the extent stays 0, [next_pow2] is called on [0 - 1] as an
    [unsigned int], and its loop has no exit for such a value. No file is
    created. *)
Theorem new_layout_all_disabled_never_ends (e : env) (g : globals)
  (filename : string) (image : image_t) (fs : files) (frba : frba_t)
  (entries : list layout_entry) (current_regions new_regions : list region_t)
  (Hfrba : (off ← locate_frba image; load_frba image off) = Ok frba)
  (Hload : load_regions g frba (seqZ 0 (max_regions g)) = Ok current_regions)
  (Hfile : layout_file e = Some entries)
  (Hread : read_layout g current_regions entries = Ok new_regions)
  (Hzero : forallb (fun r => size r =? 0) new_regions = true) :
  new_layout e g filename image fs = (Diverges, fs).
Proof.
  destruct (load_regions_spec _ _ _ _ Hload) as [Hlen _].
  rewrite length_seqZ in Hlen.
  destruct (read_layout_keeps _ _ _ _ Hread) as [Hlen' _].
  assert (Hz : Forall (fun r => size r = 0) new_regions).
  { rewrite forallb_forall in Hzero. apply Forall_forall.
    intros r Hr. apply list_elem_of_In, Hzero in Hr. lia. }
  assert (Hcheck : check_layout g current_regions new_regions
                     (seqZ 0 (max_regions g)) 0 = Ok 0).
  { apply check_layout_all_disabled; [exact Hz|].
    apply Forall_forall. intros i Hi. apply elem_of_seqZ in Hi. lia. }
  unfold new_layout.
  rewrite Hfrba, bind_lift_ok, Hload, !bind_lift_ok, Hfile, bind_ret.
  rewrite Hread, bind_lift_ok, Hcheck, bind_lift_ok.
  reflexivity.
Qed.

Lemma new_layout_all_disabled_never_ends_witness :
  new_layout
    (sample_env [Layout_entry (Some 0x1000) (Some 0) "fd";
                 Layout_entry (Some 0x1000) (Some 0) "bios"])
    g_v1 "rom" sample_v1 [] = (Diverges, []).
Proof.
  apply (new_layout_all_disabled_never_ends _ g_v1 "rom" sample_v1 []
           (Frba 0 0x00010001 0x00000fff 0x00000fff 0x00001fff
              0xffffffff 0xffffffff 0xffffffff 0xffffffff)
           [Layout_entry (Some 0x1000) (Some 0) "fd";
            Layout_entry (Some 0x1000) (Some 0) "bios"]
           sample_regions_v1
           (<[0%nat := {| base := 0x1000; limit := 0; size := 0 |}]>
              (<[1%nat := {| base := 0x1000; limit := 0; size := 0 |}]>
                 sample_regions_v1)));
    [vm_compute; reflexivity | reflexivity | reflexivity | reflexivity
    | reflexivity].
Defined.

End RegionTable.

(** ** A dumped layout read back *)

Section LayoutRoundTrip.

Lemma apply_dumped_line g frba regions i line :
  max_regions g <= 9 ->
  dump_region_layout g frba i = Ok line ->
  (exists r, get_region g frba i = Ok r /\
             regions !! Z.to_nat i = Some r) ->
  apply_layout_entry g regions (scan_dumped_line line) = Ok regions.
Proof.
  intros Hmax Hline (r & Hget & Hlook).
  unfold dump_region_layout in Hline. rewrite Hget in Hline.
  cbn [mbind res_bind] in Hline.
  destruct (region_name_short g i) as [name| | |] eqn:Hname;
    try discriminate.
  cbn [mbind res_bind] in Hline. injection Hline as <-.
  unfold apply_layout_entry, scan_dumped_line.
  cbn [tstr1 tstr2 layout_region_name].
  rewrite (region_num_short g i name Hmax Hname).
  destruct (region_name_short_inv g i name Hname) as (Hi & _).
  destruct (Z.ltb_spec i 0); [lia|].
  destruct (get_region_of_register _ _ _ _ Hget)
    as (v & _ & _ & _ & Hs & Hb & Hl).
  rewrite !u32_small, !s32_small by lia.
  f_equal. apply list_insert_id. rewrite Hlook. f_equal.
  destruct r as [rb rl rs]. cbn [base limit size] in *. now subst rs.
Qed.

Lemma read_dumped_lines g frba regions :
  max_regions g <= 9 ->
  forall idxs lines,
  dump_layout_lines g frba idxs = Ok lines ->
  Forall (fun i => exists r, get_region g frba i = Ok r /\
                             regions !! Z.to_nat i = Some r) idxs ->
  read_layout g regions (scan_dumped_line <$> lines) = Ok regions.
Proof.
  intros Hmax. induction idxs as [|i idxs IH]; intros lines Hdump Hall.
  - injection Hdump as <-. reflexivity.
  - cbn [dump_layout_lines] in Hdump.
    destruct (dump_region_layout g frba i) as [line| | |] eqn:Hline;
      try discriminate.
    cbn [mbind res_bind] in Hdump.
    destruct (dump_layout_lines g frba idxs) as [rest| | |] eqn:Hrest;
      try discriminate.
    cbn [mbind res_bind] in Hdump. injection Hdump as <-.
    apply Forall_cons in Hall as [Hi Hall].
    cbn [fmap list_fmap read_layout].
    rewrite (apply_dumped_line g frba regions i line Hmax Hline Hi).
    cbn [mbind res_bind]. apply (IH rest eq_refl Hall).
Qed.

(** X15.  A layout dumped from an image and read back by [new_layout] on the
    same image leaves the region table as it was, base, limit and size of
    every slot; the text of the file is taken as [scan_dumped_line] has it. *)
Theorem dumped_layout_read_back_changes_nothing (g : globals)
  (frba : frba_t) (regions : list region_t) (lines : list (Z * Z * string))
  (Hmax : max_regions g <= 9)
  (Hload : load_regions g frba (seqZ 0 (max_regions g)) = Ok regions)
  (Hdump : dump_layout_lines g frba (seqZ 0 (max_regions g)) = Ok lines) :
  read_layout g regions (scan_dumped_line <$> lines) = Ok regions.
Proof.
  apply (read_dumped_lines g frba regions Hmax _ lines Hdump).
  destruct (load_regions_spec _ _ _ _ Hload) as [_ Hall].
  apply Forall_forall. intros i Hi.
  apply elem_of_seqZ in Hi.
  destruct (Hall (Z.to_nat i) i) as (r & Hget & Hlook).
  - rewrite lookup_seqZ. split; lia.
  - eauto.
Qed.

Lemma dumped_layout_read_back_changes_nothing_witness :
  let frba := Frba 0 0x00010001 0xfff 0xfff 0x1fff 0 0 0 0 in
  let lines :=
    [ (0, 0xfff, "fd"); (0x1000, 0x1fff, "bios"); (0xfff000, 0xfff, "me");
      (0xfff000, 0xfff, "gbe"); (0xfff000, 0xfff, "pd") ]%string in
  dump_layout_lines g_v1 frba (seqZ 0 (max_regions g_v1)) = Ok lines /\
  read_layout g_v1 sample_regions_v1 (scan_dumped_line <$> lines)
  = Ok sample_regions_v1.
Proof.
  intros frba lines. split; [reflexivity|].
  apply (dumped_layout_read_back_changes_nothing g_v1 frba
           sample_regions_v1 lines);
    [unfold g_v1, MAX_REGIONS_OLD; simpl; lia | reflexivity | reflexivity].
Defined.

End LayoutRoundTrip.

(** ** Lock and unlock as operations on the master section *)

Section LockAlgebra.

Lemma low_byte_low_byte w : Z.land (Z.land w 0xff) 0xff = Z.land w 0xff.
Proof. rewrite <- Z.land_assoc. reflexivity. Qed.

Lemma locked_word_masked w rd wr :
  low_byte rd = 0 -> low_byte wr = 0 ->
  Z.land (Z.lor (Z.lor (Z.land w 0xff) rd) wr) 0xff = Z.land w 0xff.
Proof. intros Hrd Hwr. exact (locked_word_low_byte w rd wr Hrd Hwr). Qed.

Lemma unlocked_word_masked w :
  Z.land (Z.lor 0xffffff00 (Z.land w 0xff)) 0xff = Z.land w 0xff.
Proof. exact (unlocked_word_low_byte w). Qed.

(** X16.  For both versions: unlocking a locked descriptor gives what
    unlocking the original gives, locking an unlocked one what locking the
    original gives, and either operation done twice is the same as done once.
    What a master section holds after lock or unlock depends on its former
    content through the low byte of the first three words (version 2) and the
    last two words only. *)
Theorem lock_unlock_absorb (g : globals) (fmba : fmba_t) :
  unlock_fmba g (lock_fmba g fmba) = unlock_fmba g fmba /\
  lock_fmba g (unlock_fmba g fmba) = lock_fmba g fmba /\
  lock_fmba g (lock_fmba g fmba) = lock_fmba g fmba /\
  unlock_fmba g (unlock_fmba g fmba) = unlock_fmba g fmba.
Proof.
  unfold unlock_fmba, lock_fmba.
  destruct (ge_version_2 (ifd_version g));
    cbn [flmstr1 flmstr2 flmstr3 flmstr4 flmstr5];
    [|repeat split; reflexivity].
  rewrite !locked_word_masked by reflexivity.
  rewrite ?unlocked_word_masked, ?low_byte_low_byte.
  repeat split; reflexivity.
Qed.

End LockAlgebra.

(** ** More on injection *)

Section InjectionMore.

Lemma region_name_in_range g i :
  0 <= i < max_regions g -> max_regions g <= 9 ->
  exists s, region_name g i = Ok s.
Proof.
  intros Hi Hmax. unfold region_name.
  destruct (Z.ltb_spec i 0); [lia|].
  destruct (Z.geb_spec i (max_regions g)); [lia|]. cbn [orb].
  destruct (region_names !! Z.to_nat i) as [names|] eqn:Hl; [eauto|].
  apply lookup_ge_None in Hl. cbn [length region_names] in Hl. lia.
Qed.

Lemma region_name_out_of_range g i :
  ~ (0 <= i < max_regions g) -> region_name g i = Exit Invalid_region_type.
Proof.
  intros Hi. unfold region_name.
  destruct (Z.ltb_spec i 0); [reflexivity|].
  destruct (Z.geb_spec i (max_regions g)); [reflexivity|]. lia.
Qed.

Lemma inject_at_base e g filename image region_type fs frba region content :
  (off ← locate_frba image; load_frba image off) = Ok frba ->
  get_region g frba region_type = Ok region ->
  0 <= region_type < max_regions g -> max_regions g <= 9 ->
  0xfff < size region ->
  region_file_open e = true ->
  region_file_stat e = Some (Z.of_nat (length content)) ->
  region_file_data e = content ->
  Z.of_nat (length content) <= region_file_read e ->
  Z.of_nat (length content) <= size region ->
  region_type <> 1 \/ Z.of_nat (length content) = size region ->
  base region + Z.of_nat (length content) <= image_size image ->
  output_open e = true ->
  inject_region e g filename image region_type fs
  = (Ok tt,
     ((filename ++ ".new")%string,
      take (Z.to_nat (Z.min (image_size image) (output_write e)))
        (take (Z.to_nat (base region)) image ++ content
         ++ drop (Z.to_nat (base region) + length content) image)) :: fs).
Proof.
  intros Hfrba Hregion Hrt Hmax Henabled Hopen Hstat Hdata Hread Hle Hcase
    Hfits Hout.
  destruct (get_region_shape _ _ _ _ Hregion) as (Hb & Hl & Hs & _).
  destruct (region_name_in_range g region_type Hrt Hmax) as [rname Hname].
  unfold inject_region.
  rewrite Hfrba, bind_lift_ok, Hregion, bind_lift_ok.
  destruct (Z.leb_spec (size region) 0xfff); [lia|]. rewrite bind_ret.
  rewrite Hopen, bind_ret, Hstat, bind_ret.
  rewrite (s32_small (Z.of_nat (length content))) by lia.
  destruct (Z.gtb_spec (Z.of_nat (length content)) (size region)); [lia|].
  rewrite andb_false_r. cbn [orb]. rewrite bind_ret.
  assert ((region_type =? 1)
          && (Z.of_nat (length content) <? size region) = false) as ->.
  { apply andb_false_iff.
    destruct Hcase as [Hne | Heq]; [left; lia | right; lia]. }
  rewrite bind_ret.
  rewrite (s32_small (base region + 0 + _)) by lia.
  destruct (Z.ltb_spec (image_size image)
              (base region + 0 + Z.of_nat (length content))); [lia|].
  rewrite bind_ret.
  assert (Hfile : read_region_file e (Z.of_nat (length content)) = content).
  { unfold read_region_file. rewrite Hdata, Z.min_l by lia.
    apply take_ge. lia. }
  cbv zeta. rewrite Hfile, Z.eqb_refl, bind_ret.
  rewrite blit_ok by lia.
  rewrite bind_lift_ok, Hname, bind_lift_ok.
  unfold write_image. rewrite Hout.
  replace (Z.to_nat (base region + 0)) with (Z.to_nat (base region)) by lia.
  reflexivity.
Qed.

(** X17.  Injection without padding. A file no larger than the region, into a
    region other than BIOS or of exactly the size of the BIOS region, is
    stored from [region.base] on; the image written is the old one with these
    bytes replaced, and the rest of a larger region keeps its old bytes. A
    smaller file is accepted for every region, not for BIOS only. *)
Theorem inject_stores_file_at_region_base (e : env) (g : globals)
  (filename : string) (image : image_t) (region_type : Z) (fs : files)
  (frba : frba_t) (region : region_t) (content : list Z)
  (Hfrba : (off ← locate_frba image; load_frba image off) = Ok frba)
  (Hregion : get_region g frba region_type = Ok region)
  (Hrt : 0 <= region_type < max_regions g)
  (Hmax : max_regions g <= 9)
  (Henabled : 0xfff < size region)
  (Hopen : region_file_open e = true)
  (Hstat : region_file_stat e = Some (Z.of_nat (length content)))
  (Hdata : region_file_data e = content)
  (Hread : Z.of_nat (length content) <= region_file_read e)
  (Hle : Z.of_nat (length content) <= size region)
  (Hcase : region_type <> 1 \/ Z.of_nat (length content) = size region)
  (Hfits : base region + Z.of_nat (length content) <= image_size image)
  (Hout : output_open e = true) :
  let image' :=
    take (Z.to_nat (base region)) image ++ content
    ++ drop (Z.to_nat (base region) + length content) image in
  inject_region e g filename image region_type fs
  = (Ok tt,
     ((filename ++ ".new")%string,
      take (Z.to_nat (Z.min (image_size image) (output_write e))) image')
       :: fs) /\
  length image' = length image.
Proof.
  intros image'. split.
  - now apply (inject_at_base e g filename image region_type fs frba region
                 content).
  - destruct (get_region_shape _ _ _ _ Hregion) as (Hb & _).
    subst image'. unfold image_size in Hfits.
    rewrite !length_app, length_take, length_drop. lia.
Qed.

(** The region file of 3000 bytes goes into the descriptor region (slot 0,
    4096 bytes) of the sample: it replaces the first 3000 bytes, signature
    included, and the last 1096 bytes of the region stay. *)
Lemma inject_stores_file_at_region_base_witness :
  let region := {| base := 0; limit := 0xfff; size := 0x1000 |} in
  let image' :=
    take (Z.to_nat (base region)) sample_v1 ++ sample_content
    ++ drop (Z.to_nat (base region) + length sample_content) sample_v1 in
  inject_region (sample_env []) g_v1 "rom" sample_v1 0 []
  = (Ok tt,
     [(("rom" ++ ".new")%string,
       take (Z.to_nat (Z.min (image_size sample_v1)
                         (output_write (sample_env [])))) image')]) /\
  length image' = length sample_v1.
Proof.
  intros region image'.
  apply (inject_stores_file_at_region_base (sample_env []) g_v1 "rom"
           sample_v1 0 []
           (Frba 0 0x00010001 0x00000fff 0x00000fff 0x00001fff
              0xffffffff 0xffffffff 0xffffffff 0xffffffff)
           region sample_content);
    [ vm_compute; reflexivity | reflexivity
    | unfold g_v1, MAX_REGIONS_OLD; simpl; lia
    | unfold g_v1, MAX_REGIONS_OLD; simpl; lia
    | reflexivity | reflexivity | reflexivity | reflexivity
    | vm_compute; discriminate | vm_compute; discriminate
    | left; lia | vm_compute; discriminate | reflexivity ].
Defined.

(** X18.  Extraction then injection. The bytes [write_regions] writes for an
    enabled region, injected back into that region of the same image, give the
    image again. *)
Theorem inject_extracted_region_gives_image_back (e : env) (g : globals)
  (filename : string) (image : image_t) (region_type : Z) (fs : files)
  (frba : frba_t) (region : region_t)
  (Hfrba : (off ← locate_frba image; load_frba image off) = Ok frba)
  (Hregion : get_region g frba region_type = Ok region)
  (Hrt : 0 <= region_type < max_regions g)
  (Hmax : max_regions g <= 9)
  (Henabled : 0 < size region)
  (Hfits : base region + size region <= image_size image)
  (Hopen : region_file_open e = true)
  (Hstat : region_file_stat e = Some (size region))
  (Hdata : region_file_data e = region_bytes image region)
  (Hread : size region <= region_file_read e)
  (Hout : output_open e = true)
  (Hwrite : image_size image <= output_write e) :
  inject_region e g filename image region_type fs
  = (Ok tt, ((filename ++ ".new")%string, image) :: fs).
Proof.
  destruct (get_region_shape _ _ _ _ Hregion) as (Hb & Hl & Hs & Hsz).
  assert (Hlen : Z.of_nat (length (region_bytes image region)) = size region).
  { unfold region_bytes. unfold image_size in Hfits.
    rewrite length_take, length_drop. lia. }
  assert (Hbig : 0xfff < size region).
  { specialize (Hsz Henabled).
    destruct (get_region_of_register _ _ _ _ Hregion)
      as (v & _ & Hbv & Hlv & _).
    cbv zeta in Hbv, Hlv.
    assert (base region mod 4096 = 0) as Hbm.
    { rewrite Hbv, Z.shiftl_mul_pow2 by lia. apply Z.mod_mul. lia. }
    assert (limit region mod 4096 = 4095) as Hlm.
    { change 4096 with (2 ^ 12). rewrite <- Z.land_ones by lia. rewrite Hlv.
      change 4095 with (Z.ones 12). bit_blast. }
    pose proof (Z.div_mod (base region) 4096 ltac:(lia)).
    pose proof (Z.div_mod (limit region) 4096 ltac:(lia)). lia. }
  rewrite (inject_at_base e g filename image region_type fs frba region
             (region_bytes image region));
    try assumption; try lia.
  - do 3 f_equal.
    replace (length (region_bytes image region))
      with (Z.to_nat (size region)) by lia.
    unfold region_bytes.
    rewrite <- drop_drop.
    rewrite (take_drop (Z.to_nat (size region))
               (drop (Z.to_nat (base region)) image)).
    rewrite take_drop.
    apply take_ge. unfold image_size in *. lia.
  - now rewrite Hlen.
Qed.

Lemma inject_extracted_region_gives_image_back_witness :
  let region := {| base := 0x1000; limit := 0x1fff; size := 0x1000 |} in
  let e := {| region_file_open := true;
              region_file_stat := Some 0x1000;
              region_file_data := region_bytes sample_v1 region;
              region_file_read := 0x7fffffff;
              layout_file := None;
              output_open := true;
              output_write := 0x7fffffff |} in
  inject_region e g_v1 "rom" sample_v1 1 []
  = (Ok tt, [(("rom" ++ ".new")%string, sample_v1)]).
Proof.
  intros region e.
  apply (inject_extracted_region_gives_image_back e g_v1 "rom" sample_v1 1
           []
           (Frba 0 0x00010001 0x00000fff 0x00000fff 0x00001fff
              0xffffffff 0xffffffff 0xffffffff 0xffffffff)
           region);
    [ vm_compute; reflexivity | reflexivity
    | unfold g_v1, MAX_REGIONS_OLD; simpl; lia
    | unfold g_v1, MAX_REGIONS_OLD; simpl; lia
    | unfold region; simpl; lia | vm_compute; discriminate
    | reflexivity | reflexivity | reflexivity
    | vm_compute; discriminate | reflexivity | vm_compute; discriminate ].
Defined.

End InjectionMore.

(** ** What injection refuses *)

Section InjectionRefusals.

(** X19.  With a slot outside [0, max_regions) - the EC slot 8 on a version 1
    image, say - [inject_region] never returns and creates no file: if nothing
    stops it earlier, the [region_name] of its last message does. *)
Theorem inject_region_unknown_slot_never_writes (e : env) (g : globals)
  (filename : string) (image : image_t) (region_type : Z) (fs : files)
  (Hrt : ~ (0 <= region_type < max_regions g)) :
  is_ok (fst (inject_region e g filename image region_type fs)) = false /\
  snd (inject_region e g filename image region_type fs) = fs.
Proof.
  assert (Hnever : never_returns
                     (inject_region e g filename image region_type)).
  { unfold inject_region.
    cbv zeta.
    do 6 (apply never_returns_bind_r; intros ?).
    apply never_returns_bind_r. intros [offset image'].
    do 3 (apply never_returns_bind_r; intros ?).
    apply never_returns_bind_l, never_returns_lift.
    now rewrite region_name_out_of_range. }
  specialize (Hnever fs).
  pose proof (inject_region_only_on_success e g filename image region_type fs)
    as Hfiles.
  destruct (inject_region e g filename image region_type fs)
    as [[[] | f | | ] fs']; simpl in *; try discriminate; auto.
Qed.

Lemma inject_region_unknown_slot_never_writes_witness :
  is_ok (fst (inject_region (sample_env []) g_v1 "rom" sample_v1 8 []))
  = false /\
  snd (inject_region (sample_env []) g_v1 "rom" sample_v1 8 []) = [].
Proof.
  apply (inject_region_unknown_slot_never_writes (sample_env []) g_v1 "rom"
           sample_v1 8 []).
  unfold g_v1, MAX_REGIONS_OLD. simpl. lia.
Defined.

(** X20.  What [inject_region] refuses once the region is decoded, for a slot
    below [max_regions]: a region of at most 0xFFF bytes is reported disabled;
    a file larger than the region is refused for every region, BIOS included.
    Neither creates a file. *)
Theorem inject_region_refusals (e : env) (g : globals) (filename : string)
  (image : image_t) (region_type : Z) (fs : files) (frba : frba_t)
  (region : region_t)
  (Hfrba : (off ← locate_frba image; load_frba image off) = Ok frba)
  (Hregion : get_region g frba region_type = Ok region)
  (Hrt : 0 <= region_type < max_regions g)
  (Hmax : max_regions g <= 9) :
  (size region <= 0xfff ->
   inject_region e g filename image region_type fs
   = (Exit Region_disabled, fs)) /\
  (forall st_size,
     0xfff < size region -> region_file_open e = true ->
     region_file_stat e = Some st_size -> size region < s32 st_size ->
     inject_region e g filename image region_type fs
     = (Exit File_too_large, fs)).
Proof.
  destruct (region_name_in_range g region_type Hrt Hmax) as [rname Hname].
  split.
  - intros Hsmall. unfold inject_region.
    rewrite Hfrba, bind_lift_ok, Hregion, bind_lift_ok.
    destruct (Z.leb_spec (size region) 0xfff); [|lia].
    rewrite Hname. reflexivity.
  - intros st_size Hbig Hopen Hstat Hlarge. unfold inject_region.
    rewrite Hfrba, bind_lift_ok, Hregion, bind_lift_ok.
    destruct (Z.leb_spec (size region) 0xfff); [lia|]. rewrite bind_ret.
    rewrite Hopen, bind_ret, Hstat, bind_ret. cbv zeta.
    destruct (Z.gtb_spec (s32 st_size) (size region)); [|lia].
    cbn [orb]. rewrite Hname. reflexivity.
Qed.

Lemma inject_region_refusals_witness :
  let region := {| base := 0x1000; limit := 0x1fff; size := 0x1000 |} in
  let e := {| region_file_open := true;
              region_file_stat := Some 0x1001;
              region_file_data := replicate (Z.to_nat 0x1001) 0;
              region_file_read := 0x7fffffff;
              layout_file := None;
              output_open := true;
              output_write := 0x7fffffff |} in
  inject_region e g_v1 "rom" sample_v1 1 [] = (Exit File_too_large, []).
Proof.
  intros region e.
  refine (proj2 (inject_region_refusals e g_v1 "rom" sample_v1 1 []
                   (Frba 0 0x00010001 0x00000fff 0x00000fff 0x00001fff
                      0xffffffff 0xffffffff 0xffffffff 0xffffffff)
                   region _ _ _ _) 0x1001 _ _ _ _);
    [ vm_compute; reflexivity | reflexivity
    | unfold g_v1, MAX_REGIONS_OLD; simpl; lia
    | unfold g_v1, MAX_REGIONS_OLD; simpl; lia
    | unfold region; simpl; lia | reflexivity | reflexivity
    | vm_compute; reflexivity ].
Defined.

(** X21.  The padding of a small BIOS file is written before the size of the
    image is looked at: when the BIOS region starts so late that [region.size
    - file size] bytes from [region.base] do not fit the image, the [memset]
    runs past the end of the buffer instead of the run ending in the
    output-too-small exit. *)
Theorem inject_bios_padding_precedes_size_check (e : env) (g : globals)
  (filename : string) (image : image_t) (fs : files) (frba : frba_t)
  (region : region_t) (st_size : Z)
  (Hfrba : (off ← locate_frba image; load_frba image off) = Ok frba)
  (Hregion : get_region g frba 1 = Ok region)
  (Hbios : 1 < max_regions g)
  (Henabled : 0xfff < size region)
  (Hopen : region_file_open e = true)
  (Hstat : region_file_stat e = Some st_size)
  (Hsmaller : 0 <= st_size < size region)
  (Hpast : image_size image < base region + (size region - st_size)) :
  inject_region e g filename image 1 fs = (Undefined, fs).
Proof.
  destruct (get_region_shape _ _ _ _ Hregion) as (Hb & Hl & Hs & _).
  unfold inject_region.
  rewrite Hfrba, bind_lift_ok, Hregion, bind_lift_ok.
  destruct (Z.leb_spec (size region) 0xfff); [lia|]. rewrite bind_ret.
  rewrite Hopen, bind_ret, Hstat, bind_ret. cbv zeta.
  rewrite (s32_small st_size) by lia.
  destruct (Z.gtb_spec st_size (size region)); [lia|].
  cbn [orb andb negb Z.eqb Pos.eqb]. rewrite bind_ret.
  destruct (Z.ltb_spec st_size (size region)); [|lia].
  rewrite region_name_bios by exact Hbios.
  rewrite (s32_small (size region - st_size)) by lia.
  unfold memset.
  destruct (Z.eqb_spec (size region - st_size) 0); [lia|].
  destruct (Z.leb_spec 0 (size region - st_size)); [|lia].
  unfold blit.
  assert (in_bounds image (base region)
            (Z.of_nat (length (replicate (Z.to_nat (size region - st_size))
                                 255))) = false) as ->.
  { apply not_true_iff_false. rewrite in_bounds_spec, length_replicate.
    lia. }
  reflexivity.
Qed.

Lemma inject_bios_padding_precedes_size_check_witness :
  let image :=
    descriptor_block 0
      [0; 0x00030002; 0x00000fff; 0x00000fff; 0x00000fff;
       0xffffffff; 0xffffffff; 0xffffffff; 0xffffffff]
    ++ sample_bios in
  inject_region (sample_env []) g_v1 "rom" image 1 [] = (Undefined, []).
Proof.
  intros image.
  apply (inject_bios_padding_precedes_size_check (sample_env []) g_v1 "rom"
           image []
           (Frba 0 0x00030002 0x00000fff 0x00000fff 0x00000fff
              0xffffffff 0xffffffff 0xffffffff 0xffffffff)
           {| base := 0x2000; limit := 0x3fff; size := 0x2000 |} 3000);
    [ vm_compute; reflexivity | reflexivity
    | unfold g_v1, MAX_REGIONS_OLD; simpl; lia | simpl; lia
    | reflexivity | reflexivity | simpl; lia
    | vm_compute; reflexivity ].
Defined.

End InjectionRefusals.

(** ** What extraction writes *)

Section Extraction.

Lemma write_region_spec xe g image frba i fs :
  match write_region xe g image frba i fs with
  | (Ok _, fs') =>
    fs' = match extracted_file xe g image frba i with
          | Some f => f :: fs
          | None => fs
          end /\
    (forall region, get_region g frba i = Ok region -> 0 < size region ->
                    is_Some (extracted_file xe g image frba i))
  | _ => True
  end.
Proof.
  unfold write_region, extracted_file.
  unfold mbind at 1, M_bind at 1. unfold lift at 1.
  destruct (get_region g frba i) as [region| | |]; try exact I.
  cbn [mbind res_bind].
  unfold mbind at 1, M_bind at 1. unfold lift at 1.
  destruct (region_name g i); try exact I.
  destruct (Z.gtb_spec (size region) 0).
  - unfold mbind, M_bind, lift.
    destruct (region_filename g i) as [name| | |]; try exact I.
    unfold write_region_file.
    destruct (extract_open xe i); [|exact I].
    destruct (in_bounds image (base region) (size region)); [|exact I].
    split; [reflexivity|]. intros; eexists; reflexivity.
  - cbn. split.
    + destruct (region_filename g i); reflexivity.
    + intros region' [= <-] ?. lia.
Qed.

Lemma write_regions_loop_spec xe g image frba : forall idxs fs,
  match write_regions_loop xe g image frba idxs fs with
  | (Ok _, fs') =>
    fs' = rev (omap (extracted_file xe g image frba) idxs) ++ fs /\
    (forall i region, i ∈ idxs -> get_region g frba i = Ok region ->
                      0 < size region ->
                      is_Some (extracted_file xe g image frba i))
  | _ => True
  end.
Proof.
  induction idxs as [|i idxs IH]; intros fs.
  - split; [reflexivity|]. intros i region Hi. inversion Hi.
  - cbn [write_regions_loop]. unfold mbind, M_bind.
    pose proof (write_region_spec xe g image frba i fs) as Hstep.
    destruct (write_region xe g image frba i fs) as [[[]| | | ] fs1];
      try exact I.
    specialize (IH fs1).
    destruct (write_regions_loop xe g image frba idxs fs1)
      as [[[]| | | ] fs']; try exact I.
    destruct Hstep as [-> Hhere]. destruct IH as [-> Hrest].
    split.
    + cbn [omap list_omap].
      destruct (extracted_file xe g image frba i) as [f|].
      * cbn [rev]. rewrite <- app_assoc. reflexivity.
      * reflexivity.
    + intros j region Hj. apply elem_of_cons in Hj as [-> | Hj]; eauto.
Qed.

(** X22.  When [write_regions] returns: for every slot below [max_regions]
    whose region has a size above 0 there is a file under the name
    [region_filename] gives the slot, holding the bytes of the region (as many
    of them as [write] took); and no other file has been created, so none for
    a region of size 0 or below. *)
Theorem write_regions_one_file_per_enabled_region (xe : extract_env)
  (g : globals) (image : image_t) (fs fs' : files) (frba : frba_t)
  (Hfrba : (off ← locate_frba image; load_frba image off) = Ok frba)
  (Hrun : write_regions xe g image fs = (Ok tt, fs')) :
  (forall i region,
     0 <= i < max_regions g -> get_region g frba i = Ok region ->
     0 < size region ->
     exists name,
       region_filename g i = Ok name /\
       (name,
        take (Z.to_nat (Z.min (size region) (extract_write xe i)))
          (region_bytes image region)) ∈ fs') /\
  (forall f, f ∈ fs' ->
     f ∈ fs \/
     exists i region,
       0 <= i < max_regions g /\ get_region g frba i = Ok region /\
       0 < size region /\ region_filename g i = Ok (fst f) /\
       snd f = take (Z.to_nat (Z.min (size region) (extract_write xe i)))
                 (region_bytes image region)).
Proof.
  unfold write_regions in Hrun. rewrite Hfrba, bind_lift_ok in Hrun.
  pose proof (write_regions_loop_spec xe g image frba
                (seqZ 0 (max_regions g)) fs) as Hspec.
  rewrite Hrun in Hspec. destruct Hspec as [-> Hsome]. clear Hrun.
  split.
  - intros i region Hi Hget Hsize.
    destruct (Hsome i region) as [f Hf]; auto.
    { apply elem_of_seqZ. lia. }
    assert (Hin : f ∈ rev (omap (extracted_file xe g image frba)
                             (seqZ 0 (max_regions g)))).
    { rewrite list_elem_of_In, <- in_rev, <- list_elem_of_In.
      apply list_elem_of_omap.
      exists i. split; [apply elem_of_seqZ; lia | exact Hf]. }
    unfold extracted_file in Hf. rewrite Hget in Hf.
    destruct (region_filename g i) as [name| | |]; try discriminate.
    destruct (size region >? 0); [|discriminate].
    injection Hf as <-. exists name. split; [reflexivity|].
    apply elem_of_app. left. exact Hin.
  - intros f Hf. apply elem_of_app in Hf as [Hf | Hf]; [right | now left].
    rewrite list_elem_of_In, <- in_rev, <- list_elem_of_In in Hf.
    apply list_elem_of_omap in Hf.
    destruct Hf as (i & Hi & Hfile). apply elem_of_seqZ in Hi.
    unfold extracted_file in Hfile.
    destruct (get_region g frba i) as [region| | |] eqn:Hget;
      try discriminate.
    destruct (region_filename g i) as [name| | |] eqn:Hname;
      try discriminate.
    destruct (Z.gtb_spec (size region) 0); [|discriminate].
    injection Hfile as <-. exists i, region. cbn [fst snd].
    repeat split; auto; lia.
Qed.

Lemma write_regions_one_file_per_enabled_region_witness :
  let xe := {| extract_open := fun _ => true;
               extract_write := fun _ => 0x7fffffff |} in
  let fs' := snd (write_regions xe g_v1 sample_v1 []) in
  ("flashregion_1_bios.bin"%string,
   region_bytes sample_v1
     {| base := 0x1000; limit := 0x1fff; size := 0x1000 |}) ∈ fs'.
Proof.
  intros xe fs'.
  destruct (proj1 (write_regions_one_file_per_enabled_region xe g_v1
                     sample_v1 [] fs'
                     (Frba 0 0x00010001 0x00000fff 0x00000fff 0x00001fff
                        0xffffffff 0xffffffff 0xffffffff 0xffffffff)
                     ltac:(vm_compute; reflexivity)
                     ltac:(vm_compute; reflexivity))
              1 {| base := 0x1000; limit := 0x1fff; size := 0x1000 |}
              ltac:(unfold g_v1, MAX_REGIONS_OLD; simpl; lia)
              ltac:(reflexivity) ltac:(simpl; lia))
    as (name & Hname & Hin).
  injection Hname as <-. exact Hin.
Defined.

End Extraction.

(** ** Words in the buffer *)

Section Words.

Lemma load8_lookup image p b :
  0 <= p -> image !! Z.to_nat p = Some b -> load8 image p = Ok b.
Proof.
  intros Hp Hb. unfold load8.
  destruct (Z.leb_spec 0 p); [|lia]. now rewrite Hb.
Qed.

Lemma bytes_of_u32_sum v :
  0 <= v < 2 ^ 32 ->
  v mod 2 ^ 8 + 2 ^ 8 * ((v / 2 ^ 8) mod 2 ^ 8)
  + 2 ^ 16 * ((v / 2 ^ 16) mod 2 ^ 8) + 2 ^ 24 * ((v / 2 ^ 24) mod 2 ^ 8)
  = v.
Proof.
  intros Hv.
  change (2 ^ 8) with 256. change (2 ^ 16) with 65536.
  change (2 ^ 24) with 16777216. change (2 ^ 32) with 4294967296 in Hv.
  Z.div_mod_to_equations. lia.
Qed.

Lemma load32_store32 image p v image' :
  0 <= v < 2 ^ 32 -> store32 image p v = Ok image' ->
  load32 image' p = Ok v.
Proof.
  intros Hv H. unfold store32 in H.
  pose proof (blit_inv _ _ _ _ H) as (Hp & _ & _).
  pose proof (blit_lookup_inside _ _ _ _ 0 H ltac:(simpl; lia)) as H0.
  pose proof (blit_lookup_inside _ _ _ _ 1 H ltac:(simpl; lia)) as H1.
  pose proof (blit_lookup_inside _ _ _ _ 2 H ltac:(simpl; lia)) as H2.
  pose proof (blit_lookup_inside _ _ _ _ 3 H ltac:(simpl; lia)) as H3.
  cbn [bytes_of_u32 lookup list_lookup] in H0, H1, H2, H3.
  unfold load32.
  rewrite (load8_lookup image' p (v mod 2 ^ 8)) by
    (try lia; rewrite <- H0; f_equal; lia).
  rewrite (load8_lookup image' (p + 1) ((v / 2 ^ 8) mod 2 ^ 8)) by
    (try lia; rewrite <- H1; f_equal; lia).
  rewrite (load8_lookup image' (p + 2) ((v / 2 ^ 16) mod 2 ^ 8)) by
    (try lia; rewrite <- H2; f_equal; lia).
  rewrite (load8_lookup image' (p + 3) ((v / 2 ^ 24) mod 2 ^ 8)) by
    (try lia; rewrite <- H3; f_equal; lia).
  cbn [mbind res_bind]. f_equal. apply bytes_of_u32_sum. exact Hv.
Qed.

Lemma load8_frame image image' (lo hi q : Z) :
  (forall k, 0 <= k -> k < lo \/ hi <= k ->
             image' !! Z.to_nat k = image !! Z.to_nat k) ->
  q < lo \/ hi <= q -> load8 image' q = load8 image q.
Proof.
  intros Hframe Hq. unfold load8.
  destruct (Z.leb_spec 0 q); [|reflexivity].
  now rewrite Hframe.
Qed.

Lemma load32_frame image image' (lo hi q : Z) :
  (forall k, 0 <= k -> k < lo \/ hi <= k ->
             image' !! Z.to_nat k = image !! Z.to_nat k) ->
  q + 4 <= lo \/ hi <= q -> load32 image' q = load32 image q.
Proof.
  intros Hframe Hq. unfold load32.
  rewrite !(load8_frame image image' lo hi) by (assumption || lia).
  reflexivity.
Qed.

Lemma store32_frame image p v image' (k : Z) :
  store32 image p v = Ok image' -> 0 <= k -> k < p \/ p + 4 <= k ->
  image' !! Z.to_nat k = image !! Z.to_nat k.
Proof.
  intros H Hk Hout. unfold store32 in H.
  pose proof (blit_inv _ _ _ _ H) as (Hp & _ & _).
  apply (blit_lookup_outside _ _ _ _ _ H).
  cbn [bytes_of_u32 length]. lia.
Qed.

Lemma store32_ok image p v :
  0 <= p -> p + 4 <= image_size image ->
  exists image', store32 image p v = Ok image'.
Proof.
  intros Hp Hfit. unfold store32. rewrite blit_ok; [eauto | lia |].
  cbn [bytes_of_u32 length]. lia.
Qed.

Lemma load32_inv image p v :
  load32 image p = Ok v -> 0 <= p /\ p + 4 <= image_size image.
Proof.
  intros H.
  destruct (Z_lt_le_dec p 0) as [Hneg|Hp].
  - unfold load32, load8 in H.
    destruct (Z.leb_spec 0 p); [lia | discriminate].
  - split; [exact Hp|].
    destruct (Z_lt_le_dec (image_size image) (p + 4)) as [Hs|Hs]; [|lia].
    rewrite load32_out_of_bounds in H by lia. discriminate.
Qed.

End Words.

(** ** The frequency fields *)

Section Frequency.

Lemma spi_flcomp_eq freq flcomp :
  0 <= freq < 8 -> 0 <= flcomp < 2 ^ 32 ->
  spi_flcomp freq flcomp
  = Z.lor (Z.lor (Z.lor
      (Z.land (Z.land flcomp (Z.ones 32))
         (Z.lor (Z.shiftl (Z.ones 2) 30) (Z.ones 21)))
      (Z.shiftl (Z.land freq (Z.ones 3)) 27))
      (Z.shiftl (Z.land freq (Z.ones 3)) 24))
      (Z.shiftl (Z.land freq (Z.ones 3)) 21).
Proof.
  intros Hfreq Hflcomp. unfold spi_flcomp.
  change (u32 (Z.lnot 0x3fe00000))
    with (Z.lor (Z.shiftl (Z.ones 2) 30) (Z.ones 21)).
  rewrite !Z.land_ones by lia.
  rewrite (Z.mod_small flcomp) by lia.
  rewrite (Z.mod_small freq) by (change (2 ^ 3) with 8; lia).
  rewrite !Z.shiftl_mul_pow2 by lia.
  rewrite !u32_small by lia.
  reflexivity.
Qed.

Lemma spi_flcomp_range freq flcomp :
  0 <= spi_flcomp freq flcomp < 2 ^ 32.
Proof.
  unfold spi_flcomp.
  repeat apply lor_range; try lia; try apply u32_range.
  apply land_mask_range; [lia|]. apply u32_range.
Qed.

Lemma spi_flcomp_fields freq flcomp :
  0 <= freq < 8 -> 0 <= flcomp < 2 ^ 32 ->
  let w := spi_flcomp freq flcomp in
  Z.land (Z.shiftr w 27) 7 = freq /\
  Z.land (Z.shiftr w 24) 7 = freq /\
  Z.land (Z.shiftr w 21) 7 = freq /\
  Z.land w 0xc01fffff = Z.land flcomp 0xc01fffff /\
  Z.land (Z.shiftr w 17) 7 = Z.land (Z.shiftr flcomp 17) 7.
Proof.
  intros Hfreq Hflcomp w. subst w.
  rewrite spi_flcomp_eq by assumption.
  assert (Hf : freq = Z.land freq (Z.ones 3)).
  { rewrite Z.land_ones by lia. rewrite Z.mod_small; [reflexivity|].
    change (2 ^ 3) with 8. lia. }
  assert (Hc : flcomp = Z.land flcomp (Z.ones 32)).
  { rewrite Z.land_ones by lia. now rewrite Z.mod_small. }
  change 7 with (Z.ones 3).
  change 0xc01fffff with (Z.lor (Z.shiftl (Z.ones 2) 30) (Z.ones 21)).
  repeat split.
  - rewrite Hf at 4. bit_blast.
  - rewrite Hf at 4. bit_blast.
  - rewrite Hf at 4. bit_blast.
  - rewrite Hc at 2. bit_blast.
  - rewrite Hc at 2. bit_blast.
Qed.

Lemma find_fd_loop_from rounds : forall image size i k,
  find_fd_loop rounds image size i = Ok (Some k) -> i <= k.
Proof.
  induction rounds as [|rounds IH]; intros image size i k H;
    cbn [find_fd_loop] in H; [discriminate|].
  destruct (i <? size - 4); [|discriminate].
  destruct (load32 image i) as [sig| | |]; try discriminate.
  cbn [mbind res_bind] in H.
  destruct (sig =? 0x0FF0A55A).
  - injection H as <-. lia.
  - apply IH in H. lia.
Qed.

(** The scan stops at the same signature when the words up to it are the
    same. *)
Lemma find_fd_loop_prefix rounds : forall image image' size i k,
  (forall q, q <= k -> load32 image' q = load32 image q) ->
  find_fd_loop rounds image size i = Ok (Some k) ->
  find_fd_loop rounds image' size i = Ok (Some k).
Proof.
  induction rounds as [|rounds IH]; intros image image' size i k Hsame H.
  - discriminate.
  - pose proof (find_fd_loop_from _ _ _ _ _ H) as Hik.
    cbn [find_fd_loop] in H |- *.
    destruct (i <? size - 4); [|discriminate].
    rewrite Hsame by exact Hik.
    destruct (load32 image i) as [sig| | |]; try discriminate.
    cbn [mbind res_bind] in H |- *.
    destruct (sig =? 0x0FF0A55A); [exact H|].
    now apply IH with (image := image).
Qed.

Lemma find_fd_prefix image image' fdb :
  length image' = length image ->
  (forall q, q <= fdb -> load32 image' q = load32 image q) ->
  find_fd image = Ok (Some fdb) -> find_fd image' = Ok (Some fdb).
Proof.
  intros Hlen Hsame. unfold find_fd, image_size. rewrite Hlen.
  now apply find_fd_loop_prefix.
Qed.

Lemma locate_fcba_inv image off :
  locate_fcba image = Ok off ->
  exists fdb flmap0,
    find_fd image = Ok (Some fdb) /\
    load32 image (fdbar_flmap0 fdb) = Ok flmap0 /\
    off = u32 (Z.shiftl (Z.land flmap0 0xff) 4).
Proof.
  unfold locate_fcba.
  destruct (find_fd image) as [[fdb|]| | |] eqn:Hfd; try discriminate.
  cbn [mbind res_bind].
  destruct (load32 image (fdbar_flmap0 fdb)) as [flmap0| | |] eqn:Hflmap0;
    try discriminate.
  cbn [mbind res_bind]. intros [= <-].
  exists fdb, flmap0. repeat split; try reflexivity. exact Hflmap0.
Qed.

(** A store that begins 8 bytes or more after the signature leaves the
    header where and what it was. *)
Lemma header_frame image image' fdb lo hi :
  length image' = length image ->
  (forall k, 0 <= k -> k < lo \/ hi <= k ->
             image' !! Z.to_nat k = image !! Z.to_nat k) ->
  find_fd image = Ok (Some fdb) -> fdb + 8 <= lo ->
  find_fd image' = Ok (Some fdb) /\
  load32 image' (fdbar_flmap0 fdb) = load32 image (fdbar_flmap0 fdb).
Proof.
  intros Hlen Hframe Hfd Hlo. split.
  - apply (find_fd_prefix image); [exact Hlen| |exact Hfd].
    intros q Hq. apply (load32_frame image image' lo hi); [exact Hframe|].
    lia.
  - apply (load32_frame image image' lo hi); [exact Hframe|].
    unfold fdbar_flmap0. lia.
Qed.

Lemma write_image_whole e filename image size fs :
  output_open e = true -> size <= output_write e ->
  Z.of_nat (length image) <= size ->
  write_image e filename image size fs
  = (Ok tt, ((filename ++ ".new")%string, image) :: fs).
Proof.
  intros Hopen Hwrite Hsize. unfold write_image. rewrite Hopen.
  rewrite take_ge by lia. reflexivity.
Qed.

(** The component word after a store of [v] at the component section. *)
Lemma store_flcomp image off flcomp v :
  load32 image off = Ok flcomp -> 0 <= v < 2 ^ 32 ->
  exists image',
    store32 image off v = Ok image' /\ length image' = length image /\
    (forall k, 0 <= k -> k < off \/ off + 4 <= k ->
               image' !! Z.to_nat k = image !! Z.to_nat k) /\
    load32 image' off = Ok v.
Proof.
  intros Hload Hv.
  destruct (load32_inv _ _ _ Hload) as (Hoff & Hfit).
  destruct (store32_ok image off v Hoff Hfit) as [image' Hstore].
  exists image'. repeat split.
  - exact Hstore.
  - exact (blit_length _ _ _ _ Hstore).
  - intros k Hk Hout. exact (store32_frame _ _ _ _ k Hstore Hk Hout).
  - exact (load32_store32 _ _ _ _ Hv Hstore).
Qed.

(** X23.  [set_spi_frequency], for a frequency code of three bits: the image
    written differs from the one given in the component word only, where the
    fields 29:27, 26:24 and 23:21 hold the code and the bits 31:30 and 20:0
    are as they were. *)
Theorem set_spi_frequency_sets_three_fields (e : env) (filename : string)
  (image : image_t) (freq : Z) (fs : files) (off flcomp : Z)
  (Hwf : image_wf image = true)
  (Hoff : locate_fcba image = Ok off)
  (Hload : load32 image off = Ok flcomp)
  (Hfreq : 0 <= freq < 8)
  (Hopen : output_open e = true)
  (Hwrite : image_size image <= output_write e) :
  exists image' w,
    set_spi_frequency e filename image freq fs
    = (Ok tt, ((filename ++ ".new")%string, image') :: fs) /\
    length image' = length image /\
    (forall k, 0 <= k -> k < off \/ off + 4 <= k ->
               image' !! Z.to_nat k = image !! Z.to_nat k) /\
    load32 image' off = Ok w /\
    Z.land (Z.shiftr w 27) 7 = freq /\
    Z.land (Z.shiftr w 24) 7 = freq /\
    Z.land (Z.shiftr w 21) 7 = freq /\
    Z.land w 0xc01fffff = Z.land flcomp 0xc01fffff.
Proof.
  pose proof (load32_range _ _ _ Hwf Hload) as Hrange.
  unfold is_u32 in Hrange.
  assert (Hflcomp : 0 <= flcomp < 2 ^ 32) by lia.
  destruct (store_flcomp image off flcomp (spi_flcomp freq flcomp) Hload
              (spi_flcomp_range freq flcomp))
    as (image' & Hstore & Hlen & Hframe & Hback).
  destruct (spi_flcomp_fields freq flcomp Hfreq Hflcomp)
    as (H27 & H24 & H21 & Hrest & _).
  exists image', (spi_flcomp freq flcomp).
  repeat split; try assumption.
  unfold set_spi_frequency, fcba_flcomp.
  rewrite Hoff. cbn [mbind res_bind]. rewrite Hload. cbn [mbind res_bind].
  rewrite Hstore, bind_lift_ok.
  apply write_image_whole; [exact Hopen | exact Hwrite |].
  unfold image_size. lia.
Qed.

Lemma set_spi_frequency_sets_three_fields_witness :
  exists image' w,
    set_spi_frequency (sample_env []) "rom" sample_v1 4 []
    = (Ok tt, ("rom.new"%string, image') :: []) /\
    load32 image' 0x30 = Ok w /\
    Z.land (Z.shiftr w 27) 7 = 4.
Proof.
  destruct (set_spi_frequency_sets_three_fields (sample_env []) "rom"
              sample_v1 4 [] 0x30 0
              ltac:(vm_compute; reflexivity) ltac:(vm_compute; reflexivity)
              ltac:(vm_compute; reflexivity) ltac:(lia)
              ltac:(reflexivity) ltac:(vm_compute; discriminate))
    as (image' & w & Hrun & _ & _ & Hw & H27 & _).
  exists image', w. repeat split; assumption.
Defined.

(** X24.  [set_spi_frequency] does not change the version that
    [check_ifd_version] detects, although both work on the same word: the read
    frequency in bits 19:17 is outside the fields it stores. The component
    section is taken to begin after the header. *)
Theorem set_spi_frequency_keeps_version
  (SPI_FREQUENCY_20MHZ SPI_FREQUENCY_17MHZ : Z) (e : env)
  (filename : string) (image : image_t) (freq : Z) (fs : files)
  (fdb off flcomp : Z)
  (Hwf : image_wf image = true)
  (Hfd : find_fd image = Ok (Some fdb))
  (Hoff : locate_fcba image = Ok off)
  (Hafter : fdb + 8 <= off)
  (Hload : load32 image off = Ok flcomp)
  (Hfreq : 0 <= freq < 8)
  (Hopen : output_open e = true)
  (Hwrite : image_size image <= output_write e) :
  exists image',
    set_spi_frequency e filename image freq fs
    = (Ok tt, ((filename ++ ".new")%string, image') :: fs) /\
    check_ifd_version SPI_FREQUENCY_20MHZ SPI_FREQUENCY_17MHZ image'
    = check_ifd_version SPI_FREQUENCY_20MHZ SPI_FREQUENCY_17MHZ image.
Proof.
  pose proof (load32_range _ _ _ Hwf Hload) as Hrange.
  unfold is_u32 in Hrange.
  assert (Hflcomp : 0 <= flcomp < 2 ^ 32) by lia.
  destruct (store_flcomp image off flcomp (spi_flcomp freq flcomp) Hload
              (spi_flcomp_range freq flcomp))
    as (image' & Hstore & Hlen & Hframe & Hback).
  destruct (spi_flcomp_fields freq flcomp Hfreq Hflcomp)
    as (_ & _ & _ & _ & Hread).
  destruct (header_frame image image' fdb off (off + 4) Hlen Hframe Hfd
              Hafter) as (Hfd' & Hflmap0').
  destruct (locate_fcba_inv _ _ Hoff) as (fdb0 & flmap0 & Hfd0 & Hmap & ->).
  assert (fdb0 = fdb) as -> by congruence.
  exists image'. split.
  - unfold set_spi_frequency, fcba_flcomp.
    rewrite Hoff. cbn [mbind res_bind]. rewrite Hload.
    cbn [mbind res_bind]. rewrite Hstore, bind_lift_ok.
    apply write_image_whole; [exact Hopen | exact Hwrite |].
    unfold image_size. lia.
  - unfold check_ifd_version, fcba_flcomp.
    rewrite Hfd', Hfd. cbn [mbind res_bind].
    rewrite Hflmap0', Hmap. cbn [mbind res_bind]. cbv zeta.
    rewrite Hback, Hload. cbn [mbind res_bind]. rewrite Hread.
    reflexivity.
Qed.

Lemma set_spi_frequency_keeps_version_witness :
  exists image',
    set_spi_frequency (sample_env []) "rom" sample_v1 4 []
    = (Ok tt, ("rom.new"%string, image') :: []) /\
    check_ifd_version 0 6 image' = Ok g_v1.
Proof.
  destruct (set_spi_frequency_keeps_version 0 6 (sample_env []) "rom"
              sample_v1 4 [] 0 0x30 0
              ltac:(vm_compute; reflexivity) ltac:(vm_compute; reflexivity)
              ltac:(vm_compute; reflexivity) ltac:(lia)
              ltac:(vm_compute; reflexivity) ltac:(lia)
              ltac:(reflexivity) ltac:(vm_compute; discriminate))
    as (image' & Hrun & Hversion).
  exists image'. split; [exact Hrun|].
  rewrite Hversion. vm_compute. reflexivity.
Defined.

Lemma em100_word_range flcomp :
  0 <= Z.land flcomp (u32 (Z.lnot (Z.shiftl 1 30))) < 2 ^ 32.
Proof. apply land_mask_range; [lia|]. apply u32_range. Qed.

Lemma em100_bits freq flcomp :
  0 <= freq < 8 -> 0 <= flcomp < 2 ^ 32 ->
  let w := spi_flcomp freq
             (Z.land flcomp (u32 (Z.lnot (Z.shiftl 1 30)))) in
  Z.testbit w 30 = false /\
  Z.land w 0x801fffff = Z.land flcomp 0x801fffff.
Proof.
  intros Hfreq Hflcomp w. subst w.
  rewrite spi_flcomp_eq by (assumption || apply em100_word_range).
  assert (Hc : flcomp = Z.land flcomp (Z.ones 32)).
  { rewrite Z.land_ones by lia. now rewrite Z.mod_small. }
  change (u32 (Z.lnot (Z.shiftl 1 30)))
    with (Z.lor (Z.shiftl (Z.ones 1) 31) (Z.ones 30)).
  change 0x801fffff with (Z.lor (Z.shiftl (Z.ones 1) 31) (Z.ones 21)).
  split.
  - repeat (progress bit_step); reflexivity.
  - rewrite Hc at 2. bit_blast.
Qed.

(** X25.  [set_em100_mode], on an image whose component section begins 8
    bytes or more after the signature [find_fd] returns: bit 30 of the
    component word is cleared, its three frequency fields hold the code
    chosen by the version, bit 31 and the bits 20:0 are as they were, and
    nothing else of the image changes.  The condition is needed:
    [set_spi_frequency] looks the signature up again after bit 30 has been
    cleared, see [set_em100_mode_makes_a_signature] below. *)
Theorem set_em100_mode_clears_bit_30_sets_frequency
  (SPI_FREQUENCY_20MHZ SPI_FREQUENCY_17MHZ : Z) (e : env) (g : globals)
  (filename : string) (image : image_t) (fs : files) (fdb off flcomp : Z)
  (H20 : 0 <= SPI_FREQUENCY_20MHZ < 8)
  (H17 : 0 <= SPI_FREQUENCY_17MHZ < 8)
  (Hwf : image_wf image = true)
  (Hfd : find_fd image = Ok (Some fdb))
  (Hoff : locate_fcba image = Ok off)
  (Hafter : fdb + 8 <= off)
  (Hload : load32 image off = Ok flcomp)
  (Hopen : output_open e = true)
  (Hwrite : image_size image <= output_write e) :
  let freq := match ifd_version g with
              | IFD_VERSION_1 => SPI_FREQUENCY_20MHZ
              | IFD_VERSION_2 => SPI_FREQUENCY_17MHZ
              end in
  exists image' w,
    set_em100_mode SPI_FREQUENCY_20MHZ SPI_FREQUENCY_17MHZ e g filename
      image fs
    = (Ok tt, ((filename ++ ".new")%string, image') :: fs) /\
    length image' = length image /\
    (forall k, 0 <= k -> k < off \/ off + 4 <= k ->
               image' !! Z.to_nat k = image !! Z.to_nat k) /\
    load32 image' off = Ok w /\
    Z.testbit w 30 = false /\
    Z.land (Z.shiftr w 27) 7 = freq /\
    Z.land (Z.shiftr w 24) 7 = freq /\
    Z.land (Z.shiftr w 21) 7 = freq /\
    Z.land w 0x801fffff = Z.land flcomp 0x801fffff.
Proof.
  intros freq.
  assert (Hfreq : 0 <= freq < 8) by (subst freq; destruct (ifd_version g);
                                     assumption).
  pose proof (load32_range _ _ _ Hwf Hload) as Hrange.
  unfold is_u32 in Hrange.
  assert (Hflcomp : 0 <= flcomp < 2 ^ 32) by lia.
  set (v := Z.land flcomp (u32 (Z.lnot (Z.shiftl 1 30)))).
  pose proof (em100_word_range flcomp) as Hv. fold v in Hv.
  destruct (store_flcomp image off flcomp v Hload Hv)
    as (image1 & Hstore1 & Hlen1 & Hframe1 & Hback1).
  destruct (header_frame image image1 fdb off (off + 4) Hlen1 Hframe1 Hfd
              Hafter) as (Hfd1 & Hflmap1).
  destruct (locate_fcba_inv _ _ Hoff) as (fdb0 & flmap0 & Hfd0 & Hmap & Heq).
  assert (fdb0 = fdb) as -> by congruence.
  assert (Hoff1 : locate_fcba image1 = Ok off).
  { unfold locate_fcba. rewrite Hfd1. cbn [mbind res_bind].
    rewrite Hflmap1, Hmap. cbn [mbind res_bind]. now rewrite Heq. }
  destruct (store_flcomp image1 off v (spi_flcomp freq v) Hback1
              (spi_flcomp_range freq v))
    as (image2 & Hstore2 & Hlen2 & Hframe2 & Hback2).
  destruct (spi_flcomp_fields freq v Hfreq Hv)
    as (F27 & F24 & F21 & _ & _).
  destruct (em100_bits freq flcomp Hfreq Hflcomp) as (Hbit & Hrest).
  fold v in Hbit, Hrest.
  exists image2, (spi_flcomp freq v).
  repeat split; try assumption.
  - unfold set_em100_mode, fcba_flcomp. fold freq.
    rewrite Hoff. cbn [mbind res_bind]. rewrite Hload.
    cbn [mbind res_bind]. fold v. rewrite Hstore1, bind_lift_ok.
    unfold set_spi_frequency, fcba_flcomp.
    rewrite Hoff1. cbn [mbind res_bind]. rewrite Hback1.
    cbn [mbind res_bind]. rewrite Hstore2, bind_lift_ok.
    apply write_image_whole; [exact Hopen | |].
    + unfold image_size in *. lia.
    + unfold image_size. lia.
  - lia.
  - intros k Hk Hout. rewrite Hframe2 by assumption. now apply Hframe1.
Qed.

Lemma set_em100_mode_clears_bit_30_sets_frequency_witness :
  exists image' w,
    set_em100_mode 0 6 (sample_env []) g_v2 "rom" sample_v2 []
    = (Ok tt, ("rom.new"%string, image') :: []) /\
    load32 image' 0x30 = Ok w /\
    Z.land (Z.shiftr w 27) 7 = 6.
Proof.
  destruct (set_em100_mode_clears_bit_30_sets_frequency 0 6 (sample_env [])
              g_v2 "rom" sample_v2 [] 0 0x30 0
              ltac:(lia) ltac:(lia)
              ltac:(vm_compute; reflexivity) ltac:(vm_compute; reflexivity)
              ltac:(vm_compute; reflexivity) ltac:(lia)
              ltac:(vm_compute; reflexivity)
              ltac:(reflexivity) ltac:(vm_compute; discriminate))
    as (image' & w & Hrun & _ & _ & Hw & _ & H27 & _).
  exists image', w. repeat split; assumption.
Defined.

(** Without that condition: the signature is at 0x10 and FLMAP0 puts the
    component section at 0, where the word is 0x4FF0A55A.  Clearing its bit
    30 makes it a signature; [set_spi_frequency] then finds it at 0, reads
    the word at 4 as FLMAP0 and stores the frequency in the word at 0x20,
    while the component word keeps 0x7F in its fields 29:21. *)
Example set_em100_mode_makes_a_signature :
  let words before :=
    mjoin (bytes_of_u32 <$>
             [before; 0x00000002; 0; 0; 0x0FF0A55A; 0x00040000; 0; 0]) in
  let image := words 0x4FF0A55A ++ bytes_of_u32 0xffffffff ++ [0; 0; 0; 0] in
  find_fd image = Ok (Some 0x10) /\
  locate_fcba image = Ok 0 /\
  set_em100_mode 0 6 (sample_env []) g_v1 "rom" image []
  = (Ok tt,
     [("rom.new"%string,
       words 0x0FF0A55A ++ bytes_of_u32 0xc01fffff ++ [0; 0; 0; 0])]).
Proof. intros words image. repeat split; vm_compute; reflexivity. Qed.

End Frequency.

(** ** The master section in the image *)

Section MasterWords.

Lemma load8_inv image p b :
  load8 image p = Ok b -> 0 <= p /\ image !! Z.to_nat p = Some b.
Proof.
  unfold load8. destruct (Z.leb_spec 0 p); [|discriminate].
  destruct (image !! Z.to_nat p); [|discriminate].
  intros [= <-]. split; [lia | reflexivity].
Qed.

Lemma bytes_of_u32_bytes b0 b1 b2 b3 :
  0 <= b0 < 2 ^ 8 -> 0 <= b1 < 2 ^ 8 -> 0 <= b2 < 2 ^ 8 ->
  0 <= b3 < 2 ^ 8 ->
  bytes_of_u32 (b0 + 2 ^ 8 * b1 + 2 ^ 16 * b2 + 2 ^ 24 * b3)
  = [b0; b1; b2; b3].
Proof.
  intros H0 H1 H2 H3. unfold bytes_of_u32.
  change (2 ^ 8) with 256 in *. change (2 ^ 16) with 65536.
  change (2 ^ 24) with 16777216.
  repeat f_equal; Z.div_mod_to_equations; lia.
Qed.

(** The bytes of a word loaded from an image of bytes are the four bytes
    it was loaded from. *)
Lemma load32_bytes image p v :
  image_wf image = true -> load32 image p = Ok v ->
  0 <= p /\
  forall k, (k < 4)%nat ->
            bytes_of_u32 v !! k = image !! (Z.to_nat p + k)%nat.
Proof.
  intros Hwf H. unfold load32 in H.
  destruct (load8 image p) as [b0| | |] eqn:E0; try discriminate.
  destruct (load8 image (p + 1)) as [b1| | |] eqn:E1; try discriminate.
  destruct (load8 image (p + 2)) as [b2| | |] eqn:E2; try discriminate.
  destruct (load8 image (p + 3)) as [b3| | |] eqn:E3; try discriminate.
  cbn [mbind res_bind] in H. injection H as <-.
  pose proof (load8_range _ _ _ Hwf E0).
  pose proof (load8_range _ _ _ Hwf E1).
  pose proof (load8_range _ _ _ Hwf E2).
  pose proof (load8_range _ _ _ Hwf E3).
  apply load8_inv in E0 as (Hp & E0), E1 as (_ & E1), E2 as (_ & E2),
        E3 as (_ & E3).
  split; [exact Hp|].
  rewrite bytes_of_u32_bytes by assumption.
  replace (Z.to_nat (p + 1)) with (Z.to_nat p + 1)%nat in E1 by lia.
  replace (Z.to_nat (p + 2)) with (Z.to_nat p + 2)%nat in E2 by lia.
  replace (Z.to_nat (p + 3)) with (Z.to_nat p + 3)%nat in E3 by lia.
  intros [|[|[|[|k]]]] Hk; try lia; cbn [lookup list_lookup].
  - now rewrite Nat.add_0_r.
  - now rewrite E1.
  - now rewrite E2.
  - now rewrite E3.
Qed.

(** A word of the data of a [blit], read back. *)
Lemma load32_blit image p data image' (j : nat) v :
  blit image p data = Ok image' -> 0 <= v < 2 ^ 32 ->
  take 4 (drop j data) = bytes_of_u32 v ->
  load32 image' (p + Z.of_nat j) = Ok v.
Proof.
  intros H Hv Hdata.
  pose proof (blit_inv _ _ _ _ H) as (Hp & _ & _).
  assert (Hlen : (j + 4 <= length data)%nat).
  { apply (f_equal length) in Hdata.
    rewrite length_take, length_drop in Hdata.
    cbn [bytes_of_u32 length] in Hdata. lia. }
  assert (Hbyte : forall k, (k < 4)%nat ->
            image' !! (Z.to_nat p + (j + k))%nat = bytes_of_u32 v !! k).
  { intros k Hk.
    rewrite (blit_lookup_inside _ _ _ _ (j + k) H) by lia.
    rewrite <- Hdata, lookup_take_lt by lia. now rewrite lookup_drop. }
  pose proof (Hbyte 0%nat ltac:(lia)) as H0.
  pose proof (Hbyte 1%nat ltac:(lia)) as H1.
  pose proof (Hbyte 2%nat ltac:(lia)) as H2.
  pose proof (Hbyte 3%nat ltac:(lia)) as H3.
  cbn [bytes_of_u32 lookup list_lookup] in H0, H1, H2, H3.
  unfold load32.
  rewrite (load8_lookup image' (p + Z.of_nat j) (v mod 2 ^ 8)) by
    (try lia; rewrite <- H0; f_equal; lia).
  rewrite (load8_lookup image' (p + Z.of_nat j + 1)
             ((v / 2 ^ 8) mod 2 ^ 8)) by
    (try lia; rewrite <- H1; f_equal; lia).
  rewrite (load8_lookup image' (p + Z.of_nat j + 2)
             ((v / 2 ^ 16) mod 2 ^ 8)) by
    (try lia; rewrite <- H2; f_equal; lia).
  rewrite (load8_lookup image' (p + Z.of_nat j + 3)
             ((v / 2 ^ 24) mod 2 ^ 8)) by
    (try lia; rewrite <- H3; f_equal; lia).
  cbn [mbind res_bind]. f_equal. apply bytes_of_u32_sum. exact Hv.
Qed.

Lemma load_fmba_inv image off fmba :
  load_fmba image off = Ok fmba ->
  load32 image off = Ok (flmstr1 fmba) /\
  load32 image (off + 4) = Ok (flmstr2 fmba) /\
  load32 image (off + 8) = Ok (flmstr3 fmba) /\
  load32 image (off + 12) = Ok (flmstr4 fmba) /\
  load32 image (off + 16) = Ok (flmstr5 fmba).
Proof.
  unfold load_fmba.
  destruct (load32 image off) as [m1| | |]; try discriminate.
  destruct (load32 image (off + 4)) as [m2| | |]; try discriminate.
  destruct (load32 image (off + 8)) as [m3| | |]; try discriminate.
  destruct (load32 image (off + 12)) as [m4| | |]; try discriminate.
  destruct (load32 image (off + 16)) as [m5| | |]; try discriminate.
  cbn [mbind res_bind]. intros [= <-]. repeat split; reflexivity.
Qed.

(** Storing a master section whose last two words are the ones loaded:
    the 12 bytes of FLMSTR1..3 are the only ones that can differ. *)
Lemma store_fmba_frame image off fmba fmba' :
  image_wf image = true -> load_fmba image off = Ok fmba ->
  flmstr4 fmba' = flmstr4 fmba -> flmstr5 fmba' = flmstr5 fmba ->
  is_u32 (flmstr1 fmba') = true -> is_u32 (flmstr2 fmba') = true ->
  is_u32 (flmstr3 fmba') = true ->
  exists image',
    store_fmba image off fmba' = Ok image' /\
    length image' = length image /\
    (forall k, 0 <= k -> k < off \/ off + 12 <= k ->
               image' !! Z.to_nat k = image !! Z.to_nat k) /\
    load_fmba image' off = Ok fmba'.
Proof.
  intros Hwf Hload H4 H5 R1 R2 R3.
  destruct (load_fmba_inv _ _ _ Hload) as (L1 & L2 & L3 & L4 & L5).
  pose proof (load32_range _ _ _ Hwf L4) as R4.
  pose proof (load32_range _ _ _ Hwf L5) as R5.
  rewrite <- H4 in R4. rewrite <- H5 in R5.
  unfold is_u32 in R1, R2, R3, R4, R5.
  destruct (load32_inv _ _ _ L1) as (Hoff & _).
  destruct (load32_inv _ _ _ L5) as (_ & Hfit).
  destruct (load32_bytes _ _ _ Hwf L4) as (_ & B4).
  destruct (load32_bytes _ _ _ Hwf L5) as (_ & B5).
  rewrite <- H4 in B4. rewrite <- H5 in B5.
  unfold store_fmba.
  set (data := bytes_of_u32 (flmstr1 fmba') ++ bytes_of_u32 (flmstr2 fmba')
               ++ bytes_of_u32 (flmstr3 fmba')
               ++ bytes_of_u32 (flmstr4 fmba')
               ++ bytes_of_u32 (flmstr5 fmba')).
  assert (Hlen : length data = 20%nat) by reflexivity.
  assert (Hblit : exists image', blit image off data = Ok image').
  { rewrite blit_ok; [eauto | lia | lia]. }
  destruct Hblit as [image' Hblit]. exists image'.
  split; [exact Hblit|]. split; [exact (blit_length _ _ _ _ Hblit)|].
  split.
  - assert (B4' : forall k, (k < 4)%nat ->
              data !! (12 + k)%nat = image !! (Z.to_nat off + (12 + k))%nat).
    { intros k Hk. transitivity (bytes_of_u32 (flmstr4 fmba') !! k).
      - destruct k as [|[|[|[|k]]]]; try lia; reflexivity.
      - rewrite B4 by lia. f_equal. lia. }
    assert (B5' : forall k, (k < 4)%nat ->
              data !! (16 + k)%nat = image !! (Z.to_nat off + (16 + k))%nat).
    { intros k Hk. transitivity (bytes_of_u32 (flmstr5 fmba') !! k).
      - destruct k as [|[|[|[|k]]]]; try lia; reflexivity.
      - rewrite B5 by lia. f_equal. lia. }
    intros k Hk Hout.
    destruct (Z_lt_le_dec k off) as [Hlow|Hhigh];
      [apply (blit_lookup_outside _ _ _ _ _ Hblit); lia|].
    destruct (Z_lt_le_dec k (off + 20)) as [Hin|Hpast];
      [|apply (blit_lookup_outside _ _ _ _ _ Hblit); lia].
    replace (Z.to_nat k)
      with (Z.to_nat off + Z.to_nat (k - off))%nat by lia.
    rewrite (blit_lookup_inside _ _ _ _ _ Hblit) by lia.
    destruct (Z_lt_le_dec k (off + 16)) as [Hfour|Hfive].
    + replace (Z.to_nat (k - off))
        with (12 + Z.to_nat (k - off - 12))%nat by lia.
      apply B4'. lia.
    + replace (Z.to_nat (k - off))
        with (16 + Z.to_nat (k - off - 16))%nat by lia.
      apply B5'. lia.
  - assert (W1 : load32 image' (off + 0) = Ok (flmstr1 fmba')).
    { apply (load32_blit image off data image' 0 _ Hblit);
        [lia | reflexivity]. }
    assert (W2 : load32 image' (off + 4) = Ok (flmstr2 fmba')).
    { apply (load32_blit image off data image' 4 _ Hblit);
        [lia | reflexivity]. }
    assert (W3 : load32 image' (off + 8) = Ok (flmstr3 fmba')).
    { apply (load32_blit image off data image' 8 _ Hblit);
        [lia | reflexivity]. }
    assert (W4 : load32 image' (off + 12) = Ok (flmstr4 fmba')).
    { apply (load32_blit image off data image' 12 _ Hblit);
        [lia | reflexivity]. }
    assert (W5 : load32 image' (off + 16) = Ok (flmstr5 fmba')).
    { apply (load32_blit image off data image' 16 _ Hblit);
        [lia | reflexivity]. }
    rewrite Z.add_0_r in W1.
    unfold load_fmba. rewrite W1, W2, W3, W4, W5.
    cbn [mbind res_bind]. destruct fmba'; reflexivity.
Qed.

Lemma is_u32_intro x : 0 <= x < 2 ^ 32 -> is_u32 x = true.
Proof. unfold is_u32. intros Hx. apply andb_true_intro. lia. Qed.

Lemma lock_fmba_range g fmba :
  is_u32 (flmstr1 (lock_fmba g fmba)) = true /\
  is_u32 (flmstr2 (lock_fmba g fmba)) = true /\
  is_u32 (flmstr3 (lock_fmba g fmba)) = true.
Proof.
  unfold lock_fmba.
  destruct (ge_version_2 (ifd_version g));
    cbn [flmstr1 flmstr2 flmstr3];
    repeat split; apply is_u32_intro;
    repeat apply lor_range; try lia; try apply u32_range;
    apply land_mask_range; lia.
Qed.

Lemma unlock_fmba_range g fmba :
  is_u32 (flmstr1 (unlock_fmba g fmba)) = true /\
  is_u32 (flmstr2 (unlock_fmba g fmba)) = true /\
  is_u32 (flmstr3 (unlock_fmba g fmba)) = true.
Proof.
  unfold unlock_fmba.
  destruct (ge_version_2 (ifd_version g));
    cbn [flmstr1 flmstr2 flmstr3];
    repeat split; try reflexivity; apply is_u32_intro;
    apply lor_range; try lia; apply land_mask_range; lia.
Qed.

Lemma lock_fmba_keeps_4_5 g fmba :
  flmstr4 (lock_fmba g fmba) = flmstr4 fmba /\
  flmstr5 (lock_fmba g fmba) = flmstr5 fmba.
Proof.
  unfold lock_fmba. destruct (ge_version_2 (ifd_version g)); split;
    reflexivity.
Qed.

Lemma unlock_fmba_keeps_4_5 g fmba :
  flmstr4 (unlock_fmba g fmba) = flmstr4 fmba /\
  flmstr5 (unlock_fmba g fmba) = flmstr5 fmba.
Proof.
  unfold unlock_fmba. destruct (ge_version_2 (ifd_version g)); split;
    reflexivity.
Qed.

(** X26.  [lock_descriptor] and [unlock_descriptor] write an image of the same
    length that differs from the one given in the 12 bytes of FLMSTR1..3 only,
    and there holds the words [lock_fmba] and [unlock_fmba] compute: the
    region table and the contents of the regions outside these bytes are not
    touched. *)
Theorem lock_unlock_rewrite_only_master_words (e : env) (g : globals)
  (filename : string) (image : image_t) (fs : files) (off : Z)
  (fmba : fmba_t)
  (Hwf : image_wf image = true)
  (Hoff : locate_fmba image = Ok off)
  (Hload : load_fmba image off = Ok fmba)
  (Hopen : output_open e = true)
  (Hwrite : image_size image <= output_write e) :
  (exists image',
     lock_descriptor e g filename image fs
     = (Ok tt, ((filename ++ ".new")%string, image') :: fs) /\
     length image' = length image /\
     (forall k, 0 <= k -> k < off \/ off + 12 <= k ->
                image' !! Z.to_nat k = image !! Z.to_nat k) /\
     load_fmba image' off = Ok (lock_fmba g fmba)) /\
  (exists image',
     unlock_descriptor e g filename image fs
     = (Ok tt, ((filename ++ ".new")%string, image') :: fs) /\
     length image' = length image /\
     (forall k, 0 <= k -> k < off \/ off + 12 <= k ->
                image' !! Z.to_nat k = image !! Z.to_nat k) /\
     load_fmba image' off = Ok (unlock_fmba g fmba)).
Proof.
  split.
  - destruct (lock_fmba_range g fmba) as (R1 & R2 & R3).
    destruct (lock_fmba_keeps_4_5 g fmba) as (K4 & K5).
    destruct (store_fmba_frame image off fmba (lock_fmba g fmba) Hwf Hload
                K4 K5 R1 R2 R3) as (image' & Hstore & Hlen & Hframe & Hback).
    exists image'. repeat split; try assumption.
    unfold lock_descriptor. rewrite Hoff. cbn [mbind res_bind].
    rewrite Hload. cbn [mbind res_bind]. rewrite Hstore, bind_lift_ok.
    apply write_image_whole; [exact Hopen | exact Hwrite |].
    unfold image_size. lia.
  - destruct (unlock_fmba_range g fmba) as (R1 & R2 & R3).
    destruct (unlock_fmba_keeps_4_5 g fmba) as (K4 & K5).
    destruct (store_fmba_frame image off fmba (unlock_fmba g fmba) Hwf Hload
                K4 K5 R1 R2 R3) as (image' & Hstore & Hlen & Hframe & Hback).
    exists image'. repeat split; try assumption.
    unfold unlock_descriptor. rewrite Hoff. cbn [mbind res_bind].
    rewrite Hload. cbn [mbind res_bind]. rewrite Hstore, bind_lift_ok.
    apply write_image_whole; [exact Hopen | exact Hwrite |].
    unfold image_size. lia.
Qed.

Lemma lock_unlock_rewrite_only_master_words_witness :
  let fmba := Fmba 0x00007fff 0xffffffff 0xffffffff 0xffffffff 0xffffffff in
  exists image',
    lock_descriptor (sample_env []) g_v2 "rom" sample_v2 []
    = (Ok tt, ("rom.new"%string, image') :: []) /\
    load_fmba image' 0x60 = Ok (lock_fmba g_v2 fmba).
Proof.
  intros fmba.
  destruct (proj1 (lock_unlock_rewrite_only_master_words (sample_env [])
                     g_v2 "rom" sample_v2 [] 0x60 fmba
                     ltac:(vm_compute; reflexivity)
                     ltac:(vm_compute; reflexivity)
                     ltac:(vm_compute; reflexivity)
                     ltac:(reflexivity)
                     ltac:(vm_compute; discriminate)))
    as (image' & Hrun & _ & _ & Hback).
  exists image'. split; assumption.
Defined.

End MasterWords.

(** ** Growth of a region in [new_layout] *)

Section LayoutGrowth.

Lemma image_wf_Forall (l : image_t) :
  image_wf l = true <-> Forall (fun b => is_byte b = true) l.
Proof.
  unfold image_wf. rewrite forallb_forall, Forall_forall.
  split; intros H b Hb; apply H; now apply list_elem_of_In.
Qed.

Lemma replicate_wf (n : nat) : image_wf (replicate n 0xff) = true.
Proof. apply image_wf_Forall, Forall_replicate. reflexivity. Qed.

Lemma blit_wf image p data image' :
  image_wf image = true -> image_wf data = true ->
  blit image p data = Ok image' -> image_wf image' = true.
Proof.
  rewrite !image_wf_Forall. intros Hi Hd H.
  apply blit_inv in H as (_ & _ & ->).
  repeat apply Forall_app_2; auto using Forall_take, Forall_drop.
Qed.

Lemma memcpy_wf dst d src s n dst' :
  image_wf dst = true -> image_wf src = true ->
  memcpy dst d src s n = Ok dst' -> image_wf dst' = true.
Proof.
  intros Hd Hs H.
  apply memcpy_inv in H as [[_ ->] | (_ & _ & _ & H)]; [exact Hd|].
  apply (blit_wf _ _ _ _ Hd) in H; [exact H|].
  apply image_wf_Forall, Forall_take, Forall_drop.
  now apply image_wf_Forall.
Qed.

Lemma copy_region_inv g image i current new buf buf' :
  copy_region g image i current new buf = Ok buf' ->
  size new <> 0 ->
  let '(dst, src, copy_size) := copy_plan current new in
  memcpy buf dst image src copy_size = Ok buf'.
Proof.
  unfold copy_region. intros H Hnz.
  destruct (Z.eqb_spec (size new) 0); [contradiction|].
  destruct (copy_plan current new) as [[dst src] copy_size].
  destruct (region_name g i); try discriminate. exact H.
Qed.

Lemma copy_region_keeps g image i current new buf buf' :
  copy_region g image i current new buf = Ok buf' ->
  length buf' = length buf /\
  (image_wf image = true -> image_wf buf = true -> image_wf buf' = true).
Proof.
  intros H. destruct (Z.eq_dec (size new) 0) as [Hz|Hnz].
  - unfold copy_region in H. rewrite Hz in H. cbn in H.
    injection H as <-. auto.
  - apply copy_region_inv in H; [|exact Hnz].
    destruct (copy_plan current new) as [[dst src] copy_size].
    split.
    + apply memcpy_inv in H as [[_ ->] | (_ & _ & _ & H)]; [reflexivity|].
      exact (blit_length _ _ _ _ H).
    + intros Hi Hb. exact (memcpy_wf _ _ _ _ _ _ Hb Hi H).
Qed.

Lemma copy_regions_keeps g image current_regions new_regions :
  forall idxs buf buf',
  copy_regions g image current_regions new_regions idxs buf = Ok buf' ->
  length buf' = length buf /\
  (image_wf image = true -> image_wf buf = true -> image_wf buf' = true).
Proof.
  induction idxs as [|j idxs IH]; intros buf buf' H.
  - injection H as <-. auto.
  - cbn [copy_regions] in H.
    destruct (region_at current_regions j) as [c| | |]; try discriminate.
    destruct (region_at new_regions j) as [nw| | |]; try discriminate.
    cbn [mbind res_bind] in H.
    destruct (copy_region g image j c nw buf) as [buf1| | |] eqn:Hstep;
      try discriminate.
    cbn [mbind res_bind] in H.
    destruct (copy_region_keeps _ _ _ _ _ _ _ Hstep) as [Hlen1 Hwf1].
    destruct (IH _ _ H) as [Hlen Hwf].
    split; [lia | auto].
Qed.

Lemma region_at_elem regions j r :
  region_at regions j = Ok r -> 0 <= j /\ r ∈ regions.
Proof.
  unfold region_at. destruct (Z.ltb_spec j 0); [discriminate|].
  destruct (regions !! Z.to_nat j) as [r'|] eqn:Hr; [|discriminate].
  intros [= <-]. split; [lia|]. eapply list_elem_of_lookup_2, Hr.
Qed.

Lemma region_ok_size r : region_ok r -> 0 <= size r < 2 ^ 31.
Proof.
  intros (_ & _ & ->). pose proof (s32_range (limit r - base r + 1)). lia.
Qed.

(** Where a round of the copy loop stores: inside the bytes of its new
    region. *)
Lemma copy_plan_inside c nw :
  0 <= size c < 2 ^ 31 -> 0 <= size nw < 2 ^ 31 ->
  let '(dst, _, copy_size) := copy_plan c nw in
  base nw <= dst /\ 0 <= copy_size /\ dst + copy_size <= base nw + size nw.
Proof.
  intros Hc Hn. unfold copy_plan.
  destruct (Z.gtb_spec (size nw) (size c)).
  - rewrite s32_small by lia. lia.
  - lia.
Qed.

(** Rounds of regions that share no byte with [target] spare it. *)
Lemma apart_others_spare current_regions new_regions i target :
  Forall region_ok current_regions -> Forall region_ok new_regions ->
  forall idxs,
  (forall j rj, j ∈ idxs -> j <> i -> region_at new_regions j = Ok rj ->
     size rj <> 0 ->
     base rj + size rj <= base target \/
     base target + size target <= base rj) ->
  others_spare current_regions new_regions i target idxs = true.
Proof.
  intros Hcok Hnok idxs Hapart. unfold others_spare.
  apply forallb_forall. intros j Hj. apply list_elem_of_In in Hj.
  destruct (Z.eqb_spec j i) as [|Hne]; [reflexivity|]. cbn [orb].
  unfold copy_spares.
  destruct (region_at current_regions j) as [c| | |] eqn:Hc;
    try reflexivity.
  destruct (region_at new_regions j) as [nw| | |] eqn:Hn; try reflexivity.
  pose proof (copy_plan_inside c nw) as Hplan.
  destruct (copy_plan c nw) as [[dst src] copy_size].
  destruct (Z.eqb_spec (size nw) 0) as [|Hnz]; [reflexivity|]. cbn [orb].
  apply region_at_elem in Hc as (_ & Hc).
  pose proof (region_at_elem _ _ _ Hn) as (_ & Hn').
  rewrite Forall_forall in Hcok, Hnok.
  specialize (Hplan (region_ok_size _ (Hcok _ Hc))
                (region_ok_size _ (Hnok _ Hn'))).
  specialize (Hapart j nw Hj Hne Hn Hnz).
  rewrite !orb_true_iff, !Z.eqb_eq, !Z.leb_le. lia.
Qed.

(** The round of a growing region among rounds that spare it. *)
Lemma copy_regions_grown g image current_regions new_regions i current new :
  region_at current_regions i = Ok current ->
  region_at new_regions i = Ok new ->
  0 <= size current < size new -> size new < 2 ^ 31 ->
  let pad := size new - size current in
  forall idxs buf buf',
  copy_regions g image current_regions new_regions idxs buf = Ok buf' ->
  others_spare current_regions new_regions i new idxs = true ->
  NoDup idxs -> i ∈ idxs ->
  (0 < size current ->
   0 <= base new + pad /\ base new + size new <= Z.of_nat (length buf)) /\
  (forall k, 0 <= k < size current ->
     buf' !! Z.to_nat (base new + pad + k)
     = image !! Z.to_nat (base current + k)) /\
  (forall k, 0 <= k < pad -> 0 <= base new + k ->
     buf' !! Z.to_nat (base new + k) = buf !! Z.to_nat (base new + k)).
Proof.
  intros Hcur Hnew Hsz Hint pad.
  induction idxs as [|j idxs IH]; intros buf buf' H Hsp Hnd Hin.
  - now apply elem_of_nil in Hin.
  - cbn [copy_regions] in H.
    destruct (region_at current_regions j) as [c| | |] eqn:Hc;
      try discriminate.
    destruct (region_at new_regions j) as [nw| | |] eqn:Hn;
      try discriminate.
    cbn [mbind res_bind] in H.
    destruct (copy_region g image j c nw buf) as [buf1| | |] eqn:Hstep;
      try discriminate.
    cbn [mbind res_bind] in H.
    cbn [others_spare forallb] in Hsp. apply andb_prop in Hsp as [Hj Hrest].
    apply NoDup_cons in Hnd as [Hnj Hnd].
    destruct (copy_region_keeps _ _ _ _ _ _ _ Hstep) as [Hlen1 _].
    destruct (Z.eq_dec j i) as [-> | Hne].
    + rewrite Hcur in Hc. rewrite Hnew in Hn.
      injection Hc as <-. injection Hn as <-.
      destruct (copy_region_grow _ _ _ _ _ _ _ Hstep Hsz Hint)
        as [Hin1 Hout1].
      fold pad in Hin1, Hout1.
      assert (Hbound : 0 < size current ->
                0 <= base new + pad /\
                base new + size new <= Z.of_nat (length buf)).
      { intros Hpos.
        pose proof (copy_region_inv _ _ _ _ _ _ _ Hstep ltac:(lia)) as Hm.
        unfold copy_plan in Hm.
        destruct (Z.gtb_spec (size new) (size current)); [|lia].
        destruct (Z.ltb_spec (size new) (size current)); [lia|].
        rewrite s32_small in Hm by lia. fold pad in Hm.
        apply memcpy_inv in Hm as [[Hz _] | (_ & Hs & Hfit & Hm)]; [lia|].
        apply blit_inv in Hm as (Hd & Hdfit & _).
        rewrite length_take_drop in Hdfit by lia.
        unfold image_size in Hdfit. lia. }
      split; [exact Hbound|].
      split.
      * intros k Hk. specialize (Hbound ltac:(lia)).
        rewrite (copy_regions_frame _ _ _ _ _ _ _ _ _ _ H Hrest Hnj)
          by lia.
        now apply Hin1.
      * intros k Hk Hk0.
        rewrite (copy_regions_frame _ _ _ _ _ _ _ _ _ _ H Hrest Hnj)
          by lia.
        apply Hout1; lia.
    + apply elem_of_cons in Hin as [-> | Hin]; [contradiction|].
      destruct (Z.eqb_spec j i) as [-> | _]; [contradiction|].
      cbn [orb] in Hj.
      destruct (IH buf1 buf' H Hrest Hnd Hin) as (IH0 & IH1 & IH2).
      split; [intros Hpos; rewrite <- Hlen1; now apply IH0|].
      split; [exact IH1|].
      intros k Hk Hk0. rewrite (IH2 k Hk Hk0).
      apply (copy_region_outside _ _ _ _ _ _ _ _ Hstep); [lia|].
      apply (copy_spares_sound _ _ _ _ _ _ _ Hj Hc Hn). lia.
Qed.

Lemma load_frba_inv image off f :
  load_frba image off = Ok f ->
  load32 image off = Ok (flreg0 f) /\
  load32 image (off + 4) = Ok (flreg1 f) /\
  load32 image (off + 8) = Ok (flreg2 f) /\
  load32 image (off + 12) = Ok (flreg3 f) /\
  load32 image (off + 16) = Ok (flreg4 f) /\
  load32 image (off + 20) = Ok (flreg5 f) /\
  load32 image (off + 24) = Ok (flreg6 f) /\
  load32 image (off + 28) = Ok (flreg7 f) /\
  load32 image (off + 32) = Ok (flreg8 f).
Proof.
  unfold load_frba.
  destruct (load32 image off) as [r0| | |]; try discriminate.
  destruct (load32 image (off + 4)) as [r1| | |]; try discriminate.
  destruct (load32 image (off + 8)) as [r2| | |]; try discriminate.
  destruct (load32 image (off + 12)) as [r3| | |]; try discriminate.
  destruct (load32 image (off + 16)) as [r4| | |]; try discriminate.
  destruct (load32 image (off + 20)) as [r5| | |]; try discriminate.
  destruct (load32 image (off + 24)) as [r6| | |]; try discriminate.
  destruct (load32 image (off + 28)) as [r7| | |]; try discriminate.
  destruct (load32 image (off + 32)) as [r8| | |]; try discriminate.
  cbn [mbind res_bind]. intros [= <-]. repeat split; reflexivity.
Qed.

(** A word of the data that is the word loaded from the same place. *)
Lemma word_kept image off (data : list Z) (w : nat) p v :
  image_wf image = true -> p = off + 4 * Z.of_nat w -> 0 <= off ->
  load32 image p = Ok v ->
  take 4 (drop (4 * w) data) = bytes_of_u32 v ->
  forall k : nat, (4 * w <= k < 4 * w + 4)%nat ->
    data !! k = image !! (Z.to_nat off + k)%nat.
Proof.
  intros Hwf -> Hoff Hload Hdata k Hk.
  destruct (load32_bytes _ _ _ Hwf Hload) as (_ & Hbytes).
  replace k with (4 * w + (k - 4 * w))%nat at 1 by lia.
  rewrite <- lookup_drop.
  rewrite <- (lookup_take_lt (drop (4 * w) data) 4) by lia.
  rewrite Hdata, Hbytes by lia. f_equal. lia.
Qed.

(** Storing a region section whose registers 0 and 5 to 8 are the ones
    loaded: the 16 bytes of FLREG1..4 are the only ones that can differ. *)
Lemma store_frba_frame image off f f' image' :
  image_wf image = true -> load_frba image off = Ok f ->
  flreg0 f' = flreg0 f -> flreg5 f' = flreg5 f -> flreg6 f' = flreg6 f ->
  flreg7 f' = flreg7 f -> flreg8 f' = flreg8 f ->
  store_frba image off f' = Ok image' ->
  length image' = length image /\
  forall q, 0 <= q -> q < off + 4 \/ off + 20 <= q ->
            image' !! Z.to_nat q = image !! Z.to_nat q.
Proof.
  intros Hwf Hload E0 E5 E6 E7 E8 Hstore.
  destruct (load_frba_inv _ _ _ Hload)
    as (L0 & _ & _ & _ & _ & L5 & L6 & L7 & L8).
  rewrite <- E0 in L0. rewrite <- E5 in L5. rewrite <- E6 in L6.
  rewrite <- E7 in L7. rewrite <- E8 in L8.
  unfold store_frba in Hstore.
  set (data := bytes_of_u32 (flreg0 f') ++ bytes_of_u32 (flreg1 f')
               ++ bytes_of_u32 (flreg2 f') ++ bytes_of_u32 (flreg3 f')
               ++ bytes_of_u32 (flreg4 f') ++ bytes_of_u32 (flreg5 f')
               ++ bytes_of_u32 (flreg6 f') ++ bytes_of_u32 (flreg7 f')
               ++ bytes_of_u32 (flreg8 f')) in Hstore.
  assert (Hlen : length data = 36%nat) by reflexivity.
  pose proof (blit_inv _ _ _ _ Hstore) as (Hoff & _ & _).
  split; [exact (blit_length _ _ _ _ Hstore)|].
  intros q Hq Hout.
  destruct (Z_lt_le_dec q off) as [Hlow|Hhigh];
    [apply (blit_lookup_outside _ _ _ _ _ Hstore); lia|].
  destruct (Z_lt_le_dec q (off + 36)) as [Hin|Hpast];
    [|apply (blit_lookup_outside _ _ _ _ _ Hstore); lia].
  replace (Z.to_nat q) with (Z.to_nat off + Z.to_nat (q - off))%nat by lia.
  rewrite (blit_lookup_inside _ _ _ _ _ Hstore) by lia.
  set (k := Z.to_nat (q - off)).
  assert (Hk : (k < 4 \/ 20 <= k < 24 \/ 24 <= k < 28 \/ 28 <= k < 32
                \/ 32 <= k < 36)%nat) by lia.
  destruct Hk as [Hk | [Hk | [Hk | [Hk | Hk]]]].
  - apply (word_kept image off data 0 off (flreg0 f') Hwf); try lia;
      [exact L0 | reflexivity].
  - apply (word_kept image off data 5 (off + 20) (flreg5 f') Hwf); try lia;
      [exact L5 | reflexivity].
  - apply (word_kept image off data 6 (off + 24) (flreg6 f') Hwf); try lia;
      [exact L6 | reflexivity].
  - apply (word_kept image off data 7 (off + 28) (flreg7 f') Hwf); try lia;
      [exact L7 | reflexivity].
  - apply (word_kept image off data 8 (off + 32) (flreg8 f') Hwf); try lia;
      [exact L8 | reflexivity].
Qed.

Lemma flreg_of_fields f f' :
  (forall j, j = 0 \/ 5 <= j <= 8 -> flreg_of f' j = flreg_of f j) ->
  flreg0 f' = flreg0 f /\ flreg5 f' = flreg5 f /\ flreg6 f' = flreg6 f /\
  flreg7 f' = flreg7 f /\ flreg8 f' = flreg8 f.
Proof.
  intros H.
  pose proof (H 0 ltac:(lia)) as H0. pose proof (H 5 ltac:(lia)) as H5.
  pose proof (H 6 ltac:(lia)) as H6. pose proof (H 7 ltac:(lia)) as H7.
  pose proof (H 8 ltac:(lia)) as H8.
  cbv in H0, H5, H6, H7, H8.
  destruct f, f'. cbn in *.
  repeat split; congruence.
Qed.

(** The loop of [set_region] calls over slots from 1 on leaves the
    registers 0 and 5 to 8 as they were. *)
Lemma set_regions_keeps new_regions : forall idxs f f',
  set_regions f new_regions idxs = Ok f' ->
  (forall j, j ∈ idxs -> 1 <= j) ->
  forall j, j = 0 \/ 5 <= j <= 8 -> flreg_of f' j = flreg_of f j.
Proof.
  induction idxs as [|i idxs IH]; intros f f' H Hidx j Hj.
  - now injection H as <-.
  - cbn [set_regions] in H.
    destruct (region_at new_regions i) as [r| | |]; try discriminate.
    cbn [mbind res_bind] in H.
    destruct (Z_le_dec i 4) as [Hi4|Hi4].
    + pose proof (Hidx i ltac:(left)) as Hi1.
      destruct (set_region_inside f i r ltac:(lia))
        as (f1 & Hset & _ & Hother).
      rewrite Hset in H. cbn [mbind res_bind] in H.
      rewrite (IH f1 f' H); [apply Hother; lia| |exact Hj].
      intros j' Hj'. apply Hidx. now right.
    + rewrite set_region_outside in H by lia. discriminate.
Qed.

Lemma new_buffer_inv new_extent n buf :
  new_buffer new_extent = Ok (n, buf) ->
  0 <= n /\ buf = replicate (Z.to_nat n) 0xff.
Proof.
  unfold new_buffer.
  destruct (next_pow2 next_pow2_rounds (u32 (new_extent - 1))) as [y|];
    [|discriminate].
  cbv zeta. destruct (Z.ltb_spec (s32 y) 0); [discriminate|].
  intros [= <- <-]. split; [lia | reflexivity].
Qed.

Lemma lift_bind_inv {A B} (r : res A) (k : A -> M B) fs b fs' :
  (lift r ≫= k) fs = (Ok b, fs') ->
  exists a, r = Ok a /\ k a fs = (Ok b, fs').
Proof.
  unfold mbind, M_bind, lift. destruct r as [a| | |]; try discriminate.
  eauto.
Qed.

(** C4, as the code has it.  Let a region of the new layout be larger than
    it was, and share no byte with another region of the new layout that
    has a size.  When [new_layout] returns, the buffer it has filled with
    0xFF and copied into holds the old bytes of the region from
    [new.base + (new.size - old.size)] on and 0xFF in the bytes of the new
    region before them; the image written is that buffer but for the 16
    bytes of FLREG1..FLREG4, which are stored afterwards at the region
    section found in the buffer. *)
Theorem new_layout_growth_pads_front (e : env) (g : globals)
  (filename : string) (image : image_t) (fs fs' : files) (frba : frba_t)
  (entries : list layout_entry) (current_regions new_regions : list region_t)
  (i : Z) (current new : region_t)
  (Hwf : image_wf image = true)
  (Hfrba : (off ← locate_frba image; load_frba image off) = Ok frba)
  (Hload : load_regions g frba (seqZ 0 (max_regions g)) = Ok current_regions)
  (Hfile : layout_file e = Some entries)
  (Hread : read_layout g current_regions entries = Ok new_regions)
  (Hrun : new_layout e g filename image fs = (Ok tt, fs'))
  (Hi : 0 <= i < max_regions g)
  (Hcur : region_at current_regions i = Ok current)
  (Hnew : region_at new_regions i = Ok new)
  (Hgrow : size current < size new)
  (Halone : forall j rj,
     0 <= j < max_regions g -> j <> i ->
     region_at new_regions j = Ok rj -> size rj <> 0 ->
     base rj + size rj <= base new \/ base new + size new <= base rj) :
  let pad := size new - size current in
  exists new_extent n copied off new_image,
    check_layout g current_regions new_regions (seqZ 0 (max_regions g)) 0
    = Ok new_extent /\
    new_buffer new_extent = Ok (n, replicate (Z.to_nat n) 0xff) /\
    copy_regions g image current_regions new_regions
      (seqZ 0 (max_regions g)) (replicate (Z.to_nat n) 0xff) = Ok copied /\
    Z.of_nat (length copied) = n /\
    (0 < size current -> 0 <= base new + pad /\ base new + size new <= n) /\
    (forall k, 0 <= k < size current ->
       copied !! Z.to_nat (base new + pad + k)
       = image !! Z.to_nat (base current + k)) /\
    (forall k, 0 <= k < pad -> 0 <= base new + k < n ->
       copied !! Z.to_nat (base new + k) = Some 0xff) /\
    locate_frba copied = Ok off /\
    length new_image = length copied /\
    (forall q, 0 <= q -> q < off + 4 \/ off + 20 <= q ->
       new_image !! Z.to_nat q = copied !! Z.to_nat q) /\
    fs' = ((filename ++ ".new")%string,
           take (Z.to_nat (Z.min n (output_write e))) new_image) :: fs.
Proof.
  intros pad.
  pose proof (load_regions_ok _ _ _ _ Hload) as Hcok.
  pose proof (proj2 (read_layout_keeps _ _ _ _ Hread) Hcok) as Hnok.
  assert (Hcsz : 0 <= size current < 2 ^ 31).
  { apply region_ok_size. rewrite Forall_forall in Hcok.
    apply Hcok. now apply region_at_elem in Hcur. }
  assert (Hnsz : 0 <= size new < 2 ^ 31).
  { apply region_ok_size. rewrite Forall_forall in Hnok.
    apply Hnok. now apply region_at_elem in Hnew. }
  unfold new_layout in Hrun.
  rewrite Hfrba, bind_lift_ok in Hrun. cbv zeta in Hrun.
  rewrite Hload, !bind_lift_ok, Hfile, bind_ret, Hread, bind_lift_ok in Hrun.
  apply lift_bind_inv in Hrun as (new_extent & Hcheck & Hrun).
  apply lift_bind_inv in Hrun as ([n buf] & Hbuf & Hrun).
  apply lift_bind_inv in Hrun as (copied & Hcopy & Hrun).
  apply lift_bind_inv in Hrun as (new_image & Hupdate & Hrun).
  destruct (new_buffer_inv _ _ _ Hbuf) as (Hn & ->).
  destruct (copy_regions_keeps _ _ _ _ _ _ _ Hcopy) as (Hlen & Hkeeps).
  rewrite length_replicate in Hlen.
  pose proof (Hkeeps Hwf (replicate_wf _)) as Hwfc.
  (* the stores of the registers *)
  destruct (locate_frba copied) as [off| | |] eqn:Hoff; try discriminate.
  cbn [mbind res_bind] in Hupdate.
  destruct (load_frba copied off) as [f| | |] eqn:Hf; try discriminate.
  cbn [mbind res_bind] in Hupdate.
  destruct (set_regions f new_regions (seqZ 1 (max_regions g - 1)))
    as [f'| | |] eqn:Hset; try discriminate.
  cbn [mbind res_bind] in Hupdate.
  assert (Hregs : forall j, j = 0 \/ 5 <= j <= 8 ->
                            flreg_of f' j = flreg_of f j).
  { apply (set_regions_keeps _ _ _ _ Hset).
    intros j Hj. apply elem_of_seqZ in Hj. lia. }
  destruct (flreg_of_fields _ _ Hregs) as (E0 & E5 & E6 & E7 & E8).
  destruct (store_frba_frame _ _ _ _ _ Hwfc Hf E0 E5 E6 E7 E8 Hupdate)
    as (Hlen' & Hframe).
  (* the round of the region *)
  assert (Hspare : others_spare current_regions new_regions i new
                     (seqZ 0 (max_regions g)) = true).
  { apply (apart_others_spare _ _ _ _ Hcok Hnok).
    intros j rj Hj. apply elem_of_seqZ in Hj. apply Halone. lia. }
  destruct (copy_regions_grown g image current_regions new_regions i
              current new Hcur Hnew ltac:(lia) ltac:(lia)
              (seqZ 0 (max_regions g)) _ copied Hcopy Hspare
              (NoDup_seqZ _ _) ltac:(apply elem_of_seqZ; lia))
    as (Hbound & Hcontent & Hfront).
  rewrite length_replicate in Hbound. fold pad in Hbound, Hcontent, Hfront.
  (* the file *)
  unfold write_image in Hrun.
  destruct (output_open e); [|discriminate].
  injection Hrun as <-.
  exists new_extent, n, copied, off, new_image.
  split; [exact Hcheck|]. split; [exact Hbuf|]. split; [exact Hcopy|].
  split; [lia|].
  split; [intros Hpos; specialize (Hbound Hpos); lia|].
  split; [exact Hcontent|].
  split.
  { intros k Hk Hkn. rewrite Hfront by lia.
    apply lookup_replicate_2. lia. }
  split; [exact Hoff|]. split; [lia|]. split; [exact Hframe|].
  reflexivity.
Qed.

(** The scenario of the specification: the BIOS region of the sample
    grows from 0x1000..0x1FFF to 0x2000..0x3FFF. *)
Lemma new_layout_growth_pads_front_witness :
  let e := sample_env [Layout_entry (Some 0x2000) (Some 0x3fff) "bios"] in
  let current := {| base := 0x1000; limit := 0x1fff; size := 0x1000 |} in
  let new := {| base := 0x2000; limit := 0x3fff; size := 0x2000 |} in
  let new_regions := <[1%nat := new]> sample_regions_v1 in
  let written :=
    descriptor_block 0
      [0; 0x00030002; 0x00000fff; 0x00000fff; 0x00000fff;
       0xffffffff; 0xffffffff; 0xffffffff; 0xffffffff]
    ++ replicate (Z.to_nat 0x2000) 0xff ++ sample_bios in
  exists new_extent n copied off new_image,
    check_layout g_v1 sample_regions_v1 new_regions
      (seqZ 0 (max_regions g_v1)) 0 = Ok new_extent /\
    new_buffer new_extent = Ok (n, replicate (Z.to_nat n) 0xff) /\
    copy_regions g_v1 sample_v1 sample_regions_v1 new_regions
      (seqZ 0 (max_regions g_v1)) (replicate (Z.to_nat n) 0xff)
    = Ok copied /\
    Z.of_nat (length copied) = n /\
    (0 < 0x1000 -> 0 <= 0x2000 + (0x2000 - 0x1000) /\ 0x2000 + 0x2000 <= n) /\
    (forall k, 0 <= k < 0x1000 ->
       copied !! Z.to_nat (0x2000 + (0x2000 - 0x1000) + k)
       = sample_v1 !! Z.to_nat (0x1000 + k)) /\
    (forall k, 0 <= k < 0x2000 - 0x1000 -> 0 <= 0x2000 + k < n ->
       copied !! Z.to_nat (0x2000 + k) = Some 0xff) /\
    locate_frba copied = Ok off /\
    length new_image = length copied /\
    (forall q, 0 <= q -> q < off + 4 \/ off + 20 <= q ->
       new_image !! Z.to_nat q = copied !! Z.to_nat q) /\
    [("rom.new"%string, written)]
    = [(("rom" ++ ".new")%string,
        take (Z.to_nat (Z.min n (output_write e))) new_image)].
Proof.
  intros e current new new_regions written.
  apply (new_layout_growth_pads_front e g_v1 "rom" sample_v1 []
           [("rom.new"%string, written)]
           (Frba 0 0x00010001 0x00000fff 0x00000fff 0x00001fff
              0xffffffff 0xffffffff 0xffffffff 0xffffffff)
           [Layout_entry (Some 0x2000) (Some 0x3fff) "bios"]
           sample_regions_v1 new_regions 1 current new);
    [ vm_compute; reflexivity | vm_compute; reflexivity
    | vm_compute; reflexivity | reflexivity | vm_compute; reflexivity
    | vm_compute; reflexivity
    | unfold g_v1, MAX_REGIONS_OLD; simpl; lia
    | reflexivity | reflexivity | simpl; lia | ].
  intros j rj Hj Hne Hrj Hsize.
  assert (Hcases : j = 0 \/ j = 2 \/ j = 3 \/ j = 4)
    by (unfold g_v1, MAX_REGIONS_OLD in Hj; simpl in Hj; lia).
  destruct Hcases as [-> | [-> | [-> | ->]]];
    vm_compute in Hrj; injection Hrj as <-; simpl in *; lia.
Defined.

(** The claim as it stands fails when the region that grows contains
    another one, which the overlap check lets through (the first region
    of a pair may contain the second): on an image with BIOS at
    0x1000..0x1FFF and ME at 0x2000..0x2FFF, the layout line
    [00001000:00003fff bios] is accepted, the old BIOS bytes go to 0x3000,
    and the front 0x1000..0x2FFF of the grown BIOS region holds the bytes
    of ME from 0x2000 on. *)
Lemma growth_front_holds_contained_region :
  let e := sample_env [Layout_entry (Some 0x1000) (Some 0x3fff) "bios"] in
  let new_image :=
    descriptor_block 0
      [0; 0x00030001; 0x00020002; 0x00000fff; 0x00000fff;
       0xffffffff; 0xffffffff; 0xffffffff; 0xffffffff]
    ++ replicate (Z.to_nat 0x1000) 0xff ++ sample_me ++ sample_bios in
  new_layout e g_v1 "rom" sample_bios_me []
  = (Ok tt, [("rom.new"%string, new_image)]) /\
  ~ (forall k, 0 <= k < 0x3000 - 0x1000 ->
       new_image !! Z.to_nat (0x1000 + k) = Some 0xff).
Proof.
  intros e new_image.
  split; [vm_compute; reflexivity|].
  assert (Hbyte : new_image !! Z.to_nat (0x1000 + 0x1000) = Some 1)
    by (vm_compute; reflexivity).
  intros H. specialize (H 0x1000 ltac:(lia)).
  rewrite Hbyte in H. discriminate.
Qed.

End LayoutGrowth.
